(** * Easy-Translator: export / import of localized labels

    A shallow embedding of the transformation core of the translator:
    - [exportLanguageService] (src/services/exportLanguageService.tsx):
      output-language selection, sheet headers and rows, the form/dashboard
      language sweep and the site-map caption extraction;
    - [importLanguageService]: header scanning, label reading, row grouping,
      the layout patchers and the dispatch loop of [importTranslations].

    JavaScript values are modelled by [JsVal]; numbers are restricted to
    integers (locale identifiers and option values are integers), and a
    string denotes a number when it is a decimal integer literal.  A JS
    [Map] and a plain object used as a dictionary are association lists in
    insertion order; XML documents are element trees. *)

From stdpp Require Import base strings list numbers pretty sorting.
From Stdlib Require Import Ascii ZArith Lia.

Local Open Scope Z_scope.

(** ** JavaScript values and coercions *)

(** A cell value, an attribute read or a language tag: [null], an
    integer number, or a string. *)
Inductive JsVal : Type :=
| JNull
| JNum (z : Z)
| JStr (s : string).

Global Instance JsVal_eq_dec : EqDecision JsVal.
Proof. solve_decision. Defined.

(** A number as produced by [Number(...)]: [None] is NaN. *)
Abbreviation JsNum := (option Z).

(** [String.prototype.trim] (ASCII white space). *)
Definition is_ws (c : Ascii.ascii) : bool :=
  match Ascii.nat_of_ascii c with
  | 9%nat | 10%nat | 11%nat | 12%nat | 13%nat | 32%nat => true
  | _ => false
  end.

Fixpoint trimStart (s : string) : string :=
  match s with
  | EmptyString => EmptyString
  | String c r => if is_ws c then trimStart r else s
  end.

Definition trim (s : string) : string :=
  String.rev (trimStart (String.rev (trimStart s))).

(** [String(n)] for a number. *)
Definition numToString (n : JsNum) : string :=
  match n with
  | Some z => pretty z
  | None => "NaN"
  end.

(** [String(v ?? "")]. *)
Definition toStr (v : JsVal) : string :=
  match v with
  | JNull => ""
  | JNum z => pretty z
  | JStr s => s
  end.

Definition digitOf (c : Ascii.ascii) : option Z :=
  let n := Ascii.nat_of_ascii c in
  if (48 <=? n)%nat && (n <=? 57)%nat then Some (Z.of_nat (n - 48)) else None.

Fixpoint digitsToZ (acc : Z) (s : string) : option Z :=
  match s with
  | EmptyString => Some acc
  | String c r =>
      match digitOf c with
      | Some d => digitsToZ (10 * acc + d) r
      | None => None
      end
  end.

(** [Number(s)] for a string: white space is trimmed, the empty string is 0,
    an optionally signed run of decimal digits is that integer, anything
    else is NaN. *)
Definition strToNumber (s : string) : JsNum :=
  match trim s with
  | EmptyString => Some 0
  | String "-"%char (String c r) => Z.opp <$> digitsToZ 0 (String c r)
  | String "+"%char (String c r) => digitsToZ 0 (String c r)
  | t => digitsToZ 0 t
  end.

(** [Number(v)]. *)
Definition toNumber (v : JsVal) : JsNum :=
  match v with
  | JNull => Some 0
  | JNum z => Some z
  | JStr s => strToNumber s
  end.

(** Truthiness of a string ([!s] is its negation). *)
Definition truthy (s : string) : bool :=
  match s with EmptyString => false | _ => true end.

(** ** Dictionaries: [Record<number, string>] and [Map<string, V>] *)

(** A plain object keyed by numbers, in property insertion order. *)
Abbreviation Labels := (list (option Z * string)).

Definition key_eqb (a b : JsNum) : bool := bool_decide (a = b).

Fixpoint setProp (k : JsNum) (v : string) (o : Labels) : Labels :=
  match o with
  | [] => [(k, v)]
  | (k', v') :: r => if key_eqb k k' then (k, v) :: r else (k', v') :: setProp k v r
  end.

(** Keys that are array indices come first in ascending order; the other
    keys (negative numbers, NaN) follow in insertion order. *)
Definition isIndexKey (k : JsNum) : bool :=
  match k with
  | Some z => (0 <=? z) && (z <? 4294967295)
  | None => false
  end.

Definition indexOf (k : JsNum) : Z := default 0 k.

Definition key_le (a b : JsNum * string) : Prop := indexOf a.1 <= indexOf b.1.

Global Instance key_le_dec : RelDecision key_le.
Proof. intros a b. unfold key_le. apply _. Defined.

(** [Object.entries(o)]. *)
Definition entries (o : Labels) : list (JsNum * string) :=
  merge_sort key_le (filter (fun e => isIndexKey e.1 = true) o)
  ++ filter (fun e => isIndexKey e.1 = false) o.

(** [{ ...a, ...b }]. *)
Definition spread (a b : Labels) : Labels :=
  fold_left (fun o e => setProp e.1 e.2 o) (entries b)
    (fold_left (fun o e => setProp e.1 e.2 o) (entries a) []).

(** A JS [Map] keyed by strings, in insertion order. *)
Abbreviation JsMap V := (list (string * V)).

Fixpoint mapGet {V} (k : string) (m : JsMap V) : option V :=
  match m with
  | [] => None
  | (k', v) :: r => if String.eqb k k' then Some v else mapGet k r
  end.

Definition mapHas {V} (k : string) (m : JsMap V) : bool :=
  match mapGet k m with Some _ => true | None => false end.

Fixpoint mapSet {V} (k : string) (v : V) (m : JsMap V) : JsMap V :=
  match m with
  | [] => [(k, v)]
  | (k', v') :: r => if String.eqb k k' then (k, v) :: r else (k', v') :: mapSet k v r
  end.

(** ** Worksheets *)

Abbreviation Row := (list JsVal).

Record Sheet : Type := mkSheet {
  sheetName : string;
  sheetRows : list Row   (* row 1 is the header *)
}.

(** [row.getCell(col).value], columns counted from 1. *)
Definition getCell (r : Row) (col : nat) : JsVal :=
  match col with
  | O => JNull
  | S i => default JNull (r !! i)
  end.

Definition getRow (s : Sheet) (i : nat) : Row :=
  match i with
  | O => []
  | S j => default [] (sheetRows s !! j)
  end.

Definition columnCount (s : Sheet) : nat :=
  foldr (fun r m => Nat.max (length r) m) 0%nat (sheetRows s).

Definition headerRow (s : Sheet) : Row := getRow s 1.

(** The data rows, i.e. [eachRow] with [if (rowNumber === 1) return]. *)
Definition dataRows (s : Sheet) : list Row := drop 1 (sheetRows s).

(** ** View model (src/model/viewModel.tsx) *)

Inductive LabelOptions : Type := both | names | descriptions.

Record LanguageDef : Type := mkLang {
  ld_code : Z;
  ld_name : string
}.

(** [code] is a number for repository labels and for layout snapshots, and
    the text of the [LCID] attribute for site-map captions. *)
Record LangTranslation : Type := mkTrans {
  lt_code : JsVal;
  lt_translation : string
}.

Record LangProp : Type := mkLangProp {
  lp_name : string;
  lp_translation : list LangTranslation
}.

(** [SecInfo]; [props] is the dynamic key/value bag. *)
Record SecInfo : Type := mkSecInfo {
  si_id : string;
  si_name : string;
  si_props : list (string * string);
  si_langProps : list LangProp
}.

Record OptionSetDef : Type := mkOptionSet {
  os_id : string;
  os_type : JsVal;
  os_isGlobal : bool;
  os_attributeLogicalName : JsVal;
  os_optionValue : JsVal;
  os_langProps : list LangProp
}.

(** The part of [Table] read by the sheet projector. *)
Record Table : Type := mkTable {
  t_logicalName : string;
  t_id : string;
  t_langProps : list LangProp;
  t_optionSets : list OptionSetDef
}.

Record Options : Type := mkOptions {
  o_dashboards : bool;
  o_forms : bool;
  o_formTabs : bool;
  o_formSections : bool;
  o_formFields : bool;
  o_labelOptions : LabelOptions;
  o_exportAllLanguages : bool
}.

(** ** Export: output languages and headers (exportTranslations) *)

(** Lines 34-38 of [exportTranslations]: the operator's choice, then the base
    language pushed at the end when no chosen language has its code.
    [selectedLanguage] is optional; reading [code] of [undefined] throws,
    which is [None] here. *)
Definition chosenLangs (exportAll : bool) (allLanguages : list LanguageDef)
    (selectedLanguage : option LanguageDef) : option (list LanguageDef) :=
  if exportAll then Some allLanguages
  else match selectedLanguage with
       | Some l => Some [l]
       | None => None
       end.

Definition hasCode (c : Z) (ls : list LanguageDef) : bool :=
  existsb (fun ld => ld_code ld =? c) ls.

Definition outputLangs (exportAll : bool) (allLanguages : list LanguageDef)
    (selectedLanguage : option LanguageDef) (baseLanguage : LanguageDef)
    : option (list LanguageDef) :=
  match chosenLangs exportAll allLanguages selectedLanguage with
  | Some ls =>
      if negb (hasCode (ld_code baseLanguage) ls) then Some (ls ++ [baseLanguage])
      else Some ls
  | None => None
  end.

(** [[...identity columns, ...this.outputLangs.map((lang) => lang.code)]]. *)
Definition headerOf (idCols : list string) (langs : list LanguageDef) : Row :=
  map JStr idCols ++ map (fun l => JNum (ld_code l)) langs.

(** The identity columns of every header row written by the export, in the
    order the sheets are added. *)
Definition exportSheetColumns : list (string * list string) :=
  [ ("Entities", ["Entity Id"; "Entity Logical Name"; "Type"]);
    ("Attributes", ["Attribute Id"; "Entity Logical Name"; "Attribute Logical Name"; "Type"]);
    ("Relationships", ["Entity"; "Relationship Id"; "Relationship Name"; "Relationship entity"]);
    ("RelationshipsNN", ["Entity"; "Relationship Id"; "Relationship Intersect Entity"]);
    ("Local OptionSets", ["Attribute Id"; "Entity Logical Name"; "Attribute Logical Name";
                          "Attribute Type"; "Value"; "Type"]);
    ("Global OptionSets", ["OptionSet Id"; "OptionSet Name"; "Value"; "Type"]);
    ("Booleans", ["Attribute Id"; "Entity Logical Name"; "Attribute Logical Name";
                  "Attribute Type"; "Value"; "Type"]);
    ("Views", ["View Id"; "Entity Logical Name"; "View Type"; "Type"]);
    ("Charts", ["Chart Id"; "Entity Logical Name"; "Type"]);
    ("Forms", ["Form Unique Id"; "Form Id"; "Entity Logical Name"; "Form Type"; "Type"]);
    ("Forms Tabs", ["Tab Id"; "Entity Logical Name"; "Form Name"; "Form Unique Id"; "Form Id"]);
    ("Forms Sections", ["Section Id"; "Entity Logical Name"; "Form Name"; "Form Unique Id";
                        "Form Id"; "Tab Name"]);
    ("Forms Fields", ["Label Id"; "Entity Logical Name"; "Form Name"; "Form Unique Id"; "Form Id";
                      "Tab Name"; "Section Name"; "Attribute"; "Display Name"]);
    ("SiteMap Areas", ["SiteMap Name"; "SiteMap Id"; "Area Id"; "Type"]);
    ("SiteMap Groups", ["SiteMap Name"; "SiteMap Id"; "Area Id"; "Group Id"; "Type"]);
    ("SiteMap SubAreas", ["SiteMap Name"; "SiteMap Id"; "Area Id"; "Group Id"; "SubArea Id"; "Type"]);
    ("Dashboards", ["Form Unique Id"; "Form Id"; "Type"]);
    ("Dashboards Tabs", ["Tab Id"; "Form Name test"; "Form Unique Id"; "Form Id"]);
    ("Dashboards Sections", ["Section Id"; "Form Name"; "Form Unique Id"; "Form Id"; "Tab Name"]);
    ("Dashboards Fields", ["Label Id"; "Form Name"; "Form Unique Id"; "Form Id"; "Tab Name";
                           "Section Name"]) ].

Definition exportHeaders (langs : list LanguageDef) : list (string * Row) :=
  map (fun sc => (sc.1, headerOf sc.2 langs)) exportSheetColumns.

(** ** Export: the Entities and Booleans sheets *)

Definition braces (id : string) : string := "{" +:+ id +:+ "}".

(** The [langProps] kept by [labelOptions] in [exportTableInfo]. *)
Definition tableLangProps (lo : LabelOptions) (t : Table) : list LangProp :=
  match lo with
  | both => t_langProps t
  | names =>
      filter (fun lp => lp_name lp = "DisplayCollectionName" \/ lp_name lp = "DisplayName")
        (t_langProps t)
  | descriptions => filter (fun lp => lp_name lp = "Description") (t_langProps t)
  end.

(** One data row of the Entities sheet: the translations are spread in list
    order after the three identity cells. *)
Definition entityRow (t : Table) (langProp : LangProp) : Row :=
  [JStr (braces (t_id t)); JStr (t_logicalName t); JStr (lp_name langProp)]
  ++ map (fun trans => JStr (lt_translation trans)) (lp_translation langProp).

Definition exportTableInfo (lo : LabelOptions) (langs : list LanguageDef)
    (selectedTables : list Table) : Sheet :=
  mkSheet "Entities"
    (headerOf ["Entity Id"; "Entity Logical Name"; "Type"] langs
     :: flat_map (fun t => map (entityRow t) (tableLangProps lo t)) selectedTables).

(** [langProp.translation.find((t) => t.code === lang.code)], then
    [trans ? trans.translation : ""]. *)
Definition translationFor (code : Z) (langProp : LangProp) : string :=
  match List.find (fun t => bool_decide (lt_code t = JNum code)) (lp_translation langProp) with
  | Some trans => lt_translation trans
  | None => ""
  end.

Definition findTranslation (lang : LanguageDef) (langProp : LangProp) : string :=
  translationFor (ld_code lang) langProp.

Definition keepLangProp (lo : LabelOptions) (lp : LangProp) : bool :=
  match lo with
  | both => true
  | names => bool_decide (lp_name lp = "Label")
  | descriptions => bool_decide (lp_name lp = "Description")
  end.

Definition booleanRow (langs : list LanguageDef) (t : Table) (optionSet : OptionSetDef)
    (langProp : LangProp) : Row :=
  [JStr (braces (os_id optionSet)); JStr (t_logicalName t); os_attributeLogicalName optionSet;
   os_type optionSet; os_optionValue optionSet; JStr (lp_name langProp)]
  ++ map (fun lang => JStr (findTranslation lang langProp)) langs.

Definition exportBooleans (lo : LabelOptions) (langs : list LanguageDef)
    (selectedTables : list Table) : Sheet :=
  mkSheet "Booleans"
    (headerOf ["Attribute Id"; "Entity Logical Name"; "Attribute Logical Name";
               "Attribute Type"; "Value"; "Type"] langs
     :: flat_map (fun t =>
          flat_map (fun optionSet =>
              map (booleanRow langs t optionSet)
                (filter (fun lp => keepLangProp lo lp = true) (os_langProps optionSet)))
            (filter (fun os => os_type os = JStr "Boolean") (t_optionSets t)))
        selectedTables).

(** The cell of a data row under the header column of language [L]: the
    column is the first one whose header cell is the number [L]. *)
Fixpoint columnOf (L : Z) (header : Row) (col : nat) : option nat :=
  match header with
  | [] => None
  | v :: r => if bool_decide (v = JNum L) then Some col else columnOf L r (S col)
  end.

Definition cellUnder (L : Z) (header row : Row) : JsVal :=
  match columnOf L header 1 with
  | Some col => getCell row col
  | None => JNull
  end.

(** ** Export: the language sweep of [exportForms] *)

(** Calls made on the repository collaborator ([dvService]). *)
Inductive RepoCall : Type :=
| CallGetUserLanguage
| CallUpdateLanguage (lang : JsVal) (userId : string)
| CallGetForms (table : string) (lang : Z) (base : bool)
| CallGetDashboards (lang : Z).

(** Which repository calls reject.  A rejected [updateLanguage] leaves the
    user settings as they were. *)
Record Repository : Type := mkRepository {
  getUserLanguage_fails : bool;
  updateLanguage_fails : JsVal -> bool;
  getForms_fails : string -> Z -> bool;
  getDashboards_fails : Z -> bool
}.

(** The operator's settings held by the repository, the trace of calls, and
    the view-model fields the sweep reads and writes. *)
Record World : Type := mkWorld {
  w_uilanguageid : JsVal;
  w_systemuserid : string;
  w_calls : list RepoCall;
  vm_uiLocale : JsVal;
  vm_userId : string
}.

Inductive Res (A : Type) : Type :=
| Ok (a : A)
| Throw (e : string).
Arguments Ok {A} a.
Arguments Throw {A} e.

(** Asynchronous code run to completion: state passing with exceptions. *)
Definition M (A : Type) : Type := World -> Res A * World.

Global Instance M_ret : MRet M := fun A a w => (Ok a, w).

Global Instance M_bind : MBind M := fun A B k m w =>
  match m w with
  | (Ok a, w') => k a w'
  | (Throw e, w') => (Throw e, w')
  end.

Definition call (c : RepoCall) (w : World) : World :=
  mkWorld (w_uilanguageid w) (w_systemuserid w) (w_calls w ++ [c]) (vm_uiLocale w) (vm_userId w).

Section Sweep.
Variable repo : Repository.

Definition getUserLanguage : M (JsVal * string) := fun w =>
  let w' := call CallGetUserLanguage w in
  if getUserLanguage_fails repo then (Throw "getUserLanguage", w')
  else (Ok (w_uilanguageid w, w_systemuserid w), w').

Definition updateLanguage (lang : JsVal) (userId : string) : M unit := fun w =>
  let w' := call (CallUpdateLanguage lang userId) w in
  if updateLanguage_fails repo lang then (Throw "updateLanguage", w')
  else (Ok tt, mkWorld lang (w_systemuserid w') (w_calls w') (vm_uiLocale w') (vm_userId w')).

(** [Promise.all(selectedTables.map(getForms))]: every fetch is started,
    the whole rejects when one of them rejects. *)
Definition getFormsAll (tables : list string) (lang : Z) (base : bool) : M unit := fun w =>
  let w' := fold_left (fun w t => call (CallGetForms t lang base) w) tables w in
  if existsb (fun t => getForms_fails repo t lang) tables then (Throw "getForms", w')
  else (Ok tt, w').

Definition getDashboards (lang : Z) : M unit := fun w =>
  let w' := call (CallGetDashboards lang) w in
  if getDashboards_fails repo lang then (Throw "getDashboards", w') else (Ok tt, w').

Definition setUser (r : JsVal * string) : M unit := fun w =>
  (Ok tt, mkWorld (w_uilanguageid w) (w_systemuserid w) (w_calls w) r.1 r.2).

Definition readVm : M (JsVal * string) := fun w => (Ok (vm_uiLocale w, vm_userId w), w).

Definition when (b : bool) (m : M unit) : M unit := if b then m else mret tt.

(** The body of [for (const lang of this.outputLangs)]. *)
Fixpoint sweepLangs (formsExport dashboards : bool) (tables : list string)
    (baseCode : Z) (currentLang : JsVal) (langs : list LanguageDef) : M unit :=
  match langs with
  | [] => mret tt
  | lang :: rest =>
      let code := JNum (ld_code lang) in
      cur ← (if bool_decide (currentLang <> code)
             then (vm ← readVm; updateLanguage code vm.2;; mret code)
             else mret currentLang);
      when formsExport (getFormsAll tables (ld_code lang) (ld_code lang =? baseCode));;
      when dashboards (getDashboards (ld_code lang));;
      sweepLangs formsExport dashboards tables baseCode cur rest
  end.

(** [exportForms] from the recording of the user language to the
    "Reverting language..." call (the sheet rows built afterwards do not
    call the repository). *)
Definition exportForms_sweep (o : Options) (tables : list string) (baseCode : Z)
    (langs : list LanguageDef) : M unit :=
  let formsExport := o_forms o || o_formFields o || o_formSections o || o_formTabs o in
  when (formsExport || o_dashboards o)
    (r ← getUserLanguage;
     setUser r;;
     vm ← readVm;
     sweepLangs formsExport (o_dashboards o) tables baseCode vm.1 langs);;
  vm ← readVm;
  updateLanguage vm.1 vm.2.
End Sweep.

(** ** Layout documents *)

Local Set Warnings "-register-all".

(** An XML element: tag, attributes, child elements in document order.
    Text nodes carry nothing in layout documents and are left out. *)
Inductive Node : Type :=
| Elem (tag : string) (attrs : list (string * string)) (kids : list Node).

Definition tagOf (n : Node) : string := match n with Elem t _ _ => t end.
Definition attrsOf (n : Node) : list (string * string) := match n with Elem _ a _ => a end.
Definition kidsOf (n : Node) : list Node := match n with Elem _ _ k => k end.

Definition hasTag (t : string) (n : Node) : bool := String.eqb (tagOf n) t.

(** [n.getAttribute(a)]; [None] is [null]. *)
Definition getAttribute (a : string) (n : Node) : option string :=
  snd <$> List.find (fun kv => String.eqb kv.1 a) (attrsOf n).

(** [n.getAttribute(a) ?? ""]. *)
Definition attrOrEmpty (a : string) (n : Node) : string := default "" (getAttribute a n).

(** The proper descendants of an element in document order, each with its
    depth below the element (1 for a child). *)
Fixpoint descendantsFrom (d : nat) (n : Node) : list (nat * Node) :=
  match n with
  | Elem _ _ ks =>
      (fix go (l : list Node) : list (nat * Node) :=
         match l with
         | [] => []
         | k :: r => (d, k) :: descendantsFrom (S d) k ++ go r
         end) ks
  end.

Definition descendants (n : Node) : list Node := map snd (descendantsFrom 1 n).

(** [element.getElementsByTagName(t)]. *)
Definition getElementsByTagName (t : string) (n : Node) : list Node :=
  filter (fun k => hasTag t k = true) (descendants n).

(** [xmlDoc.getElementsByTagName(t)]: the root element is a candidate. *)
Definition docElementsByTagName (t : string) (root : Node) : list Node :=
  filter (fun k => hasTag t k = true) (root :: descendants root).

(** [element.querySelector(t)] for a type selector: the first descendant
    with that tag, here with its depth. *)
Definition querySelectorAt (t : string) (n : Node) : option (nat * Node) :=
  head (filter (fun dk => hasTag t dk.2 = true) (descendantsFrom 1 n)).

Definition querySelector (t : string) (n : Node) : option Node :=
  snd <$> querySelectorAt t n.

(** [element.querySelector(":scope > t")]. *)
Definition queryChild (t : string) (n : Node) : option Node :=
  head (filter (fun k => hasTag t k = true) (kidsOf n)).

(** The XML text of a document with its parser and serializer
    ([DOMParser], [XMLSerializer]); parsing what was serialized gives the
    document back. *)
Class XmlCodec : Type := mkCodec {
  XmlText : Type;
  parseXml : XmlText -> Node;
  serializeXml : Node -> XmlText;
  emptyXml : XmlText;
  parse_serialize : forall d, parseXml (serializeXml d) = d
}.

(** ** Export: site-map captions ([exportSiteMap]) *)

(** [Array.from(container.children).map(label => ({code, translation}))],
    or [[]] without a container. *)
Definition captionEntries (attr : string) (container : option Node) : list LangTranslation :=
  match container with
  | Some c =>
      map (fun label => mkTrans (JStr (attrOrEmpty "LCID" label)) (attrOrEmpty attr label))
        (kidsOf c)
  | None => []
  end.

Definition captionProps (titles descriptions : option Node) : list LangProp :=
  [ mkLangProp "Title" (captionEntries "Title" titles);
    mkLangProp "Description" (captionEntries "Description" descriptions) ].

Record SiteMapRecord `{XmlCodec} : Type := mkSiteMap {
  sm_id : string;
  sm_name : string;
  sm_uniqueName : string;
  sm_sitemapXml : XmlText
}.

Record SiteNodes : Type := mkSiteNodes {
  siteAreas : list SecInfo;
  siteGroups : list SecInfo;
  siteSubAreas : list SecInfo
}.

Section SiteMapExport.
Context `{XmlCodec}.

Definition siteProps (sm : SiteMapRecord) : list (string * string) :=
  [("uniqueName", sm_uniqueName sm); ("siteName", sm_name sm); ("siteId", sm_id sm)].

Definition subAreaInfo (sm : SiteMapRecord) (groupId : string) (subarea : Node) : SecInfo :=
  let subareaTitles := querySelector "Titles" subarea in
  let subareaDescriptions := querySelector "Descriptions" subarea in
  mkSecInfo (attrOrEmpty "Id" subarea) (attrOrEmpty "title" subarea)
    (siteProps sm ++ [("groupId", groupId)])
    (captionProps subareaTitles subareaDescriptions).

(** [if (groupTitles?.parentElement != group) groupTitles = null]: the
    first Titles descendant is kept only when it is a child of the group. *)
Definition groupInfo (sm : SiteMapRecord) (group : Node) : SecInfo :=
  let groupTitles :=
    match querySelectorAt "Titles" group with
    | Some (1%nat, t) => Some t
    | _ => None
    end in
  let groupDescriptions := querySelector "Descriptions" group in
  mkSecInfo (attrOrEmpty "Id" group) (attrOrEmpty "title" group) (siteProps sm)
    (captionProps groupTitles groupDescriptions).

Definition areaInfo (sm : SiteMapRecord) (area : Node) : SecInfo :=
  let areaTitles := querySelector "Titles" area in
  let areaDescriptions := querySelector "Descriptions" area in
  mkSecInfo (attrOrEmpty "Id" area) (attrOrEmpty "title" area) (siteProps sm)
    (captionProps areaTitles areaDescriptions).

(** The nested [forEach] loops over one site map, pushing onto the three
    view-model lists. *)
Definition pushGroup (sm : SiteMapRecord) (vm : SiteNodes) (group : Node) : SiteNodes :=
  let vm1 := mkSiteNodes (siteAreas vm) (siteGroups vm ++ [groupInfo sm group]) (siteSubAreas vm) in
  fold_left (fun v subarea =>
      mkSiteNodes (siteAreas v) (siteGroups v)
        (siteSubAreas v ++ [subAreaInfo sm (attrOrEmpty "Id" group) subarea]))
    (getElementsByTagName "SubArea" group) vm1.

Definition pushArea (sm : SiteMapRecord) (vm : SiteNodes) (area : Node) : SiteNodes :=
  let vm1 := mkSiteNodes (siteAreas vm ++ [areaInfo sm area]) (siteGroups vm) (siteSubAreas vm) in
  fold_left (pushGroup sm) (getElementsByTagName "Group" area) vm1.

Definition exportSiteMap_nodes (siteMaps : list SiteMapRecord) (vm : SiteNodes) : SiteNodes :=
  fold_left (fun v sm =>
      fold_left (pushArea sm) (docElementsByTagName "Area" (parseXml (sm_sitemapXml sm))) v)
    siteMaps vm.
End SiteMapExport.

(** The codec in which the text of a document is its tree. *)
Global Instance treeCodec : XmlCodec :=
  mkCodec Node (fun d => d) (fun d => d) (Elem "" [] []) (fun d => eq_refl).

(** ** Import: reading a sheet *)

(** [getLanguageColumns(sheet, startCol)]: [Number(val)] of every non-null
    header cell from [startCol] to the last column. *)
Definition getLanguageColumns (sheet : Sheet) (startCol : nat) : list JsNum :=
  flat_map (fun col =>
      match getCell (headerRow sheet) col with
      | JNull => []
      | val => [toNumber val]
      end)
    (seq startCol (S (columnCount sheet) - startCol)).

(** [cell.value != null && String(cell.value).trim() !== ""]. *)
Definition nonBlank (v : JsVal) : bool :=
  match v with
  | JNull => false
  | _ => truthy (trim (toStr v))
  end.

(** [readLabels(row, startCol, lcids)]. *)
Fixpoint readLabelsFrom (row : Row) (col : nat) (lcids : list JsNum) (labels : Labels) : Labels :=
  match lcids with
  | [] => labels
  | lcid :: rest =>
      let cell := getCell row col in
      readLabelsFrom row (S col) rest
        (if nonBlank cell then setProp lcid (toStr cell) labels else labels)
  end.

Definition readLabels (row : Row) (startCol : nat) (lcids : list JsNum) : Labels :=
  readLabelsFrom row startCol lcids [].

(** [Object.keys(o).length > 0 ? o : null]. *)
Definition orNull (o : Labels) : option Labels :=
  match o with [] => None | _ => Some o end.

Fixpoint removeBraces (s : string) : string :=
  match s with
  | EmptyString => EmptyString
  | String c r =>
      if Ascii.eqb c "{"%char || Ascii.eqb c "}"%char then removeBraces r
      else String c (removeBraces r)
  end.

(** [stripBraces(String(v ?? ""))]. *)
Definition stripBraces (v : JsVal) : string := removeBraces (toStr v).

(** [String(v ?? "").trim()]. *)
Definition cellText (v : JsVal) : string := trim (toStr v).

(** The header scan of [importFormNames], [prepareFormContent] and
    [prepareSiteMapContent]: [!isNaN(num) && num > 1000] for
    [num = Number(String(cell ?? ""))]. *)
Definition isLanguageHeader (v : JsVal) : bool :=
  match strToNumber (toStr v) with
  | Some num => 1000 <? num
  | None => false
  end.

Definition detectLangStart (sheet : Sheet) (defaultCol : nat) : nat :=
  default defaultCol
    (List.find (fun col => isLanguageHeader (getCell (headerRow sheet) col))
       (seq 1 (columnCount sheet))).

Definition importFormNames_langStartCol (sheet : Sheet) : nat := detectLangStart sheet 4.
Definition prepareFormContent_langStartCol (sheet : Sheet) : nat := detectLangStart sheet 6.
Definition prepareSiteMapContent_langStartCol (sheet : Sheet) : nat := detectLangStart sheet 5.

(** ** Import: calls on the repository and the log *)

Inductive Severity : Type := info | success | warning | error.

Global Instance Severity_eq_dec : EqDecision Severity.
Proof. solve_decision. Defined.

Inductive ImportCall `{XmlCodec} : Type :=
| UpdateEntityMetadata (entityLogicalName : string)
    (displayName displayCollectionName description : option Labels)
| UpdateAttributeMetadata (entityLogicalName attributeLogicalName : string)
    (displayName description : option Labels)
| UpdateRelationshipLabel (schemaName : string) (labels : Labels) (relType : string)
| UpdateOptionValue (entityLogicalName attributeLogicalName optionSetName : option string)
    (value : JsNum) (labels : Labels) (isDescription : bool)
| SetLocLabels (entitySetName objectId attributeName : string) (labels : Labels)
| GetFormById (formId : string)
| UpdateForm (formId : string) (formxml : XmlText)
| GetSiteMapById (siteMapId : string)
| UpdateSiteMap (siteMapId : string) (sitemapXml : XmlText)
| PublishAllCustomizations.

(** ** Import: row grouping of the label sheets *)

Record EntityEntry : Type := mkEntityEntry {
  displayName : Labels;
  displayCollectionName : Labels;
  description : Labels
}.

(** The callback of [sheet.eachRow] in [importEntities]. *)
Definition importEntities_row (lcids : list JsNum) (entityMap : JsMap EntityEntry) (row : Row)
    : JsMap EntityEntry :=
  let entityLogicalName := cellText (getCell row 2) in
  let type := cellText (getCell row 3) in
  if negb (truthy entityLogicalName) || negb (truthy type) then entityMap
  else
    let entityMap1 :=
      if mapHas entityLogicalName entityMap then entityMap
      else mapSet entityLogicalName (mkEntityEntry [] [] []) entityMap in
    let entry := default (mkEntityEntry [] [] []) (mapGet entityLogicalName entityMap1) in
    let labels := readLabels row 4 lcids in
    let entry' :=
      if String.eqb type "DisplayName" then
        mkEntityEntry (spread (displayName entry) labels) (displayCollectionName entry)
          (description entry)
      else if String.eqb type "DisplayCollectionName" then
        mkEntityEntry (displayName entry) (spread (displayCollectionName entry) labels)
          (description entry)
      else if String.eqb type "Description" then
        mkEntityEntry (displayName entry) (displayCollectionName entry)
          (spread (description entry) labels)
      else entry in
    mapSet entityLogicalName entry' entityMap1.

Definition importEntities_group (sheet : Sheet) : JsMap EntityEntry :=
  fold_left (importEntities_row (getLanguageColumns sheet 4)) (dataRows sheet) [].

Record AttrEntry : Type := mkAttrEntry {
  ae_entityLogicalName : string;
  ae_attributeLogicalName : string;
  ae_displayName : Labels;
  ae_description : Labels
}.

Definition importAttributes_row (lcids : list JsNum) (attrMap : JsMap AttrEntry) (row : Row)
    : JsMap AttrEntry :=
  let entityLogicalName := cellText (getCell row 2) in
  let attributeLogicalName := cellText (getCell row 3) in
  let type := cellText (getCell row 4) in
  if negb (truthy entityLogicalName) || negb (truthy attributeLogicalName) || negb (truthy type)
  then attrMap
  else
    let key := entityLogicalName +:+ "|" +:+ attributeLogicalName in
    let fresh := mkAttrEntry entityLogicalName attributeLogicalName [] [] in
    let attrMap1 := if mapHas key attrMap then attrMap else mapSet key fresh attrMap in
    let entry := default fresh (mapGet key attrMap1) in
    let labels := readLabels row 5 lcids in
    let entry' :=
      if String.eqb type "DisplayName" then
        mkAttrEntry (ae_entityLogicalName entry) (ae_attributeLogicalName entry)
          (spread (ae_displayName entry) labels) (ae_description entry)
      else if String.eqb type "Description" then
        mkAttrEntry (ae_entityLogicalName entry) (ae_attributeLogicalName entry)
          (ae_displayName entry) (spread (ae_description entry) labels)
      else entry in
    mapSet key entry' attrMap1.

Definition importAttributes_group (sheet : Sheet) : JsMap AttrEntry :=
  fold_left (importAttributes_row (getLanguageColumns sheet 5)) (dataRows sheet) [].

(** A unit of work of a dispatch loop: the call, and the name shown in the
    failure message. *)
Abbreviation Unit := (ImportCall * string)%type.

Section LabelSheets.
Context `{XmlCodec}.

Definition importEntities_units (sheet : Sheet) : list Unit :=
  map (fun kv =>
      (UpdateEntityMetadata kv.1 (orNull (displayName kv.2))
         (orNull (displayCollectionName kv.2)) (orNull (description kv.2)),
       "entity " +:+ kv.1))
    (importEntities_group sheet).

Definition importAttributes_units (sheet : Sheet) : list Unit :=
  map (fun kv =>
      (UpdateAttributeMetadata (ae_entityLogicalName kv.2) (ae_attributeLogicalName kv.2)
         (orNull (ae_displayName kv.2)) (orNull (ae_description kv.2)),
       "attribute " +:+ ae_attributeLogicalName kv.2 +:+ " on " +:+ ae_entityLogicalName kv.2))
    (importAttributes_group sheet).

(** [importRelationships]: both relation kinds read the name in column 3. *)
Definition importRelationships_units (sheet : Sheet) (manyToMany : bool) : list Unit :=
  let startCol := if manyToMany then 4%nat else 5%nat in
  let lcids := getLanguageColumns sheet startCol in
  let relType := if manyToMany then "ManyToManyRelationship" else "OneToManyRelationship" in
  flat_map (fun row =>
      let schemaName := cellText (getCell row 3) in
      let labels := readLabels row startCol lcids in
      if truthy schemaName && negb (bool_decide (labels = []))
      then [(UpdateRelationshipLabel schemaName labels relType, "relationship " +:+ schemaName)]
      else [])
    (dataRows sheet).

(** [String(v ?? "Label").trim()]. *)
Definition typeOrLabel (v : JsVal) : string :=
  match v with JNull => "Label" | _ => cellText v end.

Definition importGlobalOptionSets_units (sheet : Sheet) : list Unit :=
  let lcids := getLanguageColumns sheet 5 in
  flat_map (fun row =>
      let optionSetName := cellText (getCell row 2) in
      let value := toNumber (getCell row 3) in
      let type := typeOrLabel (getCell row 4) in
      let labels := readLabels row 5 lcids in
      if truthy optionSetName && negb (bool_decide (labels = []))
      then [(UpdateOptionValue None None (Some optionSetName) value labels
               (String.eqb type "Description"),
             "global optionset " +:+ optionSetName +:+ " value " +:+ numToString value)]
      else [])
    (dataRows sheet).

Definition importLocalOptionSets_units (sheet : Sheet) : list Unit :=
  let lcids := getLanguageColumns sheet 7 in
  flat_map (fun row =>
      let entityLogicalName := cellText (getCell row 2) in
      let attributeLogicalName := cellText (getCell row 3) in
      let value := toNumber (getCell row 5) in
      let type := typeOrLabel (getCell row 6) in
      let labels := readLabels row 7 lcids in
      if truthy entityLogicalName && truthy attributeLogicalName
         && negb (bool_decide (labels = []))
      then [(UpdateOptionValue (Some entityLogicalName) (Some attributeLogicalName) None value
               labels (String.eqb type "Description"),
             "optionset " +:+ attributeLogicalName +:+ " value " +:+ numToString value)]
      else [])
    (dataRows sheet).

(** [importViews] (type in column 4, labels from 5) and [importCharts]
    (type in column 3, labels from 4). *)
Definition importLocLabels_units (entitySet what : string) (typeCol startCol : nat)
    (sheet : Sheet) : list Unit :=
  let lcids := getLanguageColumns sheet startCol in
  flat_map (fun row =>
      let objectId := stripBraces (getCell row 1) in
      let type := cellText (getCell row typeCol) in
      let labels := readLabels row startCol lcids in
      if truthy objectId && negb (bool_decide (labels = []))
      then [(SetLocLabels entitySet objectId
               (if String.eqb type "Description" then "description" else "name") labels,
             what +:+ " " +:+ objectId)]
      else [])
    (dataRows sheet).

Definition importViews_units : Sheet -> list Unit :=
  importLocLabels_units "savedqueries" "view" 4 5.

Definition importCharts_units : Sheet -> list Unit :=
  importLocLabels_units "savedqueryvisualizations" "chart" 3 4.

Definition importFormNames_units (sheet : Sheet) : list Unit :=
  let langStartCol := importFormNames_langStartCol sheet in
  let lcids := getLanguageColumns sheet langStartCol in
  flat_map (fun row =>
      let formId := stripBraces (getCell row 2) in
      let type := cellText (getCell row (langStartCol - 1)) in
      let labels := readLabels row langStartCol lcids in
      if truthy formId && negb (bool_decide (labels = []))
      then [(SetLocLabels "systemforms" formId
               (if String.eqb type "description" || String.eqb type "Description"
                then "description" else "name") labels,
             "form name " +:+ formId)]
      else [])
    (dataRows sheet).
End LabelSheets.

(** ** Import: patching a layout document *)

(** The first element in document order that satisfies [p] is replaced by
    its image under [f]; [None] when no element satisfies [p].  This is the
    scan of [getElementsByTagName] followed by the mutation of the element
    found. *)
Fixpoint updateFirst (p : Node -> bool) (f : Node -> Node) (n : Node) : option Node :=
  if p n then Some (f n)
  else match n with
       | Elem t a ks =>
           Elem t a <$>
             (fix go (l : list Node) : option (list Node) :=
                match l with
                | [] => None
                | k :: r =>
                    match updateFirst p f k with
                    | Some k' => Some (k' :: r)
                    | None => cons k <$> go r
                    end
                end) ks
       end.

(** The same scan over the descendants of an element, given its children. *)
Fixpoint updateFirstIn (p : Node -> bool) (f : Node -> Node) (l : list Node)
    : option (list Node) :=
  match l with
  | [] => None
  | k :: r =>
      match updateFirst p f k with
      | Some k' => Some (k' :: r)
      | None => cons k <$> updateFirstIn p f r
      end
  end.

(** The scan over the children only ([:scope > t]). *)
Fixpoint updateFirstChild (p : Node -> bool) (f : Node -> Node) (l : list Node)
    : option (list Node) :=
  match l with
  | [] => None
  | k :: r => if p k then Some (f k :: r) else cons k <$> updateFirstChild p f r
  end.

(** [while (c.firstChild) c.removeChild(c.firstChild)] and the
    [appendChild] loop. *)
Definition replaceKids (newKids : list Node) (c : Node) : Node :=
  Elem (tagOf c) (attrsOf c) newKids.

Definition formLabelElements (labels : Labels) : list Node :=
  map (fun e => Elem "label" [("description", e.2); ("languagecode", numToString e.1)] [])
    (entries labels).

(** [prepareFormContent], from [element.querySelector("labels")] to the
    last [appendChild]: the first [labels] descendant is refilled, or a new
    [labels] element is inserted before the first child. *)
Definition setFormCaption (labels : Labels) (element : Node) : Node :=
  match updateFirstIn (hasTag "labels") (replaceKids (formLabelElements labels))
          (kidsOf element) with
  | Some ks => Elem (tagOf element) (attrsOf element) ks
  | None =>
      Elem (tagOf element) (attrsOf element)
        (Elem "labels" [] (formLabelElements labels) :: kidsOf element)
  end.

Definition contentTag (contentType : string) : string :=
  if String.eqb contentType "tab" then "tab"
  else if String.eqb contentType "section" then "section"
  else "cell".

(** [getAttribute("id") === elementId || getAttribute("name") === elementId]. *)
Definition isFormElement (tagName elementId : string) (n : Node) : bool :=
  hasTag tagName n
  && (bool_decide (getAttribute "id" n = Some elementId)
      || bool_decide (getAttribute "name" n = Some elementId)).

Definition patchForm (contentType elementId : string) (labels : Labels) (xmlDoc : Node)
    : option Node :=
  updateFirst (isFormElement (contentTag contentType) elementId) (setFormCaption labels) xmlDoc.

Definition siteMapContainerName (type : string) : string :=
  if String.eqb type "Description" then "Descriptions" else "Titles".

Definition siteMapLabelElements (type : string) (labels : Labels) : list Node :=
  let containerName := siteMapContainerName type in
  let labelAttr := if String.eqb type "Description" then "Description" else "Title" in
  map (fun e =>
      Elem (if String.eqb containerName "Titles" then "Title" else "Description")
        [("LCID", numToString e.1); (labelAttr, e.2)] [])
    (entries labels).

(** [prepareSiteMapContent], from [querySelector(":scope > container")] to
    the last [appendChild]: the first child with the container's tag is
    refilled, or a new container is appended to the element. *)
Definition setSiteMapCaption (type : string) (labels : Labels) (targetElement : Node) : Node :=
  let containerName := siteMapContainerName type in
  let els := siteMapLabelElements type labels in
  match updateFirstChild (hasTag containerName) (replaceKids els) (kidsOf targetElement) with
  | Some ks => Elem (tagOf targetElement) (attrsOf targetElement) ks
  | None =>
      Elem (tagOf targetElement) (attrsOf targetElement)
        (kidsOf targetElement ++ [Elem containerName [] els])
  end.

Definition isSiteMapElement (elementType elementId : string) (n : Node) : bool :=
  hasTag elementType n && bool_decide (getAttribute "Id" n = Some elementId).

Definition patchSiteMap (elementType elementId type : string) (labels : Labels) (xmlDoc : Node)
    : option Node :=
  updateFirst (isSiteMapElement elementType elementId) (setSiteMapCaption type labels) xmlDoc.

(** The caption that the export reads back for a form element: the
    children of the first [labels] descendant of the first element with the
    tag and the id (or name). *)
Fixpoint findFirst (p : Node -> bool) (n : Node) : option Node :=
  if p n then Some n
  else match n with
       | Elem _ _ ks =>
           (fix go (l : list Node) : option Node :=
              match l with
              | [] => None
              | k :: r =>
                  match findFirst p k with
                  | Some x => Some x
                  | None => go r
                  end
              end) ks
       end.

Fixpoint findFirstIn (p : Node -> bool) (l : list Node) : option Node :=
  match l with
  | [] => None
  | k :: r =>
      match findFirst p k with
      | Some x => Some x
      | None => findFirstIn p r
      end
  end.

Definition captionOf (element : Node) : option (list Node) :=
  kidsOf <$> findFirstIn (hasTag "labels") (kidsOf element).

Definition formCaption (contentType elementId : string) (xmlDoc : Node) : option (list Node) :=
  findFirst (isFormElement (contentTag contentType) elementId) xmlDoc ≫= captionOf.

(** ** Import: the run ([importTranslations]) *)

Section ImportRun.
Context `{XmlCodec}.

(** The repository as seen by the import: which calls reject, and the
    layout text of the records it holds ([None]: the attribute is
    absent, read as the empty text). *)
Record ImportRepo : Type := mkImportRepo {
  rejects : ImportCall -> bool;
  formxml : string -> option XmlText;
  sitemapxml : string -> option XmlText
}.

(** A callback of [sheet.eachRow(async ...)] suspended at
    [await this.dvSvc.getSiteMapById(siteMapId)]. *)
Record PendingRow : Type := mkPending {
  p_elementType : string;
  p_siteMapId : string;
  p_elementId : string;
  p_type : string;
  p_labels : Labels
}.

Inductive CacheSel : Type := FormCache | DashboardCache.

(** The trace of repository calls, the log of the import service, the
    three layout-document caches and the suspended callbacks. *)
Record IWorld : Type := mkIWorld {
  calls : list ImportCall;
  log : list (Severity * string);
  formUpdates : JsMap XmlText;
  dashboardUpdates : JsMap XmlText;
  siteMapUpdates : JsMap XmlText;
  pending : list PendingRow
}.

Definition initialWorld : IWorld := mkIWorld [] [] [] [] [] [].

Definition addCall (c : ImportCall) (w : IWorld) : IWorld :=
  mkIWorld (calls w ++ [c]) (log w) (formUpdates w) (dashboardUpdates w) (siteMapUpdates w)
    (pending w).

Definition onLog (msg : string) (sev : Severity) (w : IWorld) : IWorld :=
  mkIWorld (calls w) (log w ++ [(sev, msg)]) (formUpdates w) (dashboardUpdates w)
    (siteMapUpdates w) (pending w).

Definition setSiteMaps (m : JsMap XmlText) (w : IWorld) : IWorld :=
  mkIWorld (calls w) (log w) (formUpdates w) (dashboardUpdates w) m (pending w).

Definition setPending (l : list PendingRow) (w : IWorld) : IWorld :=
  mkIWorld (calls w) (log w) (formUpdates w) (dashboardUpdates w) (siteMapUpdates w) l.

Definition getCache (c : CacheSel) (w : IWorld) : JsMap XmlText :=
  match c with FormCache => formUpdates w | DashboardCache => dashboardUpdates w end.

Definition setCache (c : CacheSel) (m : JsMap XmlText) (w : IWorld) : IWorld :=
  match c with
  | FormCache => mkIWorld (calls w) (log w) m (dashboardUpdates w) (siteMapUpdates w) (pending w)
  | DashboardCache => mkIWorld (calls w) (log w) (formUpdates w) m (siteMapUpdates w) (pending w)
  end.

Variable repo : ImportRepo.

(** [prepareSiteMapContent] from [siteMapUpdates.get(siteMapId)] on. *)
Definition patchSiteMapRow (p : PendingRow) (w : IWorld) : IWorld :=
  let smData := default emptyXml (mapGet (p_siteMapId p) (siteMapUpdates w)) in
  let xmlDoc := parseXml smData in
  match patchSiteMap (p_elementType p) (p_elementId p) (p_type p) (p_labels p) xmlDoc with
  | None =>
      onLog ("Could not find " +:+ p_elementType p +:+ " with Id " +:+ p_elementId p
             +:+ " in sitemap " +:+ p_siteMapId p) warning w
  | Some doc' =>
      setSiteMaps (mapSet (p_siteMapId p) (serializeXml doc') (siteMapUpdates w)) w
  end.

(** A suspended callback resumes when its fetch settles: the entry is set
    from the fetched record whatever the cache holds by then. *)
Definition resumeRow (w : IWorld) (p : PendingRow) : IWorld :=
  if rejects repo (GetSiteMapById (p_siteMapId p)) then
    onLog ("Could not retrieve sitemap " +:+ p_siteMapId p) error w
  else
    patchSiteMapRow p
      (setSiteMaps (mapSet (p_siteMapId p) (default emptyXml (sitemapxml repo (p_siteMapId p)))
                      (siteMapUpdates w)) w).

(** An awaited repository call of the main task.  Responses come back in
    request order, so the fetches of the suspended callbacks settle, and
    the callbacks run, before the main task resumes. *)
Definition netCall (c : ImportCall) (w : IWorld) : IWorld :=
  let w1 := addCall c w in
  fold_left resumeRow (pending w1) (setPending [] w1).

(** The dispatch loop shared by the label importers and by
    [applyFormContentUpdates]. *)
Definition progressLine (what : string) (processed total : nat) : string :=
  what +:+ ": " +:+ pretty processed +:+ "/" +:+ pretty total +:+ " updated".

Fixpoint dispatchUnits (what : string) (batchCount total : nat) (units : list Unit)
    (processed : nat) (w : IWorld) : nat * IWorld :=
  match units with
  | [] => (processed, w)
  | (c, name) :: rest =>
      let w1 := netCall c w in
      if rejects repo c then
        dispatchUnits what batchCount total rest processed
          (onLog ("Failed to update " +:+ name) error w1)
      else
        let processed' := S processed in
        let w2 :=
          if negb (batchCount =? 0)%nat && (processed' mod batchCount =? 0)%nat
          then onLog (progressLine what processed' total) info w1 else w1 in
        dispatchUnits what batchCount total rest processed' w2
  end.

Definition runUnits (what : string) (batchCount : nat) (units : list Unit) (w : IWorld)
    : IWorld :=
  let r := dispatchUnits what batchCount (length units) units 0 w in
  onLog (progressLine what r.1 (length units)) success r.2.

Definition importEntities (sheet : Sheet) (batchCount : nat) : IWorld -> IWorld :=
  runUnits "Entities" batchCount (importEntities_units sheet).

(** The loop [for (let i = 2; i <= sheet.rowCount; i++)] of
    [prepareFormContent]; every [return] of its body leaves the function. *)
Fixpoint prepareFormContent_loop (cache : CacheSel) (contentType : string)
    (langStartCol : nat) (lcids : list JsNum) (rows : list Row) (w : IWorld) : IWorld :=
  match rows with
  | [] => w
  | row :: rest =>
      let elementId := cellText (getCell row 1) in
      let formId := stripBraces (getCell row 5) in
      if negb (truthy formId) || negb (truthy elementId) then w
      else
        let labels := readLabels row langStartCol lcids in
        if bool_decide (labels = []) then w
        else
          let cached := mapHas formId (getCache cache w) in
          let w1 := if cached then w else netCall (GetFormById formId) w in
          if negb cached && rejects repo (GetFormById formId) then
            onLog ("Could not retrieve form " +:+ formId) error w1
          else
            let w2 :=
              if cached then w1
              else setCache cache
                     (mapSet formId (default emptyXml (formxml repo formId)) (getCache cache w1))
                     w1 in
            let formData := default emptyXml (mapGet formId (getCache cache w2)) in
            let xmlDoc := parseXml formData in
            match patchForm contentType elementId labels xmlDoc with
            | None =>
                onLog ("Could not find " +:+ contentType +:+ " with id " +:+ elementId
                       +:+ " in form " +:+ formId) warning w2
            | Some doc' =>
                prepareFormContent_loop cache contentType langStartCol lcids rest
                  (setCache cache (mapSet formId (serializeXml doc') (getCache cache w2)) w2)
            end
  end.

Definition prepareFormContent (sheet : Sheet) (cache : CacheSel) (contentType : string)
    (w : IWorld) : IWorld :=
  let langStartCol := prepareFormContent_langStartCol sheet in
  prepareFormContent_loop cache contentType langStartCol
    (getLanguageColumns sheet langStartCol) (dataRows sheet) w.

(** One callback of [sheet.eachRow(async (row, rowNumber) => ...)] in
    [prepareSiteMapContent], run up to its first [await]: a row whose site
    map is not cached issues the fetch and is suspended, a row whose site
    map is cached is patched at once. *)
Definition prepareSiteMapContent_row (elementType : string) (langStartCol : nat)
    (lcids : list JsNum) (w : IWorld) (row : Row) : IWorld :=
  let elementIdCol :=
    if String.eqb elementType "Area" then 3%nat
    else if String.eqb elementType "Group" then 4%nat else 5%nat in
  let typeCol := S elementIdCol in
  let siteMapId := cellText (getCell row 2) in
  let elementId := cellText (getCell row elementIdCol) in
  let type := cellText (getCell row typeCol) in
  if negb (truthy siteMapId) || negb (truthy elementId) then w
  else
    let labels := readLabels row langStartCol lcids in
    if bool_decide (labels = []) then w
    else
      let p := mkPending elementType siteMapId elementId type labels in
      if negb (mapHas siteMapId (siteMapUpdates w)) then
        setPending (pending w ++ [p]) (addCall (GetSiteMapById siteMapId) w)
      else patchSiteMapRow p w.

(** [eachRow] does not wait for the promises of its callbacks. *)
Definition prepareSiteMapContent (sheet : Sheet) (elementType : string) (w : IWorld)
    : IWorld :=
  let langStartCol := prepareSiteMapContent_langStartCol sheet in
  fold_left (prepareSiteMapContent_row elementType langStartCol
               (getLanguageColumns sheet langStartCol))
    (dataRows sheet) w.

Definition applyFormContentUpdates (cache : CacheSel) (batchCount : nat) (w : IWorld)
    : IWorld :=
  runUnits "Forms content" batchCount
    (map (fun kv => (UpdateForm kv.1 kv.2, "form " +:+ kv.1)) (getCache cache w)) w.

(** [for (const [, data] of siteMapUpdates)]: the iteration is live, an
    entry is read when it is reached.  [fuel] bounds the number of
    entries visited. *)
Fixpoint applySiteMapUpdates_from (fuel i processed : nat) (w : IWorld) : nat * IWorld :=
  match fuel with
  | O => (processed, w)
  | S fuel' =>
      match siteMapUpdates w !! i with
      | None => (processed, w)
      | Some (siteMapId, xml) =>
          let w1 := netCall (UpdateSiteMap siteMapId xml) w in
          if rejects repo (UpdateSiteMap siteMapId xml) then
            applySiteMapUpdates_from fuel' (S i) processed
              (onLog ("Failed to update sitemap " +:+ siteMapId) error w1)
          else applySiteMapUpdates_from fuel' (S i) (S processed) w1
      end
  end.

Definition applySiteMapUpdates (w : IWorld) : IWorld :=
  let total := length (siteMapUpdates w) in
  let r := applySiteMapUpdates_from (total + length (pending w)) 0 0 w in
  onLog (progressLine "SiteMaps" r.1 total) success r.2.

(** The [switch (sheet.name)] of [importTranslations]. *)
Definition importSheet (sheet : Sheet) (batchCount : nat) (w : IWorld) : IWorld :=
  let name := sheetName sheet in
  let named := String.eqb name in
  if named "Entities" then
    importEntities sheet batchCount (onLog "Importing entity translations..." info w)
  else if named "Attributes" then
    runUnits "Attributes" batchCount (importAttributes_units sheet)
      (onLog "Importing attribute translations..." info w)
  else if named "Relationships" then
    runUnits "Relationships" batchCount (importRelationships_units sheet false)
      (onLog "Importing relationship translations..." info w)
  else if named "RelationshipsNN" then
    runUnits "Relationships" batchCount (importRelationships_units sheet true)
      (onLog "Importing NN relationship translations..." info w)
  else if named "Global OptionSets" then
    runUnits "Global OptionSets" batchCount (importGlobalOptionSets_units sheet)
      (onLog "Importing global option set translations..." info w)
  else if named "Local OptionSets" || named "OptionSets" then
    runUnits "OptionSets" batchCount (importLocalOptionSets_units sheet)
      (onLog "Importing option set translations..." info w)
  else if named "Booleans" then
    runUnits "OptionSets" batchCount (importLocalOptionSets_units sheet)
      (onLog "Importing boolean translations..." info w)
  else if named "Views" then
    runUnits "Views" batchCount (importViews_units sheet)
      (onLog "Importing view translations..." info w)
  else if named "Charts" then
    runUnits "Charts" batchCount (importCharts_units sheet)
      (onLog "Importing chart translations..." info w)
  else if named "Forms" then
    runUnits "Form names" batchCount (importFormNames_units sheet)
      (onLog "Importing form name translations..." info w)
  else if named "Forms Tabs" then
    prepareFormContent sheet FormCache "tab"
      (onLog "Preparing form tab translations..." info w)
  else if named "Forms Sections" then
    prepareFormContent sheet FormCache "section"
      (onLog "Preparing form section translations..." info w)
  else if named "Forms Fields" then
    prepareFormContent sheet FormCache "field"
      (onLog "Preparing form field translations..." info w)
  else if named "Dashboards" then
    runUnits "Form names" batchCount (importFormNames_units sheet)
      (onLog "Importing dashboard translations..." info w)
  else if named "Dashboards Tabs" then
    prepareFormContent sheet DashboardCache "tab"
      (onLog "Preparing dashboard tab translations..." info w)
  else if named "Dashboards Sections" then
    prepareFormContent sheet DashboardCache "section"
      (onLog "Preparing dashboard section translations..." info w)
  else if named "Dashboards Fields" then
    prepareFormContent sheet DashboardCache "field"
      (onLog "Preparing dashboard field translations..." info w)
  else if named "SiteMap Areas" then
    prepareSiteMapContent sheet "Area" (onLog "Preparing sitemap area translations..." info w)
  else if named "SiteMap Groups" then
    prepareSiteMapContent sheet "Group" (onLog "Preparing sitemap group translations..." info w)
  else if named "SiteMap SubAreas" then
    prepareSiteMapContent sheet "SubArea"
      (onLog "Preparing sitemap subarea translations..." info w)
  else onLog ("Skipping unknown sheet: " +:+ name) warning w.

(** After the loop over the sheets: the three flushes, each behind its
    [size > 0] test, then the publish. *)
Definition flushAndPublish (batchCount : nat) (w : IWorld) : IWorld :=
  let w1 :=
    if (0 <? length (formUpdates w))%nat then
      applyFormContentUpdates FormCache batchCount
        (onLog ("Updating " +:+ pretty (length (formUpdates w))
                +:+ " forms with content changes...") info w)
    else w in
  let w2 :=
    if (0 <? length (dashboardUpdates w1))%nat then
      applyFormContentUpdates DashboardCache batchCount
        (onLog ("Updating " +:+ pretty (length (dashboardUpdates w1))
                +:+ " dashboards with content changes...") info w1)
    else w1 in
  let w3 :=
    if (0 <? length (siteMapUpdates w2))%nat then
      applySiteMapUpdates
        (onLog ("Updating " +:+ pretty (length (siteMapUpdates w2)) +:+ " sitemaps...") info w2)
    else w2 in
  let w4 := netCall PublishAllCustomizations (onLog "Publishing customizations..." info w3) in
  if rejects repo PublishAllCustomizations then onLog "Import failed" error w4
  else onLog "Import completed successfully!" success w4.

Definition importTranslations (worksheets : list Sheet) (batchCount : nat) : IWorld :=
  flushAndPublish batchCount
    (fold_left (fun w sheet => importSheet sheet batchCount w) worksheets
       (onLog "Starting import..." info initialWorld)).
End ImportRun.

(** ** Scenarios and derived notions used in the statements *)

(** The number a header cell parses to, as the scan computes it. *)
Definition headerNumber (sheet : Sheet) (col : nat) : JsNum :=
  strToNumber (toStr (getCell (headerRow sheet) col)).

(** The header [.., 5, 1033] of the specification. *)
Definition sheet_5_1033 : Sheet :=
  mkSheet "Forms"
    [[JStr "Form Unique Id"; JStr "Form Id"; JStr "Type"; JNum 5; JNum 1033]].

(** Selected language French, base language English: the output languages
    of a single-language export. *)
Definition lang_en : LanguageDef := mkLang 1033 "English (United States)".
Definition lang_fr : LanguageDef := mkLang 1036 "French (France)".

(** A table whose display name the repository returns in both languages,
    English first. *)
Definition account_table : Table :=
  mkTable "account" "11111111-2222-3333-4444-555555555555"
    [mkLangProp "DisplayName" [mkTrans (JNum 1033) "Account"; mkTrans (JNum 1036) "Compte"]] [].

(** A table that has a French display name only. *)
Definition compte_table : Table :=
  mkTable "compte" "66666666-2222-3333-4444-555555555555"
    [mkLangProp "DisplayName" [mkTrans (JNum 1036) "Compte"]] [].

(** A sweep over English then French in which the fetch of the forms in
    French rejects; the operator works in English. *)
Definition sweep_repo : Repository :=
  mkRepository false (fun _ => false) (fun _ lang => lang =? 1036) (fun _ => false).

Definition sweep_options : Options := mkOptions false true true true true both true.

Definition sweep_world : World := mkWorld (JNum 1033) "user-1" [] (JStr "") "".

(** A site map whose area has no caption container of its own, whose group
    has titles only, and whose sub-area has titles and descriptions. *)
Definition nested_sitemap : Node :=
  Elem "SiteMap" []
    [Elem "Area" [("Id", "area1")]
       [Elem "Group" [("Id", "group1")]
          [Elem "Titles" [] [Elem "Title" [("LCID", "1033"); ("Title", "Group one")] []];
           Elem "SubArea" [("Id", "sub1")]
             [Elem "Titles" [] [Elem "Title" [("LCID", "1033"); ("Title", "Sub one")] []];
              Elem "Descriptions" []
                [Elem "Description" [("LCID", "1033"); ("Description", "About sub one")] []]]]]].

Definition nested_sitemap_record : SiteMapRecord :=
  mkSiteMap treeCodec "sm1" "Sales Hub" "saleshub" nested_sitemap.

(** A workbook with the single sheet "SiteMap Areas", one data row for the
    area of [nested_sitemap]; the repository holds that site map. *)
Definition areas_sheet : Sheet :=
  mkSheet "SiteMap Areas"
    [[JStr "SiteMap Name"; JStr "SiteMap Id"; JStr "Area Id"; JStr "Type"; JNum 1033];
     [JStr "Sales Hub"; JStr "sm1"; JStr "area1"; JStr "Title"; JStr "Sales"]].

Definition sitemap_repo : ImportRepo :=
  mkImportRepo (fun _ => false) (fun _ => None)
    (fun id => if String.eqb id "sm1" then Some nested_sitemap else None).

(** A repository that accepts every call and holds no layout document. *)
Definition accepting_repo : ImportRepo :=
  mkImportRepo (fun _ => false) (fun _ => None) (fun _ => None).

(** An Entities sheet whose first data row has no entity logical name. *)
Definition entities_sheet_gap : Sheet :=
  mkSheet "Entities"
    [[JStr "Entity Id"; JStr "Entity Logical Name"; JStr "Type"; JNum 1033];
     [JStr "{a1}"; JNull; JStr "DisplayName"; JStr "Account"];
     [JStr "{c1}"; JStr "contact"; JStr "DisplayName"; JStr "Contact"]].

(** A "Forms Tabs" sheet whose first data row has no form id; the second
    row names a tab of the form held by the repository. *)
Definition simple_form : Node :=
  Elem "form" []
    [Elem "tabs" []
       [Elem "tab" [("id", "tab1")]
          [Elem "labels" [] [Elem "label" [("description", "General"); ("languagecode", "1033")] []];
           Elem "columns" []
             [Elem "section" [("id", "sec1")]
                [Elem "labels" []
                   [Elem "label" [("description", "Details"); ("languagecode", "1033")] []]]]]]].

Definition forms_repo : ImportRepo :=
  mkImportRepo (fun _ => false)
    (fun id => if String.eqb id "form1" then Some simple_form else None) (fun _ => None).

Definition tabs_sheet_gap : Sheet :=
  mkSheet "Forms Tabs"
    [[JStr "Tab Id"; JStr "Entity Logical Name"; JStr "Form Name"; JStr "Form Unique Id";
      JStr "Form Id"; JNum 1033];
     [JStr "tab0"; JStr "account"; JStr "Main"; JStr "{u1}"; JNull; JStr "Lost"];
     [JStr "tab1"; JStr "account"; JStr "Main"; JStr "{u1}"; JStr "{form1}"; JStr "Overview"]].

(** The entries of a log with severity [warning]. *)
Definition warnings (l : list (Severity * string)) : list (Severity * string) :=
  filter (fun e => e.1 = warning) l.

(** The identity test of [importEntities]: both the logical name and the
    type are non-empty after trimming. *)
Definition hasEntityIdentity (row : Row) : bool :=
  truthy (cellText (getCell row 2)) && truthy (cellText (getCell row 3)).

(** The label dictionaries carried by a repository call. *)
Definition callLabels `{XmlCodec} (c : ImportCall) : list Labels :=
  match c with
  | UpdateEntityMetadata _ dn dcn d => omap (fun o => o) [dn; dcn; d]
  | UpdateAttributeMetadata _ _ dn d => omap (fun o => o) [dn; d]
  | UpdateRelationshipLabel _ l _ => [l]
  | UpdateOptionValue _ _ _ _ l _ => [l]
  | SetLocLabels _ _ _ l => [l]
  | _ => []
  end.

(** A call none of whose dictionaries holds a label. *)
Definition emptyUpdate `{XmlCodec} (c : ImportCall) : bool :=
  forallb (fun l => bool_decide (l = [])) (callLabels c).

(** The calls of the first world are still in the trace of the second. *)
Definition callsKept `{XmlCodec} (w w' : IWorld) : Prop :=
  forall c, c ∈ calls w -> c ∈ calls w'.

(** The entry of a key holds a display-name label. *)
Definition hasDisplayName (k : string) (m : JsMap EntityEntry) : Prop :=
  exists e, mapGet k m = Some e /\ displayName e <> [].

(** Form XML as the repository serves it: every tab and every section
    starts with its own [labels] element, and a [labels] element holds
    [label] elements without children. *)
Definition isLabelLeaf (n : Node) : bool :=
  hasTag "label" n && match kidsOf n with [] => true | _ => false end.

Definition startsWithLabels (ks : list Node) : bool :=
  match ks with
  | k :: _ => hasTag "labels" k
  | [] => false
  end.

Definition isCaptioned (t : string) : bool := String.eqb t "tab" || String.eqb t "section".

Fixpoint ownCaptions (n : Node) : bool :=
  match n with
  | Elem t a ks =>
      (if isCaptioned t then startsWithLabels ks else true)
      && (if String.eqb t "labels" then forallb isLabelLeaf ks else true)
      && (fix all (l : list Node) : bool :=
            match l with
            | [] => true
            | k :: r => ownCaptions k && all r
            end) ks
  end.

(** A form whose tab and section have own captions, and the two sheets
    that patch the tab caption and then the section caption. *)
Definition form_tabs_sheet : Sheet :=
  mkSheet "Forms Tabs"
    [[JStr "Tab Id"; JStr "Entity Logical Name"; JStr "Form Name"; JStr "Form Unique Id";
      JStr "Form Id"; JNum 1033; JNum 1031];
     [JStr "tab1"; JStr "account"; JStr "Main"; JStr "{u1}"; JStr "{form1}";
      JStr "Overview"; JStr "Uebersicht"]].

Definition form_sections_sheet : Sheet :=
  mkSheet "Forms Sections"
    [[JStr "Section Id"; JStr "Entity Logical Name"; JStr "Form Name"; JStr "Form Unique Id";
      JStr "Form Id"; JStr "Tab Name"; JNum 1033];
     [JStr "sec1"; JStr "account"; JStr "Main"; JStr "{u1}"; JStr "{form1}"; JStr "tab";
      JStr "Particulars"]].

(** A form whose tab has no [labels] element of its own: the first
    [labels] descendant of the tab is the one of its section. *)
Definition bare_tab_form : Node :=
  Elem "form" []
    [Elem "tabs" []
       [Elem "tab" [("id", "tab1")]
          [Elem "columns" []
             [Elem "section" [("id", "sec1")]
                [Elem "labels" []
                   [Elem "label" [("description", "Details"); ("languagecode", "1033")] []]]]]]].

Definition bare_tab_repo : ImportRepo :=
  mkImportRepo (fun _ => false)
    (fun id => if String.eqb id "form1" then Some bare_tab_form else None) (fun _ => None).

(** A "SiteMap Areas" sheet with a title row and a description row for the
    same area, followed by an Entities sheet with one entity. *)
Definition areas_sheet_two_rows : Sheet :=
  mkSheet "SiteMap Areas"
    [[JStr "SiteMap Name"; JStr "SiteMap Id"; JStr "Area Id"; JStr "Type"; JNum 1033];
     [JStr "Sales Hub"; JStr "sm1"; JStr "area1"; JStr "Title"; JStr "Sales"];
     [JStr "Sales Hub"; JStr "sm1"; JStr "area1"; JStr "Description"; JStr "All about sales"]].

Definition entities_sheet_one : Sheet :=
  mkSheet "Entities"
    [[JStr "Entity Id"; JStr "Entity Logical Name"; JStr "Type"; JNum 1033];
     [JStr "{c1}"; JStr "contact"; JStr "DisplayName"; JStr "Contact"]].

(** A computation that leaves the view-model fields of the sweep alone. *)
Definition keepsVm {A} (m : M A) : Prop :=
  forall w r w', m w = (r, w') ->
    vm_uiLocale w' = vm_uiLocale w /\ vm_userId w' = vm_userId w.

(** [o[k]] for a dictionary keyed by numbers; [None] is [undefined]. *)
Definition getProp (k : JsNum) (o : Labels) : option string :=
  snd <$> List.find (fun e => key_eqb k e.1) o.

(** The text of the last non-blank cell, among the columns from [col] on
    whose language code is [k]. *)
Fixpoint lastLabelCell (row : Row) (col : nat) (lcids : list JsNum) (k : JsNum)
    : option string :=
  match lcids with
  | [] => None
  | lcid :: rest =>
      match lastLabelCell row (S col) rest k with
      | Some t => Some t
      | None =>
          if key_eqb k lcid && nonBlank (getCell row col)
          then Some (toStr (getCell row col)) else None
      end
  end.

(** Every character of a string satisfies [p]. *)
Fixpoint allChars (p : Ascii.ascii -> bool) (s : string) : bool :=
  match s with
  | EmptyString => true
  | String c r => p c && allChars p r
  end.

Definition isDigit (c : Ascii.ascii) : bool :=
  match digitOf c with Some _ => true | None => false end.

(** The first language column that each label importer passes to
    [getLanguageColumns], by the name of the sheet that the [switch] of
    [importTranslations] sends to it ([importEntities], [importAttributes],
    [importRelationships], [importGlobalOptionSets],
    [importLocalOptionSets], also used for booleans, [importViews],
    [importCharts]). *)
Definition fixedLangStartCol (name : string) : option nat :=
  if String.eqb name "Entities" then Some 4%nat
  else if String.eqb name "Attributes" then Some 5%nat
  else if String.eqb name "Relationships" then Some 5%nat
  else if String.eqb name "RelationshipsNN" then Some 4%nat
  else if String.eqb name "Global OptionSets" then Some 5%nat
  else if String.eqb name "Local OptionSets" || String.eqb name "OptionSets"
          || String.eqb name "Booleans" then Some 7%nat
  else if String.eqb name "Views" then Some 5%nat
  else if String.eqb name "Charts" then Some 4%nat
  else None.

(** The first language column of the sheets whose importer scans the
    header ([importFormNames], [prepareFormContent],
    [prepareSiteMapContent]). *)
Definition detectedLangStartCol (sheet : Sheet) : option nat :=
  let named := String.eqb (sheetName sheet) in
  if named "Forms" || named "Dashboards" then Some (importFormNames_langStartCol sheet)
  else if named "Forms Tabs" || named "Forms Sections" || named "Forms Fields"
          || named "Dashboards Tabs" || named "Dashboards Sections"
          || named "Dashboards Fields"
  then Some (prepareFormContent_langStartCol sheet)
  else if named "SiteMap Areas" || named "SiteMap Groups" || named "SiteMap SubAreas"
  then Some (prepareSiteMapContent_langStartCol sheet)
  else None.

Definition isBrace (c : Ascii.ascii) : bool := Ascii.eqb c "{"%char || Ascii.eqb c "}"%char.

(** The entries of a log with severity [error]. *)
Definition errors (l : list (Severity * string)) : list (Severity * string) :=
  filter (fun e => e.1 = error) l.

(** The sheet names that have a case in the [switch] of
    [importTranslations]. *)
Definition knownSheetNames : list string :=
  [ "Entities"; "Attributes"; "Relationships"; "RelationshipsNN"; "Global OptionSets";
    "Local OptionSets"; "OptionSets"; "Booleans"; "Views"; "Charts"; "Forms"; "Forms Tabs";
    "Forms Sections"; "Forms Fields"; "Dashboards"; "Dashboards Tabs"; "Dashboards Sections";
    "Dashboards Fields"; "SiteMap Areas"; "SiteMap Groups"; "SiteMap SubAreas" ].

(** The entity named by an entity update. *)
Definition entityOf `{XmlCodec} (c : ImportCall) : option string :=
  match c with
  | UpdateEntityMetadata n _ _ _ => Some n
  | _ => None
  end.

(** A repository that rejects the updates of the entity "contact" and
    accepts every other call. *)
Definition contact_rejecting_repo : ImportRepo :=
  mkImportRepo
    (fun c => match c with
              | UpdateEntityMetadata n _ _ _ => String.eqb n "contact"
              | _ => false
              end)
    (fun _ => None) (fun _ => None).

(** An Entities sheet naming the entities "account" and "contact". *)
Definition entities_sheet_two : Sheet :=
  mkSheet "Entities"
    [[JStr "Entity Id"; JStr "Entity Logical Name"; JStr "Type"; JNum 1033];
     [JStr "{a1}"; JStr "account"; JStr "DisplayName"; JStr "Account"];
     [JStr "{c1}"; JStr "contact"; JStr "DisplayName"; JStr "Contact"];
     [JStr "{a1}"; JStr "account"; JStr "Description"; JStr "A business"]].

(** The second trace continues the first with calls that all satisfy [P]. *)
Definition extendsBy `{XmlCodec} (P : ImportCall -> Prop) (w w' : IWorld) : Prop :=
  exists cs, calls w' = calls w ++ cs /\ Forall P cs.

(** The calls other than the write-back of a layout document and the
    publish. *)
Definition sheetCall `{XmlCodec} (c : ImportCall) : Prop :=
  match c with
  | UpdateForm _ _ | UpdateSiteMap _ _ | PublishAllCustomizations => False
  | _ => True
  end.

Definition isUpdateSiteMap `{XmlCodec} (c : ImportCall) : Prop :=
  match c with
  | UpdateSiteMap _ _ => True
  | _ => False
  end.

(** The caches of forms and dashboards hold one entry per document. *)
Definition cachesNoDup `{XmlCodec} (w : IWorld) : Prop :=
  NoDup (formUpdates w).*1 /\ NoDup (dashboardUpdates w).*1.

(** ** Export: the option-set sheets ([exportOptionSets]) *)

Definition optionSetHeader6 : list string :=
  ["Attribute Id"; "Entity Logical Name"; "Attribute Logical Name"; "Attribute Type"; "Value";
   "Type"].

(** The rows of one table for the option sets that satisfy [keep]; the
    row has the shape of a row of the Booleans sheet. *)
Definition optionSetRows (lo : LabelOptions) (langs : list LanguageDef)
    (keep : OptionSetDef -> bool) (t : Table) : list Row :=
  flat_map (fun optionSet =>
      map (booleanRow langs t optionSet)
        (filter (fun lp => keepLangProp lo lp = true) (os_langProps optionSet)))
    (filter (fun os => keep os = true) (t_optionSets t)).

(** The "Local OptionSets" sheet: rows only when [options.localOptionSets]
    is set, for the option sets with [!os.isGlobal]. *)
Definition exportLocalOptionSets (localOptionSets : bool) (lo : LabelOptions)
    (langs : list LanguageDef) (selectedTables : list Table) : Sheet :=
  mkSheet "Local OptionSets"
    (headerOf optionSetHeader6 langs
     :: if localOptionSets
        then flat_map (optionSetRows lo langs (fun os => negb (os_isGlobal os))) selectedTables
        else []).

(** The "Global OptionSets" sheet: a header of four identity columns, and
    for the option sets with [os.isGlobal && os.type != "Boolean"] the same
    rows of six identity cells as on the local sheet. *)
Definition exportGlobalOptionSets (lo : LabelOptions) (langs : list LanguageDef)
    (selectedTables : list Table) : Sheet :=
  mkSheet "Global OptionSets"
    (headerOf ["OptionSet Id"; "OptionSet Name"; "Value"; "Type"] langs
     :: flat_map (optionSetRows lo langs
                    (fun os => os_isGlobal os && negb (bool_decide (os_type os = JStr "Boolean"))))
          selectedTables).

(** A table with one global option set of two languages. *)
Definition status_table : Table :=
  mkTable "account" "11111111-2222-3333-4444-555555555555" []
    [mkOptionSet "aaaa" (JStr "Picklist") true (JStr "statuscode") (JNum 1)
       [mkLangProp "Label" [mkTrans (JNum 1033) "Active"; mkTrans (JNum 1036) "Actif"]];
     mkOptionSet "bbbb" (JStr "Picklist") false (JStr "industrycode") (JNum 7)
       [mkLangProp "Label" [mkTrans (JNum 1036) "Banque"; mkTrans (JNum 1033) "Banking"]]].

(** The calls that fetch forms or dashboards. *)
Definition isFetch (c : RepoCall) : bool :=
  match c with
  | CallGetForms _ _ _ | CallGetDashboards _ => true
  | _ => false
  end.

(** The fetches of one turn of the sweep, for the language [lang]. *)
Definition fetchesFor (formsExport dashboards : bool) (tables : list string) (baseCode : Z)
    (lang : LanguageDef) : list RepoCall :=
  (if formsExport
   then map (fun t => CallGetForms t (ld_code lang) (ld_code lang =? baseCode)) tables
   else [])
  ++ (if dashboards then [CallGetDashboards (ld_code lang)] else []).

(** A repository that accepts every call of the sweep. *)
Definition calm_repo : Repository :=
  mkRepository false (fun _ => false) (fun _ _ => false) (fun _ => false).

(** The translations of the property called [name] of an exported node. *)
Definition langPropNamed (name : string) (s : SecInfo) : option (list LangTranslation) :=
  lp_translation <$> List.find (fun lp => String.eqb (lp_name lp) name) (si_langProps s).

(** Every descendant of [e] with the tag [t] is a child of [e]. *)
Definition tagOnlyAmongChildren (t : string) (e : Node) : Prop :=
  forall dx, dx ∈ descendantsFrom 1 e -> hasTag t dx.2 = true -> dx.1 = 1%nat.

(** A sub-area without captions, and a sub-area with both containers. *)
Definition plain_subarea : Node := Elem "SubArea" [("Id", "sub9")] [].

Definition small_sitemap : Node :=
  Elem "SiteMap" []
    [Elem "Area" [("Id", "area1")]
       [Elem "Titles" [] [Elem "Title" [("LCID", "1033"); ("Title", "Sales")] []];
        Elem "Group" [("Id", "group1")] [plain_subarea]]].

Definition small_sitemap_record : SiteMapRecord :=
  mkSiteMap treeCodec "sm2" "Service Hub" "servicehub" small_sitemap.

(** ** Repository service: the labels of a request *)

(** A [LocalizedLabel] as sent to and received from the repository: the
    text, the language code, and the other fields. *)
Record LocalizedLabel : Type := mkLocalizedLabel {
  ll_Label : string;
  ll_LanguageCode : JsNum;
  ll_fields : list (string * string)
}.

(** [{ "@odata.type": "Microsoft.Dynamics.CRM.LocalizedLabel", Label, LanguageCode }]. *)
Definition newLocalizedLabel (labelText : string) (languageCode : JsNum) : LocalizedLabel :=
  mkLocalizedLabel labelText languageCode
    [("@odata.type", "Microsoft.Dynamics.CRM.LocalizedLabel")].

(** [Object.entries(labels).map(([lcid, label]) => ({ ..., Label: label,
    LanguageCode: Number(lcid) }))], the list built by
    [updateEntityMetadata], [updateAttributeMetadata], [setLocLabels] and
    [updateOptionValue]. *)
Definition locLabels (labels : Labels) : list LocalizedLabel :=
  map (fun e => newLocalizedLabel e.2 (strToNumber (numToString e.1))) (entries labels).

(** [a === b] on numbers: NaN is equal to nothing. *)
Definition strictEqNum (a b : JsNum) : bool :=
  match a, b with
  | Some x, Some y => Z.eqb x y
  | _, _ => false
  end.

(** [find((lbl) => lbl.LanguageCode === languageCode)] followed by
    [existingLabel.Label = labelText]: the first label with the code gets
    the text, in place; [None] when no label has the code. *)
Fixpoint setExistingLabel (languageCode : JsNum) (labelText : string)
    (localizedLabels : list LocalizedLabel) : option (list LocalizedLabel) :=
  match localizedLabels with
  | [] => None
  | lbl :: rest =>
      if strictEqNum (ll_LanguageCode lbl) languageCode
      then Some (mkLocalizedLabel labelText (ll_LanguageCode lbl) (ll_fields lbl) :: rest)
      else cons lbl <$> setExistingLabel languageCode labelText rest
  end.

(** One round of the inner [forEach] of [updateRelationshipLabel]. *)
Definition mergeLabel (localizedLabels : list LocalizedLabel) (e : JsNum * string)
    : list LocalizedLabel :=
  let languageCode := strToNumber (numToString e.1) in
  match setExistingLabel languageCode e.2 localizedLabels with
  | Some updated => updated
  | None => localizedLabels ++ [newLocalizedLabel e.2 languageCode]
  end.

(** [Object.entries(labels).forEach(...)] on the labels of one menu
    configuration. *)
Definition mergeLabels (labels : Labels) (localizedLabels : list LocalizedLabel)
    : list LocalizedLabel :=
  fold_left mergeLabel (entries labels) localizedLabels.

(** The text shown for a language code: that of the first label with the
    code. *)
Definition labelIn (code : Z) (localizedLabels : list LocalizedLabel) : option string :=
  ll_Label <$> List.find (fun lbl => strictEqNum (ll_LanguageCode lbl) (Some code))
                 localizedLabels.

(** The labels of a relationship menu in two languages, with repository
    fields. *)
Definition menu_labels : list LocalizedLabel :=
  [mkLocalizedLabel "Contacts" (Some 1033) [("IsManaged", "true")];
   mkLocalizedLabel "Kontakte" (Some 1031) [("IsManaged", "true")]].

(** ** Round trip of the option-set sheets *)

(** The properties written on an option-set sheet, one per row: the
    table, the option set and the property. *)
Definition exportedOptionProps (lo : LabelOptions) (keep : OptionSetDef -> bool)
    (selectedTables : list Table) : list (Table * OptionSetDef * LangProp) :=
  flat_map (fun t =>
      flat_map (fun optionSet =>
          map (fun langProp => (t, optionSet, langProp))
            (filter (fun lp => keepLangProp lo lp = true) (os_langProps optionSet)))
        (filter (fun os => keep os = true) (t_optionSets t)))
    selectedTables.

(** The translations of a property for the output languages, as a
    dictionary by language code: the languages without text are left out. *)
Definition translatedLabels (langs : list LanguageDef) (langProp : LangProp) : Labels :=
  fold_left (fun labels lang =>
      let text := findTranslation lang langProp in
      if truthy (trim text) then setProp (Some (ld_code lang)) text labels else labels)
    langs [].

(** The update of an option value that carries the translations of one
    exported property. *)
Definition optionValueUpdate `{XmlCodec} (langs : list LanguageDef)
    (x : Table * OptionSetDef * LangProp) : list Unit :=
  let entityLogicalName := trim (t_logicalName x.1.1) in
  let attributeLogicalName := cellText (os_attributeLogicalName x.1.2) in
  let value := toNumber (os_optionValue x.1.2) in
  let labels := translatedLabels langs x.2 in
  if truthy entityLogicalName && truthy attributeLogicalName
     && negb (bool_decide (labels = []))
  then [(UpdateOptionValue (Some entityLogicalName) (Some attributeLogicalName) None value
           labels (String.eqb (trim (lp_name x.2)) "Description"),
         "optionset " +:+ attributeLogicalName +:+ " value " +:+ numToString value)]
  else [].

(** ** Export: the stages of [exportTranslations] *)

(** How an awaited promise ends: fulfilled, rejected, or never settled. *)
Inductive Settled : Type := Fulfilled | Rejected | Pending.

Global Instance Settled_eq_dec : EqDecision Settled.
Proof. solve_decision. Defined.

(** The options read by the guards of the stages. *)
Record StageOptions : Type := mkStageOptions {
  so_relationships : bool;
  so_localOptionSets : bool;
  so_globalOptionSets : bool;
  so_labelOptions : LabelOptions
}.

(** How the awaited work of one run ends: the repository call for the
    base language, the sheet builders, and the workbook writer.
    [sr_relationshipSheets] is the body of [exportRelationships] after its
    guard. *)
Record StageResults : Type := mkStageResults {
  sr_getBaseLanguage : Settled;
  sr_exportTableInfo : Settled;
  sr_exportAttributes : Settled;
  sr_relationshipSheets : Settled;
  sr_exportOptionSets : Settled;
  sr_exportBooleans : Settled;
  sr_exportViews : Settled;
  sr_exportCharts : Settled;
  sr_exportForms : Settled;
  sr_exportSiteMap : Settled;
  sr_exportDashboards : Settled;
  sr_writeBuffer : Settled
}.

(** The view-model fields written by [exportTranslations]
    ([exportpercentage] in hundredths), the entries it logs itself, and
    the files handed to the browser. *)
Record ExportState : Type := mkExportState {
  es_exporting : bool;
  es_message : string;
  es_exportpercentage : Z;
  es_log : list (Severity * string);
  es_downloads : list string
}.

Definition setProgress (message : string) (hundredths : Z) (st : ExportState) : ExportState :=
  mkExportState (es_exporting st) message hundredths (es_log st) (es_downloads st).

Definition exportLog (msg : string) (sev : Severity) (st : ExportState) : ExportState :=
  mkExportState (es_exporting st) (es_message st) (es_exportpercentage st)
    (es_log st ++ [(sev, msg)]) (es_downloads st).

Definition setExporting (b : bool) (st : ExportState) : ExportState :=
  mkExportState b (es_message st) (es_exportpercentage st) (es_log st) (es_downloads st).

Definition downloadBlob (fileName : string) (st : ExportState) : ExportState :=
  mkExportState (es_exporting st) (es_message st) (es_exportpercentage st) (es_log st)
    (es_downloads st ++ [fileName]).

(** [await p; rest]: the rest runs only when [p] is fulfilled. *)
Definition await (p : Settled) (rest : ExportState -> ExportState * Settled)
    (st : ExportState) : ExportState * Settled :=
  match p with
  | Fulfilled => rest st
  | _ => (st, p)
  end.

(** [exportRelationships] returns [new Promise(async (resolve, reject) =>
    ...)]: the body resolves it at its end and rejects it in its [catch];
    the guard returns from the executor without doing either. *)
Definition exportRelationships_promise (o : StageOptions) (body : Settled) : Settled :=
  if negb (so_relationships o)
     || match so_labelOptions o with descriptions => true | _ => false end
  then Pending
  else body.

(** The [try] block of [exportTranslations]. *)
Definition exportTranslations_try (o : StageOptions) (r : StageResults) (exportAll : bool)
    (allLanguages : list LanguageDef) (selectedLanguage : option LanguageDef)
    (baseLanguage : LanguageDef) (st : ExportState) : ExportState * Settled :=
  let st := exportLog "Exporting translations..." info st in
  let st := setExporting true st in
  let st := setProgress "Getting base language..." 5 st in
  await (sr_getBaseLanguage r) (fun st =>
    let st := exportLog ("Base language is " +:+ ld_name baseLanguage +:+ " ("
                         +:+ pretty (ld_code baseLanguage) +:+ ")") info st in
    match outputLangs exportAll allLanguages selectedLanguage baseLanguage with
    | None => (st, Rejected)
    | Some _ =>
    let st := setProgress "Exporting table info..." 10 st in
    await (sr_exportTableInfo r) (fun st =>
    let st := setProgress "Exporting attributes..." 15 st in
    await (sr_exportAttributes r) (fun st =>
    let st := setProgress "Exporting relationships..." 20 st in
    await (exportRelationships_promise o (sr_relationshipSheets r)) (fun st =>
    let st := setProgress "Exporting option sets..." 30 st in
    await (if so_localOptionSets o || so_globalOptionSets o
           then sr_exportOptionSets r else Fulfilled) (fun st =>
    let st := setProgress "Exporting boolean options..." 40 st in
    await (sr_exportBooleans r) (fun st =>
    let st := setProgress "Exporting views..." 50 st in
    await (sr_exportViews r) (fun st =>
    let st := setProgress "Exporting charts..." 60 st in
    await (sr_exportCharts r) (fun st =>
    let st := setProgress "Exporting forms..." 70 st in
    await (sr_exportForms r) (fun st =>
    let st := setProgress "Exporting site map..." 80 st in
    await (sr_exportSiteMap r) (fun st =>
    let st := setProgress "Exporting dashboards..." 90 st in
    await (sr_exportDashboards r) (fun st =>
    let st := setProgress "Finalizing export..." 95 st in
    await (sr_writeBuffer r) (fun st =>
    let st := downloadBlob "translations.xlsx" st in
    (setExporting false st, Fulfilled)) st) st) st) st) st) st) st) st) st) st) st
    end) st.

(** [exportTranslations]: the [catch] logs and rejects. *)
Definition exportTranslations (o : StageOptions) (r : StageResults) (exportAll : bool)
    (allLanguages : list LanguageDef) (selectedLanguage : option LanguageDef)
    (baseLanguage : LanguageDef) (st : ExportState) : ExportState * Settled :=
  match exportTranslations_try o r exportAll allLanguages selectedLanguage baseLanguage st with
  | (st', Rejected) => (exportLog "Export failed." error st', Rejected)
  | res => res
  end.

Definition all_fulfilled : StageResults :=
  mkStageResults Fulfilled Fulfilled Fulfilled Fulfilled Fulfilled Fulfilled Fulfilled
    Fulfilled Fulfilled Fulfilled Fulfilled Fulfilled.

Definition idle : ExportState := mkExportState false "" 0 [] [].

(** While the stages run: no new error, the busy flag set, nothing
    downloaded. *)
Definition running (st0 st : ExportState) : Prop :=
  errors (es_log st) = errors (es_log st0)
  /\ es_exporting st = true
  /\ es_downloads st = es_downloads st0.

Definition ended (st0 : ExportState) (res : ExportState * Settled) : Prop :=
  errors (es_log res.1) = errors (es_log st0)
  /\ match res.2 with
     | Fulfilled =>
         es_exporting res.1 = false
         /\ es_downloads res.1 = es_downloads st0 ++ ["translations.xlsx"]
     | _ => es_exporting res.1 = true /\ es_downloads res.1 = es_downloads st0
     end.

(** * Properties *)

(** ** Language-column detection *)

Lemma find_first_app {A} (p : A -> bool) (l1 l2 : list A) (x : A) :
  (forall y, y ∈ l1 -> p y = false) -> p x = true ->
  List.find p (l1 ++ x :: l2) = Some x.
Proof.
  intros Hl1 Hx. induction l1 as [|y l1 IH]; simpl.
  - by rewrite Hx.
  - rewrite (Hl1 y) by left. apply IH. intros z Hz. apply Hl1. by right.
Qed.

Lemma seq_split_at (c n : nat) :
  (1 <= c <= n)%nat -> seq 1 n = seq 1 (c - 1) ++ c :: seq (S c) (n - c).
Proof.
  intros Hc. replace n with ((c - 1) + S (n - c))%nat at 1 by lia.
  rewrite seq_app. simpl. f_equal. f_equal; [lia | f_equal; lia].
Qed.

Lemma detectLangStart_first (sheet : Sheet) (d c : nat) :
  (1 <= c <= columnCount sheet)%nat ->
  isLanguageHeader (getCell (headerRow sheet) c) = true ->
  (forall c', (1 <= c' < c)%nat -> isLanguageHeader (getCell (headerRow sheet) c') = false) ->
  detectLangStart sheet d = c.
Proof.
  intros Hc Hlang Hbefore. unfold detectLangStart.
  rewrite (seq_split_at c (columnCount sheet)) by done.
  rewrite find_first_app; [done | | done].
  intros y Hy. apply elem_of_seq in Hy. apply Hbefore. lia.
Qed.

Lemma isLanguageHeader_spec (v : JsVal) :
  isLanguageHeader v = true <-> exists z, strToNumber (toStr v) = Some z /\ 1000 < z.
Proof.
  unfold isLanguageHeader. destruct (strToNumber (toStr v)) as [z|].
  - rewrite Z.ltb_lt. split; [eauto | intros (z' & [= ->] & ?); done].
  - split; [done | intros (z & ? & _); done].
Qed.



(** ** Output languages *)

Lemma hasCode_elem (c : Z) (ls : list LanguageDef) :
  hasCode c ls = true <-> exists ld, ld ∈ ls /\ ld_code ld = c.
Proof.
  unfold hasCode. rewrite existsb_exists. split.
  - intros (ld & Hin & Heq). exists ld. split; [by apply list_elem_of_In | by apply Z.eqb_eq].
  - intros (ld & Hin & Heq). exists ld. split; [by apply list_elem_of_In | by apply Z.eqb_eq].
Qed.

Lemma header_has_code (ids : list string) (ls : list LanguageDef) (c : Z) :
  hasCode c ls = true -> JNum c ∈ headerOf ids ls.
Proof.
  intros (ld & Hin & <-)%hasCode_elem. unfold headerOf.
  apply elem_of_app. right. apply list_elem_of_fmap. by exists ld.
Qed.

Lemma header_last (ids : list string) (ls : list LanguageDef) (b : LanguageDef) :
  last (headerOf ids (ls ++ [b])) = Some (JNum (ld_code b)).
Proof.
  unfold headerOf. rewrite map_app. simpl. rewrite app_assoc. apply last_snoc.
Qed.

(** C10: the output languages always contain the base language; when no
    chosen language has its code, the base language is the last output
    language, hence the last header cell of every sheet. *)
Theorem outputLangs_contains_base (exportAll : bool) (allLanguages : list LanguageDef)
    (selectedLanguage : option LanguageDef) (baseLanguage : LanguageDef)
    (langs : list LanguageDef) :
  outputLangs exportAll allLanguages selectedLanguage baseLanguage = Some langs ->
  exists chosen,
    chosenLangs exportAll allLanguages selectedLanguage = Some chosen
    /\ hasCode (ld_code baseLanguage) langs = true
    /\ (forall name hdr, (name, hdr) ∈ exportHeaders langs -> JNum (ld_code baseLanguage) ∈ hdr)
    /\ (hasCode (ld_code baseLanguage) chosen = true -> langs = chosen)
    /\ (hasCode (ld_code baseLanguage) chosen = false ->
        langs = chosen ++ [baseLanguage]
        /\ forall name hdr, (name, hdr) ∈ exportHeaders langs ->
             last hdr = Some (JNum (ld_code baseLanguage))).
Proof.
  unfold outputLangs. intros Hout.
  destruct (chosenLangs exportAll allLanguages selectedLanguage) as [chosen|]; [|done].
  exists chosen. split; [done|].
  assert (Hhas : hasCode (ld_code baseLanguage) langs = true).
  { destruct (hasCode (ld_code baseLanguage) chosen) eqn:E; simpl in Hout;
      injection Hout as <-; [done|].
    apply hasCode_elem. exists baseLanguage. split; [|done].
    apply elem_of_app. right. by left. }
  split; [done|]. split.
  { intros name hdr Hin. unfold exportHeaders in Hin.
    apply list_elem_of_fmap in Hin as (sc & [= -> ->] & _). by apply header_has_code. }
  destruct (hasCode (ld_code baseLanguage) chosen) eqn:E; simpl in Hout; injection Hout as <-.
  - split; [done | intros [=]].
  - split; [intros [=] | intros _]. split; [done|].
    intros name hdr Hin. unfold exportHeaders in Hin.
    apply list_elem_of_fmap in Hin as (sc & [= -> ->] & _). apply header_last.
Qed.

Lemma outputLangs_contains_base_witness :
  exists chosen,
    chosenLangs false [lang_en; lang_fr] (Some lang_fr) = Some chosen
    /\ hasCode (ld_code lang_en) [lang_fr; lang_en] = true
    /\ (forall name hdr, (name, hdr) ∈ exportHeaders [lang_fr; lang_en] ->
          JNum (ld_code lang_en) ∈ hdr)
    /\ (hasCode (ld_code lang_en) chosen = true -> [lang_fr; lang_en] = chosen)
    /\ (hasCode (ld_code lang_en) chosen = false ->
        [lang_fr; lang_en] = chosen ++ [lang_en]
        /\ forall name hdr, (name, hdr) ∈ exportHeaders [lang_fr; lang_en] ->
             last hdr = Some (JNum (ld_code lang_en))).
Proof.
  apply (outputLangs_contains_base false [lang_en; lang_fr] (Some lang_fr) lang_en).
  reflexivity.
Defined.

(** ** Language columns of the exported rows *)

Lemma columnOf_ids (L : Z) (ids : list string) (rest : Row) (col : nat) :
  columnOf L (map JStr ids ++ rest) col = columnOf L rest (col + length ids).
Proof.
  revert col. induction ids as [|i ids IH]; intros col; simpl.
  - f_equal. lia.
  - rewrite IH. f_equal. lia.
Qed.

Lemma getCell_app_r (pre post : Row) (i : nat) :
  getCell (pre ++ post) (S (length pre + i)) = default JNull (post !! i).
Proof. unfold getCell. by rewrite lookup_app_r, Nat.add_comm, Nat.add_sub by lia. Qed.

Lemma langs_cell (L : Z) (g : LanguageDef -> JsVal) (langs : list LanguageDef)
    (pre : Row) (k : nat) :
  (forall l l', ld_code l = ld_code l' -> g l = g l') ->
  hasCode L langs = true ->
  match columnOf L (map (fun l => JNum (ld_code l)) langs) (S (length pre + k)) with
  | Some col =>
      forall skipped, length skipped = k ->
        getCell (pre ++ skipped ++ map g langs) col = g (mkLang L "")
  | None => False
  end.
Proof.
  intros Hg. revert k. induction langs as [|l langs IH]; intros k Hhas; [done|].
  simpl in Hhas. simpl columnOf. case_bool_decide as Hl.
  - intros skipped Hk. injection Hl as Hl.
    replace (pre ++ skipped ++ map g (l :: langs)) with ((pre ++ skipped) ++ map g (l :: langs))
      by by rewrite app_assoc.
    replace (S (length pre + k)) with (S (length (pre ++ skipped) + 0))
      by (rewrite length_app; lia).
    rewrite getCell_app_r. simpl. by apply Hg.
  - assert (hasCode L langs = true) as Hrest.
    { destruct (ld_code l =? L) eqn:E; [|done]. apply Z.eqb_eq in E. congruence. }
    specialize (IH (S k) Hrest).
    replace (S (S (length pre + k))) with (S (length pre + S k)) by lia.
    destruct (columnOf L _ _) as [col|]; [|done].
    intros skipped Hk. specialize (IH (skipped ++ [g l])).
    rewrite <- app_assoc in IH. simpl in IH. apply IH. rewrite length_app. simpl. lia.
Qed.

(** The Booleans sheet (and the option-set sheets, built the same way)
    puts under the column of language [L] the translation whose code is
    [L], and the empty text when there is none. *)
Lemma booleanRow_cell_aligned (langs : list LanguageDef) (t : Table) (optionSet : OptionSetDef)
    (langProp : LangProp) (L : Z) :
  hasCode L langs = true ->
  cellUnder L
    (headerOf ["Attribute Id"; "Entity Logical Name"; "Attribute Logical Name";
               "Attribute Type"; "Value"; "Type"] langs)
    (booleanRow langs t optionSet langProp)
  = JStr (translationFor L langProp).
Proof.
  intros Hhas. unfold cellUnder, headerOf. rewrite columnOf_ids. simpl length.
  pose proof (langs_cell L (fun lang => JStr (findTranslation lang langProp)) langs
                [JStr (braces (os_id optionSet)); JStr (t_logicalName t);
                 os_attributeLogicalName optionSet; os_type optionSet;
                 os_optionValue optionSet; JStr (lp_name langProp)] 0) as Hcell.
  simpl length in Hcell. replace (1 + 6)%nat with (S (6 + 0)) by lia.
  destruct (columnOf L _ _) as [col|].
  - unfold booleanRow. apply (Hcell ltac:(by intros l l' Heq; unfold findTranslation; rewrite Heq)
                                Hhas [] eq_refl).
  - exfalso. apply Hcell; [|done]. intros l l' Heq. unfold findTranslation. by rewrite Heq.
Qed.

Lemma exportBooleans_cells_aligned (lo : LabelOptions) (langs : list LanguageDef)
    (selectedTables : list Table) (row : Row) (L : Z) :
  row ∈ dataRows (exportBooleans lo langs selectedTables) ->
  hasCode L langs = true ->
  exists langProp,
    cellUnder L (headerRow (exportBooleans lo langs selectedTables)) row
    = JStr (translationFor L langProp)
    /\ getCell row 6 = JStr (lp_name langProp).
Proof.
  unfold dataRows, exportBooleans, headerRow, getRow. cbn [sheetRows drop lookup default].
  intros Hrow Hhas.
  apply list_elem_of_In, in_flat_map in Hrow as (t & _ & Hrow).
  apply in_flat_map in Hrow as (optionSet & _ & Hrow).
  apply in_map_iff in Hrow as (langProp & <- & _).
  exists langProp. split; [by apply booleanRow_cell_aligned | done].
Qed.

(** C3, on the Entities sheet: the row cells follow the order of the
    translation list, not the header.  With the columns French, English and
    a display name returned English first, the French column holds the
    English text; with a French-only display name under the columns English,
    French, the English column holds the French text and the French column
    is empty. *)
Theorem exportTableInfo_cells_follow_list_order :
  let header1 := headerOf ["Entity Id"; "Entity Logical Name"; "Type"] [lang_fr; lang_en] in
  let header2 := headerOf ["Entity Id"; "Entity Logical Name"; "Type"] [lang_en; lang_fr] in
  exists row1 row2,
    sheetRows (exportTableInfo both [lang_fr; lang_en] [account_table]) = [header1; row1]
    /\ cellUnder 1036 header1 row1 = JStr "Account"
    /\ cellUnder 1033 header1 row1 = JStr "Compte"
    /\ sheetRows (exportTableInfo both [lang_en; lang_fr] [compte_table]) = [header2; row2]
    /\ cellUnder 1033 header2 row2 = JStr "Compte"
    /\ cellUnder 1036 header2 row2 = JNull.
Proof. simpl. eexists; eexists. repeat split; reflexivity. Qed.

(** ** The language sweep *)

Lemma bind_inv {A B} (m : M A) (k : A -> M B) (w w' : World) (r : Res B) :
  (m ≫= k) w = (r, w') ->
  (exists a w1, m w = (Ok a, w1) /\ k a w1 = (r, w'))
  \/ (exists e, m w = (Throw e, w') /\ r = Throw e).
Proof.
  unfold mbind, M_bind. destruct (m w) as [[a|e] w1]; intros Hk.
  - left. eauto.
  - right. injection Hk as <- <-. eauto.
Qed.

Lemma keepsVm_ret {A} (a : A) : keepsVm (mret a).
Proof. by intros w r w' [= <- <-]. Qed.

Lemma keepsVm_bind {A B} (m : M A) (k : A -> M B) :
  keepsVm m -> (forall a, keepsVm (k a)) -> keepsVm (m ≫= k).
Proof.
  intros Hm Hk w r w' [(a & w1 & H1 & H2) | (e & H1 & _)]%bind_inv.
  - apply Hm in H1 as [? ?]. apply Hk in H2 as [? ?]. split; congruence.
  - by apply Hm in H1.
Qed.

Lemma keepsVm_updateLanguage (repo : Repository) (lang : JsVal) (userId : string) :
  keepsVm (updateLanguage repo lang userId).
Proof.
  intros w r w'. unfold updateLanguage.
  destruct (updateLanguage_fails repo lang); by intros [= <- <-].
Qed.

Lemma keepsVm_getFormsAll (repo : Repository) (tables : list string) (lang : Z) (b : bool) :
  keepsVm (getFormsAll repo tables lang b).
Proof.
  assert (Hfold : forall ts w0,
             vm_uiLocale (fold_left (fun w t => call (CallGetForms t lang b) w) ts w0)
             = vm_uiLocale w0
             /\ vm_userId (fold_left (fun w t => call (CallGetForms t lang b) w) ts w0)
                = vm_userId w0).
  { induction ts as [|t ts IH]; intros w0; simpl; [done|].
    by destruct (IH (call (CallGetForms t lang b) w0)) as [-> ->]. }
  intros w r w'. unfold getFormsAll.
  destruct (existsb _ tables); intros [= <- <-]; apply Hfold.
Qed.

Lemma keepsVm_getDashboards (repo : Repository) (lang : Z) : keepsVm (getDashboards repo lang).
Proof.
  intros w r w'. unfold getDashboards.
  destruct (getDashboards_fails repo lang); by intros [= <- <-].
Qed.

Lemma keepsVm_when (b : bool) (m : M unit) : keepsVm m -> keepsVm (when b m).
Proof. destruct b; [done | intros _; apply keepsVm_ret]. Qed.

Lemma sweepLangs_keeps_vm (repo : Repository) (formsExport dashboards : bool)
    (tables : list string) (baseCode : Z) (langs : list LanguageDef) (currentLang : JsVal) :
  keepsVm (sweepLangs repo formsExport dashboards tables baseCode currentLang langs).
Proof.
  revert currentLang. induction langs as [|lang rest IH]; intros cur; simpl.
  - apply keepsVm_ret.
  - apply keepsVm_bind.
    + case_bool_decide; [|apply keepsVm_ret].
      apply keepsVm_bind; [by intros w r w' [= <- <-]|]. intros vm.
      apply keepsVm_bind; [apply keepsVm_updateLanguage | intros; apply keepsVm_ret].
    + intros cur'. apply keepsVm_bind; [apply keepsVm_when, keepsVm_getFormsAll|].
      intros _. apply keepsVm_bind; [apply keepsVm_when, keepsVm_getDashboards|].
      intros _. apply IH.
Qed.

(** When the sweep runs to its end, the repository holds the locale that
    was recorded at the start. *)
Lemma exportForms_sweep_ok_restores (repo : Repository) (o : Options) (tables : list string)
    (baseCode : Z) (langs : list LanguageDef) (w w' : World) :
  (o_forms o || o_formFields o || o_formSections o || o_formTabs o) || o_dashboards o = true ->
  exportForms_sweep repo o tables baseCode langs w = (Ok tt, w') ->
  w_uilanguageid w' = w_uilanguageid w.
Proof.
  intros Hopt Hrun. unfold exportForms_sweep in Hrun. rewrite Hopt in Hrun. unfold when in Hrun.
  apply bind_inv in Hrun as [([] & w1 & Hsweep & Hrestore) | (e & _ & [=])].
  apply bind_inv in Hsweep as [(r0 & w0 & Hget & Hsweep) | (e & _ & [=])].
  unfold getUserLanguage in Hget. destruct (getUserLanguage_fails repo); [done|].
  injection Hget as Hr Hw. subst r0 w0.
  apply bind_inv in Hsweep as [([] & wa & Hset & Hsweep) | (e & _ & [=])].
  injection Hset as Hw. subst wa.
  apply bind_inv in Hsweep as [(vm & wb & Hread & Hsweep) | (e & _ & [=])].
  injection Hread as Hvm Hw. subst vm wb.
  apply sweepLangs_keeps_vm in Hsweep as [Hui _]. simpl in Hui.
  apply bind_inv in Hrestore as [(vm & wc & Hread & Hrestore) | (e & _ & [=])].
  injection Hread as Hvm Hw. subst vm wc.
  unfold updateLanguage in Hrestore. destruct (updateLanguage_fails repo _); [done|].
  injection Hrestore as Hw. subst w'. simpl. done.
Qed.

(** C1, at the failing run: the fetch of the forms in French rejects after
    the locale was switched to 1036; the export ends with that exception,
    the repository still holds 1036 although 1033 was recorded, and no call
    restoring 1033 was made. *)
Theorem exportForms_sweep_failure_keeps_switched_locale :
  let r := exportForms_sweep sweep_repo sweep_options ["account"] 1033 [lang_en; lang_fr]
             sweep_world in
  r.1 = Throw "getForms"
  /\ vm_uiLocale r.2 = JNum 1033
  /\ w_uilanguageid r.2 = JNum 1036
  /\ w_calls r.2 = [CallGetUserLanguage; CallGetForms "account" 1033 true;
                    CallUpdateLanguage (JNum 1036) "user-1";
                    CallGetForms "account" 1036 false].
Proof. vm_compute. repeat split; reflexivity. Qed.

(** ** Site-map caption extraction *)

(** C7, at the failing document: the area has no caption container among
    its children, yet its title is the group's and its description the
    sub-area's; the group has no Descriptions child, yet its description is
    the sub-area's. *)
Theorem exportSiteMap_binds_nested_containers :
  let vm := exportSiteMap_nodes [nested_sitemap_record] (mkSiteNodes [] [] []) in
  exists area group subarea,
    siteAreas vm = [area] /\ siteGroups vm = [group] /\ siteSubAreas vm = [subarea]
    /\ (forall a, a ∈ docElementsByTagName "Area" nested_sitemap ->
          queryChild "Titles" a = None /\ queryChild "Descriptions" a = None)
    /\ (forall g, g ∈ docElementsByTagName "Group" nested_sitemap ->
          queryChild "Descriptions" g = None)
    /\ si_langProps area
       = [mkLangProp "Title" [mkTrans (JStr "1033") "Group one"];
          mkLangProp "Description" [mkTrans (JStr "1033") "About sub one"]]
    /\ si_langProps group
       = [mkLangProp "Title" [mkTrans (JStr "1033") "Group one"];
          mkLangProp "Description" [mkTrans (JStr "1033") "About sub one"]]
    /\ si_langProps subarea
       = [mkLangProp "Title" [mkTrans (JStr "1033") "Sub one"];
          mkLangProp "Description" [mkTrans (JStr "1033") "About sub one"]].
Proof.
  eexists; eexists; eexists.
  split; [reflexivity|]. split; [reflexivity|]. split; [reflexivity|].
  split; [|split; [|repeat split; reflexivity]].
  - intros a Ha. vm_compute in Ha. apply list_elem_of_singleton in Ha. subst a.
    split; reflexivity.
  - intros g Hg. vm_compute in Hg. apply list_elem_of_singleton in Hg. subst g. reflexivity.
Qed.

(** ** Patching a site-map element *)

Lemma updateFirstChild_spec (p : Node -> bool) (f : Node -> Node) (l : list Node) :
  match updateFirstChild p f l with
  | Some l' =>
      exists pre c post,
        l = pre ++ c :: post /\ Forall (fun x => p x = false) pre /\ p c = true
        /\ l' = pre ++ f c :: post
  | None => Forall (fun x => p x = false) l
  end.
Proof.
  induction l as [|k r IH]; simpl; [done|].
  destruct (p k) eqn:Hk.
  - exists [], k, r. done.
  - destruct (updateFirstChild p f r) as [r'|]; simpl.
    + destruct IH as (pre & c & post & -> & Hpre & Hc & ->).
      exists (k :: pre), c, post. repeat split; [by constructor | done].
    + by constructor.
Qed.

Lemma filter_tag_none (t : string) (l : list Node) :
  Forall (fun x => hasTag t x = false) l -> filter (fun k => hasTag t k = true) l = [].
Proof.
  induction 1 as [|x l Hx _ IH]; [done|].
  rewrite filter_cons_False by congruence. done.
Qed.

Lemma hasTag_replaceKids (t : string) (ks : list Node) (c : Node) :
  hasTag t (replaceKids ks c) = hasTag t c.
Proof. done. Qed.

Lemma hasTag_other (t u : string) (k : Node) : t <> u -> hasTag t k = true -> hasTag u k = false.
Proof.
  unfold hasTag. intros Hne Ht%String.eqb_eq. apply String.eqb_neq. congruence.
Qed.

(** What [setSiteMapCaption] does to the children of the element: the
    first child with the container's tag gets the new caption elements, or
    a container holding them is appended; every other child stays. *)
Lemma setSiteMapCaption_children (type : string) (labels : Labels) (e : Node) :
  let cn := siteMapContainerName type in
  let els := siteMapLabelElements type labels in
  tagOf (setSiteMapCaption type labels e) = tagOf e
  /\ attrsOf (setSiteMapCaption type labels e) = attrsOf e
  /\ ((exists pre c post,
         kidsOf e = pre ++ c :: post /\ Forall (fun x => hasTag cn x = false) pre
         /\ hasTag cn c = true
         /\ kidsOf (setSiteMapCaption type labels e) = pre ++ replaceKids els c :: post)
      \/ (Forall (fun x => hasTag cn x = false) (kidsOf e)
          /\ kidsOf (setSiteMapCaption type labels e) = kidsOf e ++ [Elem cn [] els])).
Proof.
  intros cn els. unfold setSiteMapCaption. fold cn. fold els.
  pose proof (updateFirstChild_spec (hasTag cn) (replaceKids els) (kidsOf e)) as Hspec.
  destruct (updateFirstChild _ _ _) as [ks|]; simpl.
  - repeat split; try done. left. destruct Hspec as (pre & c & post & ? & ? & ? & ?).
    by exists pre, c, post.
  - repeat split; try done. by right.
Qed.

Lemma setSiteMapCaption_container (type : string) (labels : Labels) (e : Node) :
  exists c,
    queryChild (siteMapContainerName type) (setSiteMapCaption type labels e) = Some c
    /\ kidsOf c = siteMapLabelElements type labels.
Proof.
  destruct (setSiteMapCaption_children type labels e) as (_ & _ & Hkids).
  unfold queryChild.
  destruct Hkids as [(pre & c & post & _ & Hpre & Hc & ->) | (Hall & ->)].
  - exists (replaceKids (siteMapLabelElements type labels) c).
    rewrite filter_app, filter_tag_none by done.
    rewrite filter_cons_True by done. done.
  - exists (Elem (siteMapContainerName type) [] (siteMapLabelElements type labels)).
    rewrite filter_app, filter_tag_none by done.
    rewrite filter_cons_True; [done|]. unfold hasTag. simpl. apply String.eqb_refl.
Qed.

Lemma setSiteMapCaption_other_children (type t : string) (labels : Labels) (e : Node) :
  t <> siteMapContainerName type ->
  filter (fun k => hasTag t k = true) (kidsOf (setSiteMapCaption type labels e))
  = filter (fun k => hasTag t k = true) (kidsOf e).
Proof.
  intros Hne. destruct (setSiteMapCaption_children type labels e) as (_ & _ & Hkids).
  destruct Hkids as [(pre & c & post & -> & _ & Hc & ->) | (_ & ->)].
  - rewrite !filter_app. f_equal.
    rewrite !filter_cons_False; [done | |].
    + rewrite (hasTag_other _ t c) by done. done.
    + rewrite hasTag_replaceKids, (hasTag_other _ t c) by done. done.
  - rewrite filter_app, filter_cons_False; [by rewrite app_nil_r|].
    rewrite (hasTag_other (siteMapContainerName type) t); [done | done |].
    unfold hasTag. simpl. apply String.eqb_refl.
Qed.

Lemma setSiteMapCaption_unchanged (type : string) (labels : Labels) (e : Node) :
  filter (fun k => hasTag (siteMapContainerName type) k = false)
    (kidsOf (setSiteMapCaption type labels e))
  = filter (fun k => hasTag (siteMapContainerName type) k = false) (kidsOf e).
Proof.
  destruct (setSiteMapCaption_children type labels e) as (_ & _ & Hkids).
  destruct Hkids as [(pre & c & post & -> & _ & Hc & ->) | (_ & ->)].
  - rewrite !filter_app. f_equal.
    rewrite !filter_cons_False; [done | by rewrite Hc | by rewrite hasTag_replaceKids, Hc].
  - rewrite filter_app, filter_cons_False; [by rewrite app_nil_r|].
    unfold hasTag. simpl. by rewrite String.eqb_refl.
Qed.


(** ** The import run *)

(** C6, at the failing workbook: the only row of the "SiteMap Areas" sheet
    is suspended on its fetch when [prepareSiteMapContent] returns; the
    flush test sees an empty cache, so no write-back is made, and the row is
    applied to the cache during the publish call, after the flush phase. *)
Theorem importTranslations_misses_suspended_sitemap_rows :
  let w := importTranslations sitemap_repo [areas_sheet] 10 in
  calls w = [GetSiteMapById "sm1"; PublishAllCustomizations]
  /\ pending (fold_left (fun w sheet => importSheet sitemap_repo sheet 10 w) [areas_sheet]
               (onLog "Starting import..." info initialWorld))
     = [mkPending "Area" "sm1" "area1" "Title" [(Some 1033, "Sales")]]
  /\ siteMapUpdates (fold_left (fun w sheet => importSheet sitemap_repo sheet 10 w)
                       [areas_sheet] (onLog "Starting import..." info initialWorld)) = []
  /\ (exists xml, siteMapUpdates w = [("sm1", xml)]
        /\ (kidsOf <$> (findFirst (hasTag "Area") xml ≫= queryChild "Titles"))
           = Some [Elem "Title" [("LCID", "1033"); ("Title", "Sales")] []]).
Proof. vm_compute. repeat split; try reflexivity. eexists. split; reflexivity. Qed.

(** Two rows of one site-map sheet for the same site map are both
    suspended before either fetch settles; each resumes by setting the cache
    entry from its own fetched copy, so the second row discards the patch of
    the first: the text written back holds the description and not the
    title. *)
Lemma sitemap_rows_discard_earlier_patches :
  let w := importTranslations sitemap_repo [areas_sheet_two_rows; entities_sheet_one] 10 in
  exists xml,
    calls w
    = [GetSiteMapById "sm1"; GetSiteMapById "sm1";
       UpdateEntityMetadata "contact" (Some [(Some 1033, "Contact")]) None None;
       UpdateSiteMap "sm1" xml; PublishAllCustomizations]
    /\ (findFirst (hasTag "Area") xml ≫= queryChild "Titles") = None
    /\ (kidsOf <$> (findFirst (hasTag "Area") xml ≫= queryChild "Descriptions"))
       = Some [Elem "Description" [("LCID", "1033"); ("Description", "All about sales")] []].
Proof. vm_compute. eexists. repeat split; reflexivity. Qed.

(** ** Rows without identity columns *)

Lemma importEntities_row_skip (lcids : list JsNum) (m : JsMap EntityEntry) (row : Row) :
  hasEntityIdentity row = false -> importEntities_row lcids m row = m.
Proof.
  unfold hasEntityIdentity, importEntities_row. intros Hid.
  destruct (truthy (cellText (getCell row 2))), (truthy (cellText (getCell row 3))); done.
Qed.

Lemma importEntities_fold_filter (lcids : list JsNum) (rows : list Row) :
  forall m,
    fold_left (importEntities_row lcids) rows m
    = fold_left (importEntities_row lcids)
        (filter (fun r => hasEntityIdentity r = true) rows) m.
Proof.
  induction rows as [|row rows IH]; intros m; [done|]. simpl.
  destruct (hasEntityIdentity row) eqn:Hid.
  - rewrite filter_cons_True by done. simpl. apply IH.
  - rewrite filter_cons_False by congruence. rewrite importEntities_row_skip by done. apply IH.
Qed.

Section ImportLog.
Context `{XmlCodec}.
Variable repo : ImportRepo.

Lemma netCall_no_pending (c : ImportCall) (w : IWorld) :
  pending w = [] -> netCall repo c w = addCall c w.
Proof. intros Hp. unfold netCall, setPending, addCall. simpl. by rewrite Hp. Qed.

Lemma warnings_onLog (msg : string) (sev : Severity) (w : IWorld) :
  sev <> warning -> warnings (log (onLog msg sev w)) = warnings (log w).
Proof.
  intros Hsev. unfold warnings. simpl. rewrite filter_app, filter_cons_False by done.
  by rewrite app_nil_r.
Qed.

Lemma dispatchUnits_quiet (what : string) (batchCount total : nat) (units : list Unit) :
  forall processed w,
    pending w = [] ->
    pending (dispatchUnits repo what batchCount total units processed w).2 = []
    /\ warnings (log (dispatchUnits repo what batchCount total units processed w).2)
       = warnings (log w).
Proof.
  induction units as [|[c name] rest IH]; intros processed w Hp; [done|].
  simpl. rewrite netCall_no_pending by done.
  destruct (rejects repo c).
  - destruct (IH processed (onLog ("Failed to update " +:+ name) error (addCall c w)) Hp)
      as [-> ->]. split; [done|]. by rewrite warnings_onLog.
  - destruct (negb (batchCount =? 0)%nat && (S processed mod batchCount =? 0)%nat).
    + destruct (IH (S processed)
                  (onLog (progressLine what (S processed) total) info (addCall c w)) Hp)
        as [-> ->]. split; [done|]. by rewrite warnings_onLog.
    + by destruct (IH (S processed) (addCall c w) Hp) as [-> ->].
Qed.

Lemma importEntities_quiet (sheet : Sheet) (batchCount : nat) (w : IWorld) :
  pending w = [] ->
  warnings (log (importEntities repo sheet batchCount w)) = warnings (log w).
Proof.
  intros Hp. unfold importEntities, runUnits. rewrite warnings_onLog by done.
  by apply dispatchUnits_quiet.
Qed.
End ImportLog.


(** In [prepareFormContent] the same kind of row ends the sheet: the row
    after it, which names an existing tab, is never fetched nor patched. *)
Lemma prepareFormContent_row_without_form_id_ends_sheet :
  calls (importTranslations forms_repo [tabs_sheet_gap] 10) = [PublishAllCustomizations]
  /\ formUpdates (importTranslations forms_repo [tabs_sheet_gap] 10) = []
  /\ warnings (log (importTranslations forms_repo [tabs_sheet_gap] 10)) = [].
Proof. vm_compute. done. Qed.



(** ** Round trip of the Entities sheet *)

Lemma mapGet_mapSet_eq {V} (k : string) (v : V) (m : JsMap V) :
  mapGet k (mapSet k v m) = Some v.
Proof.
  induction m as [|[k' v'] m IH]; simpl.
  - by rewrite String.eqb_refl.
  - destruct (String.eqb k k') eqn:E; simpl; rewrite ?String.eqb_refl, ?E; done.
Qed.

Lemma mapGet_mapSet_ne {V} (k k' : string) (v : V) (m : JsMap V) :
  k <> k' -> mapGet k (mapSet k' v m) = mapGet k m.
Proof.
  intros Hne. induction m as [|[k2 v2] m IH]; simpl.
  - by apply String.eqb_neq in Hne as ->.
  - destruct (String.eqb k' k2) eqn:E; simpl.
    + apply String.eqb_eq in E as <-. by apply String.eqb_neq in Hne as ->.
    + by rewrite IH.
Qed.

Lemma mapGet_elem {V} (k : string) (v : V) (m : JsMap V) :
  mapGet k m = Some v -> (k, v) ∈ m.
Proof.
  induction m as [|[k' v'] m IH]; simpl; [done|].
  destruct (String.eqb k k') eqn:E.
  - intros [= ->]. apply String.eqb_eq in E as <-. by left.
  - intros Hm. right. by apply IH.
Qed.

Lemma setProp_nonempty (k : JsNum) (v : string) (o : Labels) : setProp k v o <> [].
Proof. destruct o as [|[k' v'] o]; simpl; [done|]. by destruct (key_eqb k k'). Qed.

Lemma fold_setProp_nonempty (l : list (JsNum * string)) (o : Labels) :
  o <> [] \/ l <> [] -> fold_left (fun o e => setProp e.1 e.2 o) l o <> [].
Proof.
  revert o. induction l as [|e l IH]; intros o [Ho | Hl]; simpl; try done.
  - apply IH. left. apply setProp_nonempty.
  - apply IH. left. apply setProp_nonempty.
Qed.

Lemma entries_nonempty (o : Labels) : o <> [] -> entries o <> [].
Proof.
  destruct o as [|e o]; [done|]. intros _ Hnil. unfold entries in Hnil.
  apply app_eq_nil in Hnil as [Hidx Hrest].
  destruct (isIndexKey e.1) eqn:E.
  - rewrite filter_cons_True in Hidx by done.
    pose proof (merge_sort_Permutation key_le
                  (e :: filter (fun e0 => isIndexKey e0.1 = true) o)) as Hperm.
    rewrite Hidx in Hperm. by apply Permutation_nil_cons in Hperm.
  - by rewrite filter_cons_True in Hrest.
Qed.

Lemma spread_nonempty (a b : Labels) : a <> [] \/ b <> [] -> spread a b <> [].
Proof.
  intros [Ha | Hb]; unfold spread; apply fold_setProp_nonempty.
  - left. apply fold_setProp_nonempty. right. by apply entries_nonempty.
  - right. by apply entries_nonempty.
Qed.

Lemma readLabelsFrom_nonempty (row : Row) (lcids : list JsNum) :
  forall col acc,
    acc <> []
    \/ (exists i lcid, lcids !! i = Some lcid /\ nonBlank (getCell row (col + i)) = true) ->
    readLabelsFrom row col lcids acc <> [].
Proof.
  induction lcids as [|lcid rest IH]; intros col acc Hsrc; simpl.
  - destruct Hsrc as [Hacc | (i & l & Hl & _)]; done.
  - apply IH. destruct Hsrc as [Hacc | ([|i] & l & Hl & Hcell)].
    + left. destruct (nonBlank _); [apply setProp_nonempty | done].
    + left. rewrite Nat.add_0_r in Hcell. rewrite Hcell. apply setProp_nonempty.
    + right. exists i, l. split; [done|]. by rewrite Nat.add_succ_comm.
Qed.

Lemma header_blank_beyond (header : Row) (n k : nat) :
  (length header <= k)%nat ->
  flat_map (fun col => match getCell header col with
                       | JNull => []
                       | val => [toNumber val]
                       end) (seq (S k) n) = [].
Proof.
  revert k. induction n as [|n IH]; intros k Hk; [done|].
  simpl seq. simpl flat_map. rewrite IH by lia.
  unfold getCell. rewrite lookup_ge_None_2 by done. done.
Qed.

Lemma header_language_columns (langs : list LanguageDef) :
  forall (pre : Row) (n : nat),
    (length langs <= n)%nat ->
    flat_map (fun col =>
        match getCell (pre ++ map (fun l => JNum (ld_code l)) langs) col with
        | JNull => []
        | val => [toNumber val]
        end) (seq (S (length pre)) n)
    = map (fun l => Some (ld_code l)) langs.
Proof.
  induction langs as [|l langs IH]; intros pre n Hn.
  - simpl. rewrite app_nil_r. by apply header_blank_beyond.
  - destruct n as [|n]; [simpl in Hn; lia|].
    cbn [seq flat_map].
    replace (getCell (pre ++ map (fun l0 => JNum (ld_code l0)) (l :: langs)) (S (length pre)))
      with (JNum (ld_code l)).
    2:{ replace (S (length pre)) with (S (length pre + 0)) by lia. by rewrite getCell_app_r. }
    cbn [app toNumber map]. f_equal.
    specialize (IH (pre ++ [JNum (ld_code l)]) n).
    rewrite <- app_assoc, length_app in IH. cbn [app length] in IH.
    rewrite Nat.add_1_r in IH. apply IH. simpl in Hn. lia.
Qed.

Lemma getLanguageColumns_exported (name : string) (ids : list string)
    (langs : list LanguageDef) (rows : list Row) :
  getLanguageColumns (mkSheet name (headerOf ids langs :: rows)) (S (length ids))
  = map (fun l => Some (ld_code l)) langs.
Proof.
  unfold getLanguageColumns, headerRow, getRow, columnCount. simpl.
  set (rest := foldr (fun r m => Nat.max (length r) m) 0%nat rows).
  unfold headerOf.
  pose proof (header_language_columns langs (map JStr ids)
                (Nat.max (length (map JStr ids ++ map (fun l => JNum (ld_code l)) langs)) rest
                 - length ids)) as Hcols.
  rewrite length_map in Hcols. apply Hcols.
  rewrite length_app, !length_map. lia.
Qed.

Lemma importEntities_row_keeps (lcids : list JsNum) (k : string) (m : JsMap EntityEntry)
    (row : Row) :
  hasDisplayName k m -> hasDisplayName k (importEntities_row lcids m row).
Proof.
  intros (e & Hget & Hdn). unfold importEntities_row.
  destruct (negb _ || negb _); [by exists e|].
  set (k' := cellText (getCell row 2)).
  destruct (decide (k = k')) as [<- | Hne].
  - unfold mapHas. cbv zeta. rewrite !Hget. cbn [default].
    eexists. split; [apply mapGet_mapSet_eq|].
    repeat (case_match; cbn [displayName]; try done); apply spread_nonempty; by left.
  - exists e. split; [|done]. rewrite mapGet_mapSet_ne by done.
    destruct (mapHas k' m); [done|]. by rewrite mapGet_mapSet_ne.
Qed.

Lemma importEntities_fold_keeps (lcids : list JsNum) (k : string) (rows : list Row) :
  forall m,
    hasDisplayName k m -> hasDisplayName k (fold_left (importEntities_row lcids) rows m).
Proof.
  induction rows as [|row rows IH]; intros m Hm; [done|].
  simpl. by apply IH, importEntities_row_keeps.
Qed.

Lemma importEntities_row_sets (lcids : list JsNum) (m : JsMap EntityEntry) (row : Row) :
  truthy (cellText (getCell row 2)) = true ->
  cellText (getCell row 3) = "DisplayName" ->
  readLabels row 4 lcids <> [] ->
  hasDisplayName (cellText (getCell row 2)) (importEntities_row lcids m row).
Proof.
  intros Hname Htype Hlabels. unfold importEntities_row.
  rewrite Hname, Htype. simpl.
  eexists. split; [apply mapGet_mapSet_eq|]. simpl.
  apply spread_nonempty. by right.
Qed.

Section ImportCalls.
Context `{XmlCodec}.
Variable repo : ImportRepo.

Lemma callsKept_refl (w : IWorld) : callsKept w w.
Proof. by intros c. Qed.

Lemma callsKept_trans (w1 w2 w3 : IWorld) : callsKept w1 w2 -> callsKept w2 w3 -> callsKept w1 w3.
Proof. intros H12 H23 c Hc. by apply H23, H12. Qed.

Lemma callsKept_onLog (msg : string) (sev : Severity) (w : IWorld) :
  callsKept w (onLog msg sev w).
Proof. by intros c. Qed.

Lemma calls_patchSiteMapRow (p : PendingRow) (w : IWorld) :
  calls (patchSiteMapRow p w) = calls w.
Proof. unfold patchSiteMapRow. by destruct (patchSiteMap _ _ _ _ _). Qed.

Lemma calls_resumeRow (w : IWorld) (p : PendingRow) : calls (resumeRow repo w p) = calls w.
Proof.
  unfold resumeRow. destruct (rejects repo _); [done|]. by rewrite calls_patchSiteMapRow.
Qed.

Lemma calls_resume_all (l : list PendingRow) :
  forall w, calls (fold_left (resumeRow repo) l w) = calls w.
Proof.
  induction l as [|p l IH]; intros w; [done|]. simpl. by rewrite IH, calls_resumeRow.
Qed.

Lemma calls_netCall (c : ImportCall) (w : IWorld) : calls (netCall repo c w) = calls w ++ [c].
Proof. unfold netCall. by rewrite calls_resume_all. Qed.

Lemma callsKept_netCall (c : ImportCall) (w : IWorld) : callsKept w (netCall repo c w).
Proof. intros c' Hc'. rewrite calls_netCall. apply elem_of_app. by left. Qed.

Lemma dispatchUnits_calls (what : string) (batchCount total : nat) (units : list Unit) :
  forall processed w,
    callsKept w (dispatchUnits repo what batchCount total units processed w).2
    /\ (forall u, u ∈ units ->
          u.1 ∈ calls (dispatchUnits repo what batchCount total units processed w).2).
Proof.
  induction units as [|[c name] rest IH]; intros processed w.
  - split; [apply callsKept_refl | intros u Hu; by apply not_elem_of_nil in Hu].
  - cbn [dispatchUnits].
    set (w1 := netCall repo c w).
    assert (Hc : c ∈ calls w1).
    { subst w1. rewrite calls_netCall. apply elem_of_app. right. by left. }
    assert (Hstep : forall p' w2, calls w2 = calls w1 ->
               callsKept w (dispatchUnits repo what batchCount total rest p' w2).2
               /\ (forall u, u ∈ (c, name) :: rest ->
                     u.1 ∈ calls (dispatchUnits repo what batchCount total rest p' w2).2)).
    { intros p' w2 Hw2. destruct (IH p' w2) as [Hkept Hin]. split.
      - eapply callsKept_trans; [apply (callsKept_netCall c)|].
        intros c' Hc'. apply Hkept. rewrite Hw2. apply Hc'.
      - intros u [-> | Hu]%elem_of_cons; [|by apply Hin].
        apply Hkept. by rewrite Hw2. }
    destruct (rejects repo c); [by apply Hstep|].
    destruct (negb _ && _); by apply Hstep.
Qed.

Lemma runUnits_calls (what : string) (batchCount : nat) (units : list Unit) (w : IWorld) :
  callsKept w (runUnits repo what batchCount units w)
  /\ (forall u, u ∈ units -> u.1 ∈ calls (runUnits repo what batchCount units w)).
Proof.
  unfold runUnits.
  destruct (dispatchUnits_calls what batchCount (length units) units 0 w) as [Hkept Hin].
  split; [apply Hkept | apply Hin].
Qed.

Lemma applySiteMapUpdates_from_kept (fuel : nat) :
  forall i processed w, callsKept w (applySiteMapUpdates_from repo fuel i processed w).2.
Proof.
  induction fuel as [|fuel IH]; intros i processed w; [apply callsKept_refl|].
  simpl. destruct (siteMapUpdates w !! i) as [[id xml]|]; [|apply callsKept_refl].
  destruct (rejects repo _).
  - eapply callsKept_trans; [apply (callsKept_netCall (UpdateSiteMap id xml))|].
    eapply callsKept_trans; [|apply IH]. apply callsKept_onLog.
  - eapply callsKept_trans; [apply (callsKept_netCall (UpdateSiteMap id xml))|]. apply IH.
Qed.

Lemma applyFormContentUpdates_kept (cache : CacheSel) (batchCount : nat) (w : IWorld) :
  callsKept w (applyFormContentUpdates repo cache batchCount w).
Proof. unfold applyFormContentUpdates. apply runUnits_calls. Qed.

Lemma applySiteMapUpdates_kept (w : IWorld) : callsKept w (applySiteMapUpdates repo w).
Proof.
  unfold applySiteMapUpdates.
  eapply callsKept_trans; [apply applySiteMapUpdates_from_kept | apply callsKept_onLog].
Qed.

Lemma callsKept_if (b : bool) (w w' : IWorld) :
  callsKept w w' -> callsKept w (if b then w' else w).
Proof. destruct b; [done | intros _; apply callsKept_refl]. Qed.

Lemma flushAndPublish_kept (batchCount : nat) (w : IWorld) :
  callsKept w (flushAndPublish repo batchCount w).
Proof.
  unfold flushAndPublish. cbv zeta.
  eapply callsKept_trans.
  { apply callsKept_if.
    eapply callsKept_trans; [apply callsKept_onLog | apply applyFormContentUpdates_kept]. }
  eapply callsKept_trans.
  { apply callsKept_if.
    eapply callsKept_trans; [apply callsKept_onLog | apply applyFormContentUpdates_kept]. }
  eapply callsKept_trans.
  { apply callsKept_if.
    eapply callsKept_trans; [apply callsKept_onLog | apply applySiteMapUpdates_kept]. }
  eapply callsKept_trans; [apply callsKept_onLog|].
  eapply callsKept_trans; [apply (callsKept_netCall PublishAllCustomizations)|].
  destruct (rejects repo _); apply callsKept_onLog.
Qed.

Lemma callsKept_setCache (cache : CacheSel) (m : JsMap XmlText) (w : IWorld) :
  callsKept w (setCache cache m w).
Proof. intros c. by destruct cache. Qed.

Lemma callsKept_patchSiteMapRow (p : PendingRow) (w : IWorld) :
  callsKept w (patchSiteMapRow p w).
Proof. intros c. by rewrite calls_patchSiteMapRow. Qed.

Lemma prepareFormContent_loop_kept (cache : CacheSel) (contentType : string)
    (langStartCol : nat) (lcids : list JsNum) (rows : list Row) :
  forall w,
    callsKept w (prepareFormContent_loop repo cache contentType langStartCol lcids rows w).
Proof.
  induction rows as [|row rows IH]; intros w; [apply callsKept_refl|].
  cbn [prepareFormContent_loop]. cbv zeta.
  destruct (negb _ || negb _); [apply callsKept_refl|].
  destruct (bool_decide _); [apply callsKept_refl|].
  set (formId := stripBraces (getCell row 5)).
  destruct (mapHas formId (getCache cache w)); cbn [negb andb].
  - destruct (patchForm _ _ _ _); [|apply callsKept_onLog].
    eapply callsKept_trans; [apply callsKept_setCache | apply IH].
  - destruct (rejects repo (GetFormById formId)).
    { eapply callsKept_trans; [apply callsKept_netCall | apply callsKept_onLog]. }
    eapply callsKept_trans; [apply (callsKept_netCall (GetFormById formId))|].
    eapply callsKept_trans; [apply callsKept_setCache|].
    destruct (patchForm _ _ _ _); [|apply callsKept_onLog].
    eapply callsKept_trans; [apply callsKept_setCache | apply IH].
Qed.

Lemma prepareSiteMapContent_kept (sheet : Sheet) (elementType : string) (w : IWorld) :
  callsKept w (prepareSiteMapContent sheet elementType w).
Proof.
  unfold prepareSiteMapContent. cbv zeta.
  generalize (getLanguageColumns sheet (prepareSiteMapContent_langStartCol sheet)).
  generalize (prepareSiteMapContent_langStartCol sheet). intros start lcids.
  revert w. induction (dataRows sheet) as [|row rows IH]; intros w; [apply callsKept_refl|].
  cbn [fold_left]. eapply callsKept_trans; [|apply IH].
  unfold prepareSiteMapContent_row. cbv zeta.
  destruct (negb _ || negb _); [apply callsKept_refl|].
  destruct (bool_decide _); [apply callsKept_refl|].
  destruct (negb (mapHas _ _)); [|apply callsKept_patchSiteMapRow].
  intros c Hc. cbn [calls setPending addCall]. apply elem_of_app. by left.
Qed.

Lemma importSheet_kept (sheet : Sheet) (batchCount : nat) (w : IWorld) :
  callsKept w (importSheet repo sheet batchCount w).
Proof.
  unfold importSheet. cbv zeta.
  repeat (destruct (_ =? _)%string; cbn [orb];
          [first [ eapply callsKept_trans; [apply callsKept_onLog | apply runUnits_calls]
                 | eapply callsKept_trans;
                     [apply callsKept_onLog | apply prepareFormContent_loop_kept]
                 | eapply callsKept_trans;
                     [apply callsKept_onLog | apply prepareSiteMapContent_kept] ]|]).
  apply callsKept_onLog.
Qed.

Lemma importSheets_kept (worksheets : list Sheet) (batchCount : nat) :
  forall w,
    callsKept w (fold_left (fun w sheet => importSheet repo sheet batchCount w) worksheets w).
Proof.
  induction worksheets as [|sheet rest IH]; intros w; [apply callsKept_refl|].
  cbn [fold_left]. eapply callsKept_trans; [apply importSheet_kept | apply IH].
Qed.

Lemma importSheet_Entities (sheet : Sheet) (batchCount : nat) (w : IWorld) :
  sheetName sheet = "Entities" ->
  importSheet repo sheet batchCount w
  = importEntities repo sheet batchCount (onLog "Importing entity translations..." info w).
Proof. intros Hname. unfold importSheet. by rewrite Hname. Qed.

(** Every update unit grouped from an Entities sheet is issued by the run
    that imports a workbook holding the sheet. *)
Lemma importTranslations_issues_entities (worksheets : list Sheet) (sheet : Sheet)
    (batchCount : nat) (u : Unit) :
  sheet ∈ worksheets ->
  sheetName sheet = "Entities" ->
  u ∈ importEntities_units sheet ->
  u.1 ∈ calls (importTranslations repo worksheets batchCount).
Proof.
  intros Hsheet Hname Hu. unfold importTranslations. apply flushAndPublish_kept.
  apply list_elem_of_split in Hsheet as (before & after & ->).
  rewrite fold_left_app. cbn [fold_left]. apply importSheets_kept.
  rewrite importSheet_Entities by done.
  unfold importEntities. by apply runUnits_calls.
Qed.
End ImportCalls.




(** ** Patching a form document *)

Lemma Node_kids_ind (P : Node -> Prop) :
  (forall t a ks, Forall P ks -> P (Elem t a ks)) -> forall n, P n.
Proof.
  intros Hstep. fix IH 1. intros [t a ks]. apply Hstep.
  induction ks as [|k ks IHks]; constructor; [apply IH | apply IHks].
Qed.

Lemma updateFirst_unfold (p : Node -> bool) (f : Node -> Node) (t : string)
    (a : list (string * string)) (ks : list Node) :
  updateFirst p f (Elem t a ks)
  = if p (Elem t a ks) then Some (f (Elem t a ks)) else Elem t a <$> updateFirstIn p f ks.
Proof.
  simpl. destruct (p (Elem t a ks)); [done|]. f_equal.
  induction ks as [|k ks IH]; [done|]. simpl. by rewrite IH.
Qed.

Lemma findFirst_unfold (p : Node -> bool) (t : string) (a : list (string * string))
    (ks : list Node) :
  findFirst p (Elem t a ks) = if p (Elem t a ks) then Some (Elem t a ks) else findFirstIn p ks.
Proof.
  simpl. destruct (p (Elem t a ks)); [done|].
  induction ks as [|k ks IH]; [done|]. simpl. by rewrite IH.
Qed.

Lemma ownCaptions_unfold (t : string) (a : list (string * string)) (ks : list Node) :
  ownCaptions (Elem t a ks)
  = (if isCaptioned t then startsWithLabels ks else true)
    && (if String.eqb t "labels" then forallb isLabelLeaf ks else true)
    && forallb ownCaptions ks.
Proof. reflexivity. Qed.

Lemma updateFirstIn_split (p : Node -> bool) (f : Node -> Node) (ks ks' : list Node) :
  updateFirstIn p f ks = Some ks' ->
  exists pre k k' post,
    ks = pre ++ k :: post /\ ks' = pre ++ k' :: post
    /\ Forall (fun x => updateFirst p f x = None) pre
    /\ updateFirst p f k = Some k'.
Proof.
  revert ks'. induction ks as [|k ks IH]; intros ks' Hks; [done|].
  simpl in Hks. destruct (updateFirst p f k) as [k'|] eqn:Hk.
  - injection Hks as <-. by exists [], k, k', ks.
  - destruct (updateFirstIn p f ks) as [r|]; [|done]. injection Hks as <-.
    destruct (IH r eq_refl) as (pre & k0 & k0' & post & -> & -> & Hpre & Hk0).
    exists (k :: pre), k0, k0', post. repeat split; [by constructor | done].
Qed.

Lemma updateFirst_None (p : Node -> bool) (f : Node -> Node) (n : Node) :
  updateFirst p f n = None <-> findFirst p n = None.
Proof.
  induction n as [t a ks IH] using Node_kids_ind.
  rewrite updateFirst_unfold, findFirst_unfold.
  destruct (p (Elem t a ks)); [done|].
  assert (Hks : updateFirstIn p f ks = None <-> findFirstIn p ks = None).
  { induction IH as [|k ks Hk _ IHks]; [done|]. simpl.
    destruct (updateFirst p f k) as [k'|] eqn:Eu, (findFirst p k) as [x|] eqn:Ef.
    - done.
    - destruct Hk as [_ Hk]. discriminate (Hk eq_refl).
    - destruct Hk as [Hk _]. discriminate (Hk eq_refl).
    - rewrite <- IHks. destruct (updateFirstIn p f ks); simpl; [split; intros [=] | done]. }
  rewrite <- Hks. destruct (updateFirstIn p f ks); simpl; [split; intros [=] | done].
Qed.

Lemma findFirstIn_app (p : Node -> bool) (pre l : list Node) :
  Forall (fun x => findFirst p x = None) pre -> findFirstIn p (pre ++ l) = findFirstIn p l.
Proof. induction 1 as [|x pre Hx _ IH]; [done|]. simpl. by rewrite Hx. Qed.

(** The scheme of every proof about a patch: the element found is changed
    by [f]; above it, one child of each ancestor is replaced. *)
Lemma updateFirst_rel (p : Node -> bool) (f : Node -> Node) (R : Node -> Node -> Prop) :
  (forall n, p n = true -> R n (f n)) ->
  (forall t a pre k k' post,
      p (Elem t a (pre ++ k :: post)) = false ->
      Forall (fun x => findFirst p x = None) pre ->
      updateFirst p f k = Some k' ->
      R k k' ->
      R (Elem t a (pre ++ k :: post)) (Elem t a (pre ++ k' :: post))) ->
  forall n n', updateFirst p f n = Some n' -> R n n'.
Proof.
  intros Hbase Hstep. induction n as [t a ks IH] using Node_kids_ind. intros n' Hn'.
  rewrite updateFirst_unfold in Hn'. destruct (p (Elem t a ks)) eqn:Hp.
  - injection Hn' as <-. by apply Hbase.
  - destruct (updateFirstIn p f ks) as [ks'|] eqn:Hks; [|done]. injection Hn' as <-.
    apply updateFirstIn_split in Hks as (pre & k & k' & post & -> & -> & Hpre & Hk).
    apply Hstep; [done | | done |].
    + eapply Forall_impl; [apply Hpre|]. intros x Hx. by apply updateFirst_None in Hx.
    + apply Forall_app in IH as [_ IH]. apply Forall_cons in IH as [IH _]. by apply IH.
Qed.

Lemma isCaptioned_cases (t : string) : isCaptioned t = true -> t = "tab" \/ t = "section".
Proof.
  unfold isCaptioned. intros [Ht | Ht]%orb_true_iff; apply String.eqb_eq in Ht; auto.
Qed.

Lemma isFormElement_tag (tg id : string) (n : Node) :
  isFormElement tg id n = true -> tagOf n = tg.
Proof. unfold isFormElement, hasTag. intros [Ht _]%andb_true_iff. by apply String.eqb_eq. Qed.

Lemma isFormElement_head (tg id : string) (n n' : Node) :
  tagOf n' = tagOf n -> attrsOf n' = attrsOf n ->
  isFormElement tg id n' = isFormElement tg id n.
Proof.
  intros Ht Ha. unfold isFormElement, hasTag, getAttribute. by rewrite Ht, Ha.
Qed.

Lemma isFormElement_other_tag (tg id : string) (n : Node) :
  tagOf n <> tg -> isFormElement tg id n = false.
Proof.
  intros Hne. destruct (isFormElement tg id n) eqn:E; [|done].
  by apply isFormElement_tag in E.
Qed.

Lemma setFormCaption_head (labels : Labels) (n : Node) :
  tagOf (setFormCaption labels n) = tagOf n /\ attrsOf (setFormCaption labels n) = attrsOf n.
Proof. unfold setFormCaption. by destruct (updateFirstIn _ _ _). Qed.

Lemma updateFirst_head (p : Node -> bool) (labels : Labels) (n n' : Node) :
  updateFirst p (setFormCaption labels) n = Some n' ->
  tagOf n' = tagOf n /\ attrsOf n' = attrsOf n.
Proof.
  destruct n as [t a ks]. rewrite updateFirst_unfold.
  destruct (p (Elem t a ks)).
  - intros [= <-]. apply setFormCaption_head.
  - destruct (updateFirstIn _ _ ks); [|done]. by intros [= <-].
Qed.

Lemma formLabelElements_leaves (labels : Labels) :
  forallb isLabelLeaf (formLabelElements labels) = true
  /\ forallb ownCaptions (formLabelElements labels) = true.
Proof.
  unfold formLabelElements. induction (entries labels) as [|e l [IH1 IH2]]; [done|].
  simpl. split; [apply IH1 | apply IH2].
Qed.

Lemma labelLeaf_no_target (tg id : string) (k : Node) :
  isCaptioned tg = true -> isLabelLeaf k = true -> findFirst (isFormElement tg id) k = None.
Proof.
  intros Htg [Ht Hk]%andb_true_iff. destruct k as [t a ks]. simpl in Hk.
  destruct ks; [|done]. rewrite findFirst_unfold.
  rewrite isFormElement_other_tag; [done|].
  apply String.eqb_eq in Ht. simpl in *. subst t.
  by destruct (isCaptioned_cases tg Htg) as [-> | ->].
Qed.

Lemma labels_no_target (tg id : string) (lab : Node) :
  isCaptioned tg = true -> hasTag "labels" lab = true ->
  forallb isLabelLeaf (kidsOf lab) = true ->
  findFirst (isFormElement tg id) lab = None.
Proof.
  intros Htg Ht Hkids. destruct lab as [t a ks]. rewrite findFirst_unfold.
  rewrite isFormElement_other_tag.
  2:{ apply String.eqb_eq in Ht. simpl in *. subst t.
      by destruct (isCaptioned_cases tg Htg) as [-> | ->]. }
  simpl in Hkids. induction ks as [|k ks IH]; [done|].
  simpl in Hkids. apply andb_true_iff in Hkids as [Hk Hks].
  simpl. rewrite labelLeaf_no_target by done. by apply IH.
Qed.

(** A tab or a section of a document with own captions: its first child is
    its [labels] element, holding [label] leaves. *)
Lemma captioned_shape (n : Node) :
  ownCaptions n = true -> isCaptioned (tagOf n) = true ->
  exists lab rest,
    kidsOf n = lab :: rest /\ hasTag "labels" lab = true
    /\ forallb isLabelLeaf (kidsOf lab) = true
    /\ forallb ownCaptions rest = true.
Proof.
  destruct n as [t a ks]. rewrite ownCaptions_unfold. simpl tagOf.
  intros [[Hstart _]%andb_true_iff Hkids]%andb_true_iff Ht. rewrite Ht in Hstart.
  destruct ks as [|lab rest]; [done|]. simpl in Hstart, Hkids.
  apply andb_true_iff in Hkids as [Hlab Hrest].
  exists lab, rest. repeat split; try done.
  destruct lab as [tl al kl]. rewrite ownCaptions_unfold in Hlab.
  apply andb_true_iff in Hlab as [[_ Hleaves]%andb_true_iff _].
  unfold hasTag in Hstart. simpl in Hstart. by rewrite Hstart in Hleaves.
Qed.

Lemma setFormCaption_shape (labels : Labels) (n lab : Node) (rest : list Node) :
  kidsOf n = lab :: rest -> hasTag "labels" lab = true ->
  setFormCaption labels n
  = Elem (tagOf n) (attrsOf n) (replaceKids (formLabelElements labels) lab :: rest).
Proof.
  intros Hkids Hlab. unfold setFormCaption. rewrite Hkids. simpl.
  destruct lab as [tl al kl]. rewrite updateFirst_unfold, Hlab. done.
Qed.

Lemma findFirstIn_app_cases (p : Node -> bool) (pre l : list Node) :
  findFirstIn p (pre ++ l)
  = match findFirstIn p pre with
    | Some x => Some x
    | None => findFirstIn p l
    end.
Proof.
  induction pre as [|x pre IH]; [done|]. simpl. by destruct (findFirst p x).
Qed.

Section FormPatch.
Variables (tg id : string) (labels : Labels).
Hypothesis Htg : isCaptioned tg = true.

Let p := isFormElement tg id.
Let f := setFormCaption labels.

Lemma tg_not_labels : String.eqb tg "labels" = false.
Proof. by destruct (isCaptioned_cases tg Htg) as [-> | ->]. Qed.

(** The patched element of a document with own captions. *)
Lemma patched_element (n : Node) :
  p n = true -> ownCaptions n = true ->
  exists lab rest,
    kidsOf n = lab :: rest /\ hasTag "labels" lab = true
    /\ forallb isLabelLeaf (kidsOf lab) = true
    /\ forallb ownCaptions rest = true
    /\ f n = Elem tg (attrsOf n) (replaceKids (formLabelElements labels) lab :: rest).
Proof.
  intros Hp Hwf. pose proof (isFormElement_tag _ _ _ Hp) as Htag.
  destruct (captioned_shape n Hwf) as (lab & rest & Hkids & Hlab & Hleaves & Hrest).
  { by rewrite Htag. }
  exists lab, rest. repeat split; try done.
  unfold f. by rewrite (setFormCaption_shape labels n lab rest), Htag.
Qed.

Lemma patch_keeps_ownCaptions (n n' : Node) :
  updateFirst p f n = Some n' -> ownCaptions n = true -> ownCaptions n' = true.
Proof.
  revert n n'.
  apply (updateFirst_rel p f (fun n n' => ownCaptions n = true -> ownCaptions n' = true)).
  - intros n Hp Hwf.
    destruct (patched_element n Hp Hwf) as (lab & rest & _ & Hlab & _ & Hrest & ->).
    rewrite ownCaptions_unfold, Htg, tg_not_labels. cbn [startsWithLabels forallb].
    rewrite hasTag_replaceKids, Hlab, Hrest.
    destruct lab as [tl al kl]. unfold replaceKids. cbn [tagOf attrsOf].
    rewrite ownCaptions_unfold.
    unfold hasTag in Hlab. cbn [tagOf] in Hlab. rewrite Hlab.
    apply String.eqb_eq in Hlab as ->.
    destruct (formLabelElements_leaves labels) as [-> ->]. done.
  - intros t a pre k k' post Hp Hpre Hk IH Hwf.
    destruct (updateFirst_head _ _ _ _ Hk) as [Htag _].
    rewrite ownCaptions_unfold in Hwf |- *.
    apply andb_true_iff in Hwf as [[Hstart Hleaves]%andb_true_iff Hkids].
    rewrite forallb_app in Hkids. simpl in Hkids.
    apply andb_true_iff in Hkids as [Hkpre [Hkk Hkpost]%andb_true_iff].
    repeat (apply andb_true_iff; split).
    + destruct (isCaptioned t); [|done]. destruct pre; [|done].
      simpl in *. unfold hasTag in *. by rewrite Htag.
    + destruct (String.eqb t "labels"); [|done]. exfalso.
      rewrite forallb_app in Hleaves. simpl in Hleaves.
      apply andb_true_iff in Hleaves as [_ [Hleaf _]%andb_true_iff].
      pose proof (labelLeaf_no_target tg id k Htg Hleaf) as Hnone.
      apply updateFirst_None with (f := f) in Hnone. unfold p in Hk. congruence.
    + rewrite forallb_app. simpl. by rewrite Hkpre, (IH Hkk), Hkpost.
Qed.

Lemma patch_sets_caption (n n' : Node) :
  updateFirst p f n = Some n' -> ownCaptions n = true ->
  findFirst p n' ≫= captionOf = Some (formLabelElements labels).
Proof.
  revert n n'.
  apply (updateFirst_rel p f
           (fun n n' => ownCaptions n = true ->
              findFirst p n' ≫= captionOf = Some (formLabelElements labels))).
  - intros n Hp Hwf.
    destruct (patched_element n Hp Hwf) as (lab & rest & _ & Hlab & _ & _ & Heq).
    assert (Hp' : p (f n) = true).
    { rewrite <- Hp. unfold p, f. apply isFormElement_head; apply setFormCaption_head. }
    rewrite Heq in Hp' |- *. rewrite findFirst_unfold, Hp'. simpl.
    unfold captionOf. simpl kidsOf.
    destruct lab as [tl al kl]. unfold replaceKids. simpl tagOf. simpl attrsOf.
    cbn [findFirstIn]. rewrite findFirst_unfold.
    replace (hasTag "labels" (Elem tl al (formLabelElements labels))) with true by done.
    done.
  - intros t a pre k k' post Hp Hpre Hk IH Hwf.
    rewrite ownCaptions_unfold in Hwf.
    apply andb_true_iff in Hwf as [_ Hkids].
    rewrite forallb_app in Hkids. simpl in Hkids.
    apply andb_true_iff in Hkids as [_ [Hkk _]%andb_true_iff].
    specialize (IH Hkk).
    rewrite findFirst_unfold.
    replace (p (Elem t a (pre ++ k' :: post))) with false
      by (by rewrite <- Hp; apply isFormElement_head).
    rewrite findFirstIn_app by done. simpl.
    destruct (findFirst p k'); [done | discriminate IH].
Qed.

Section Frame.
Variables (tg' id' : string).
Hypothesis Htg' : isCaptioned tg' = true.
Hypothesis Hdiff : tg <> tg'.

Let q := isFormElement tg' id'.

Lemma patch_frames_other_caption (n n' : Node) :
  updateFirst p f n = Some n' -> ownCaptions n = true ->
  captionOf <$> findFirst q n' = captionOf <$> findFirst q n.
Proof.
  revert n n'.
  apply (updateFirst_rel p f
           (fun n n' => ownCaptions n = true ->
              captionOf <$> findFirst q n' = captionOf <$> findFirst q n)).
  - intros n Hp Hwf.
    destruct (patched_element n Hp Hwf) as (lab & rest & Hkids & Hlab & Hleaves & _ & Heq).
    pose proof (isFormElement_tag _ _ _ Hp) as Htag.
    rewrite Heq. destruct n as [t a ks]. simpl in Hkids, Htag. subst t ks. simpl attrsOf.
    rewrite !findFirst_unfold.
    unfold q. rewrite !isFormElement_other_tag by done.
    cbn [findFirstIn].
    rewrite (labels_no_target tg' id' lab) by done.
    rewrite (labels_no_target tg' id' (replaceKids (formLabelElements labels) lab)); [done..|].
    apply formLabelElements_leaves.
  - intros t a pre k k' post Hp Hpre Hk IH Hwf.
    pose proof Hwf as Hwf0.
    rewrite ownCaptions_unfold in Hwf.
    apply andb_true_iff in Hwf as [_ Hkids].
    rewrite forallb_app in Hkids. simpl in Hkids.
    apply andb_true_iff in Hkids as [_ [Hkk _]%andb_true_iff].
    specialize (IH Hkk).
    rewrite !findFirst_unfold.
    replace (q (Elem t a (pre ++ k' :: post))) with (q (Elem t a (pre ++ k :: post)))
      by (by apply isFormElement_head).
    destruct (q (Elem t a (pre ++ k :: post))) eqn:Hq.
    + simpl. f_equal. unfold captionOf. simpl kidsOf. f_equal.
      pose proof (isFormElement_tag _ _ _ Hq) as Htag. simpl in Htag.
      destruct (captioned_shape _ Hwf0) as (lab & rest & Hkids' & Hlab & Hleaves & _).
      { simpl. by rewrite Htag. }
      simpl in Hkids'. destruct pre as [|x pre].
      * simpl in Hkids'. injection Hkids' as Hk0 _. subst k. exfalso.
        pose proof (labels_no_target tg id lab Htg Hlab Hleaves) as Hnone.
        apply updateFirst_None with (f := f) in Hnone. unfold p in Hk. congruence.
      * simpl in Hkids'. injection Hkids' as Hx _. subst x. cbn [app findFirstIn].
        destruct lab as [tl al kl]. by rewrite findFirst_unfold, Hlab.
    + rewrite !findFirstIn_app_cases. destruct (findFirstIn q pre); [done|].
      simpl. destruct (findFirst q k') as [e'|], (findFirst q k) as [e|]; try done.
Qed.
End Frame.
End FormPatch.

Lemma bind_captionOf (o o' : option Node) :
  captionOf <$> o = captionOf <$> o' -> o ≫= captionOf = o' ≫= captionOf.
Proof. destruct o, o'; simpl; congruence. Qed.

(** Two patches in a row, a tab then a section, on a document with own
    captions: both captions are as patched. *)
Lemma tab_then_section_captions (d d1 d2 : Node) (tabId secId : string)
    (tabLabels secLabels : Labels) :
  ownCaptions d = true ->
  patchForm "tab" tabId tabLabels d = Some d1 ->
  patchForm "section" secId secLabels d1 = Some d2 ->
  formCaption "tab" tabId d2 = Some (formLabelElements tabLabels)
  /\ formCaption "section" secId d2 = Some (formLabelElements secLabels).
Proof.
  unfold patchForm, formCaption.
  change (contentTag "tab") with "tab". change (contentTag "section") with "section".
  intros Hwf H1 H2.
  pose proof (patch_keeps_ownCaptions "tab" tabId tabLabels eq_refl d d1 H1 Hwf) as Hwf1.
  split.
  - rewrite (bind_captionOf _ (findFirst (isFormElement "tab" tabId) d1)).
    + by apply (patch_sets_caption "tab" tabId tabLabels eq_refl d d1).
    + by apply (patch_frames_other_caption "section" secId secLabels eq_refl "tab" tabId
                  eq_refl ltac:(done) d1 d2).
  - by apply (patch_sets_caption "section" secId secLabels eq_refl d1 d2).
Qed.

Lemma patchForm_found (contentType elementId : string) (labels : Labels) (d : Node) :
  findFirst (isFormElement (contentTag contentType) elementId) d <> None ->
  exists d', patchForm contentType elementId labels d = Some d'.
Proof.
  intros Hfound. unfold patchForm.
  destruct (updateFirst _ _ d) as [d'|] eqn:Hd; [by exists d'|].
  by apply updateFirst_None in Hd.
Qed.

Lemma section_still_found (d d1 : Node) (tabId secId : string) (tabLabels : Labels) :
  ownCaptions d = true ->
  patchForm "tab" tabId tabLabels d = Some d1 ->
  findFirst (isFormElement "section" secId) d <> None ->
  findFirst (isFormElement "section" secId) d1 <> None.
Proof.
  unfold patchForm. change (contentTag "tab") with "tab". intros Hwf H1 Hfound Hnone.
  pose proof (patch_frames_other_caption "tab" tabId tabLabels eq_refl "section" secId
                eq_refl ltac:(done) d d1 H1 Hwf) as Hframe.
  rewrite Hnone in Hframe. by destruct (findFirst (isFormElement "section" secId) d).
Qed.

Section FormRun.
Context `{XmlCodec}.
Variable repo : ImportRepo.

Lemma importSheet_FormsTabs (sheet : Sheet) (batchCount : nat) (w : IWorld) :
  sheetName sheet = "Forms Tabs" ->
  importSheet repo sheet batchCount w
  = prepareFormContent repo sheet FormCache "tab"
      (onLog "Preparing form tab translations..." info w).
Proof. intros Hname. unfold importSheet. by rewrite Hname. Qed.

Lemma importSheet_FormsSections (sheet : Sheet) (batchCount : nat) (w : IWorld) :
  sheetName sheet = "Forms Sections" ->
  importSheet repo sheet batchCount w
  = prepareFormContent repo sheet FormCache "section"
      (onLog "Preparing form section translations..." info w).
Proof. intros Hname. unfold importSheet. by rewrite Hname. Qed.

(** One turn of the loop of [prepareFormContent] for a row that is patched:
    the cache entry of the form holds the serialized patched document. *)
Lemma prepareFormContent_loop_patches (contentType : string) (langStartCol : nat)
    (lcids : list JsNum) (row : Row) (w : IWorld) (doc' : Node) :
  let formId := stripBraces (getCell row 5) in
  let elementId := cellText (getCell row 1) in
  let labels := readLabels row langStartCol lcids in
  truthy formId = true -> truthy elementId = true -> labels <> [] ->
  pending w = [] ->
  rejects repo (GetFormById formId) = false ->
  patchForm contentType elementId labels
    (parseXml (default (default emptyXml (formxml repo formId)) (mapGet formId (formUpdates w))))
  = Some doc' ->
  let w' := prepareFormContent_loop repo FormCache contentType langStartCol lcids [row] w in
  mapGet formId (formUpdates w') = Some (serializeXml doc') /\ pending w' = [].
Proof.
  intros formId elementId labels Hform Helem Hlabels Hpending Hrej Hpatch.
  cbn [prepareFormContent_loop]. fold formId elementId labels.
  rewrite Hform, Helem. cbn [negb orb].
  rewrite bool_decide_eq_false_2 by done.
  unfold mapHas. cbn [getCache].
  destruct (mapGet formId (formUpdates w)) as [xml|] eqn:Hcached.
  - cbn [negb andb default] in *. cbn [getCache]. rewrite Hcached. cbn [default]. unfold id in *.
    rewrite Hpatch. cbn [setCache formUpdates pending].
    by rewrite mapGet_mapSet_eq.
  - cbn [negb andb default] in *. rewrite Hrej.
    rewrite netCall_no_pending by done.
    cbn [setCache getCache addCall formUpdates]. rewrite mapGet_mapSet_eq. cbn [default].
    unfold id in *. rewrite Hpatch. cbn [setCache formUpdates pending addCall].
    by rewrite mapGet_mapSet_eq.
Qed.
End FormRun.

Section FormFlush.
Context `{XmlCodec}.
Variable repo : ImportRepo.

Lemma flushAndPublish_flushes_forms (batchCount : nat) (w : IWorld) (formId : string)
    (xml : XmlText) :
  (formId, xml) ∈ formUpdates w ->
  UpdateForm formId xml ∈ calls (flushAndPublish repo batchCount w).
Proof.
  intros Hin. unfold flushAndPublish. cbv zeta.
  assert (Hsize : (0 <? length (formUpdates w))%nat = true).
  { destruct (formUpdates w); [by apply not_elem_of_nil in Hin | done]. }
  rewrite Hsize.
  set (w1 := applyFormContentUpdates repo FormCache batchCount _).
  assert (Hw1 : UpdateForm formId xml ∈ calls w1).
  { subst w1. unfold applyFormContentUpdates.
    apply (proj2 (runUnits_calls repo "Forms content" batchCount _ _)
             (UpdateForm formId xml, "form " +:+ formId)).
    apply list_elem_of_fmap. exists (formId, xml). split; [done|]. apply Hin. }
  revert Hw1. generalize (UpdateForm formId xml). generalize w1. clear. intros w1.
  change (callsKept w1
            (let w2 :=
               if (0 <? length (dashboardUpdates w1))%nat
               then applyFormContentUpdates repo DashboardCache batchCount
                      (onLog ("Updating " +:+ pretty (length (dashboardUpdates w1))
                              +:+ " dashboards with content changes...") info w1)
               else w1 in
             let w3 :=
               if (0 <? length (siteMapUpdates w2))%nat
               then applySiteMapUpdates repo
                      (onLog ("Updating " +:+ pretty (length (siteMapUpdates w2))
                              +:+ " sitemaps...") info w2)
               else w2 in
             let w4 := netCall repo PublishAllCustomizations
                         (onLog "Publishing customizations..." info w3) in
             if rejects repo PublishAllCustomizations then onLog "Import failed" error w4
             else onLog "Import completed successfully!" success w4)).
  cbv zeta.
  eapply callsKept_trans.
  { apply callsKept_if.
    eapply callsKept_trans; [apply callsKept_onLog | apply applyFormContentUpdates_kept]. }
  eapply callsKept_trans.
  { apply callsKept_if.
    eapply callsKept_trans; [apply callsKept_onLog | apply applySiteMapUpdates_kept]. }
  eapply callsKept_trans; [apply callsKept_onLog|].
  eapply callsKept_trans; [apply (callsKept_netCall repo PublishAllCustomizations)|].
  destruct (rejects repo _); apply callsKept_onLog.
Qed.
End FormFlush.




(** ** Reading the labels of a row *)

Lemma getProp_setProp (k k' : JsNum) (v : string) (o : Labels) :
  getProp k' (setProp k v o) = if key_eqb k' k then Some v else getProp k' o.
Proof.
  unfold getProp. induction o as [|[k0 v0] o IH]; simpl.
  - by destruct (key_eqb k' k).
  - unfold key_eqb in *. destruct (bool_decide (k = k0)) eqn:E; simpl.
    + apply bool_decide_eq_true in E as <-. by destruct (bool_decide (k' = k)).
    + destruct (bool_decide (k' = k0)) eqn:E0; simpl.
      * apply bool_decide_eq_true in E0 as ->.
        rewrite bool_decide_eq_false_2; [done|]. apply bool_decide_eq_false in E. congruence.
      * apply IH.
Qed.

Lemma setProp_keys (k : JsNum) (v : string) (o : Labels) :
  forall k', k' ∈ (setProp k v o).*1 <-> k' = k \/ k' ∈ o.*1.
Proof.
  induction o as [|[k0 v0] o IH]; intros k'; simpl.
  - rewrite list_elem_of_singleton. split; [by left | by intros [? | ?%not_elem_of_nil]].
  - unfold key_eqb. case_bool_decide as E; simpl.
    + subst k0. rewrite !elem_of_cons. tauto.
    + rewrite !elem_of_cons, IH. tauto.
Qed.

Lemma setProp_NoDup (k : JsNum) (v : string) (o : Labels) :
  NoDup o.*1 -> NoDup (setProp k v o).*1.
Proof.
  induction o as [|[k0 v0] o IH]; simpl; intros Hnd.
  - apply NoDup_singleton.
  - apply NoDup_cons in Hnd as [Hk0 Hnd]. unfold key_eqb. case_bool_decide as E; simpl.
    + subst k0. by apply NoDup_cons.
    + apply NoDup_cons. split; [|by apply IH].
      rewrite setProp_keys. intros [-> | Hin]; done.
Qed.

Lemma getProp_elem (k : JsNum) (t : string) (o : Labels) :
  NoDup o.*1 -> ((k, t) ∈ o <-> getProp k o = Some t).
Proof.
  unfold getProp. induction o as [|[k0 v0] o IH]; simpl; intros Hnd.
  - split; [by intros ?%not_elem_of_nil | done].
  - apply NoDup_cons in Hnd as [Hk0 Hnd]. unfold key_eqb. case_bool_decide as E; simpl.
    + subst k0. split.
      * intros [[= ->] | Hin]%elem_of_cons; [done|].
        exfalso. apply Hk0. apply list_elem_of_fmap. by exists (k, t).
      * intros [= ->]. by left.
    + rewrite elem_of_cons, <- IH by done. split; [intros [[= -> _] | ?]; done | by right].
Qed.

Lemma readLabelsFrom_NoDup (row : Row) (lcids : list JsNum) :
  forall col acc, NoDup acc.*1 -> NoDup (readLabelsFrom row col lcids acc).*1.
Proof.
  induction lcids as [|lcid rest IH]; intros col acc Hnd; [done|].
  simpl. apply IH. destruct (nonBlank _); [by apply setProp_NoDup | done].
Qed.

Lemma readLabelsFrom_getProp (row : Row) (lcids : list JsNum) (k : JsNum) :
  forall col acc,
    getProp k (readLabelsFrom row col lcids acc)
    = match lastLabelCell row col lcids k with
      | Some t => Some t
      | None => getProp k acc
      end.
Proof.
  induction lcids as [|lcid rest IH]; intros col acc; [done|].
  simpl. rewrite IH. destruct (lastLabelCell row (S col) rest k); [done|].
  destruct (nonBlank (getCell row col)).
  - rewrite getProp_setProp, andb_true_r. by destruct (key_eqb k lcid).
  - by rewrite andb_false_r.
Qed.

Lemma lastLabelCell_None (row : Row) (lcids : list JsNum) (k : JsNum) :
  forall col,
    lastLabelCell row col lcids k = None <->
    forall i, lcids !! i = Some k -> nonBlank (getCell row (col + i)) = false.
Proof.
  induction lcids as [|lcid rest IH]; intros col; simpl.
  - split; [by intros _ i | done].
  - destruct (lastLabelCell row (S col) rest k) as [t|] eqn:Hlast.
    + split; [done|]. intros Hall. exfalso.
      assert (Hnone : lastLabelCell row (S col) rest k = None); [|congruence].
      apply IH. intros i Hi. specialize (Hall (S i) Hi). by rewrite Nat.add_succ_r in Hall.
    + pose proof (proj1 (IH (S col)) Hlast) as Hrest.
      unfold key_eqb. case_bool_decide as Hk; simpl.
      * subst lcid. destruct (nonBlank (getCell row col)) eqn:Hnb.
        -- split; [done|]. intros Hall. specialize (Hall 0%nat eq_refl).
           rewrite Nat.add_0_r in Hall. congruence.
        -- split; [|done]. intros _ [|i] Hi; [by rewrite Nat.add_0_r|].
           rewrite Nat.add_succ_r. by apply Hrest.
      * split; [|done]. intros _ [|i] Hi; [by injection Hi as ->|].
        rewrite Nat.add_succ_r. by apply Hrest.
Qed.

Lemma lastLabelCell_spec (row : Row) (lcids : list JsNum) (k : JsNum) :
  forall col t,
    lastLabelCell row col lcids k = Some t <->
    exists i, lcids !! i = Some k
      /\ nonBlank (getCell row (col + i)) = true
      /\ t = toStr (getCell row (col + i))
      /\ forall j, (i < j)%nat -> lcids !! j = Some k -> nonBlank (getCell row (col + j)) = false.
Proof.
  induction lcids as [|lcid rest IH]; intros col t.
  - simpl. split; [done | by intros (i & ? & _)].
  - simpl. destruct (lastLabelCell row (S col) rest k) as [t'|] eqn:Hlast.
    + pose proof (proj1 (IH (S col) t') Hlast) as (i' & Hi' & Hnb' & Ht' & Hlater').
      split.
      * intros [= <-]. exists (S i'). rewrite Nat.add_succ_r. repeat split; try done.
        intros [|j] Hj Hlk; [lia|]. rewrite Nat.add_succ_r. apply Hlater'; [lia | done].
      * intros ([|i] & Hi & Hnb & Ht & Hlater).
        -- specialize (Hlater (S i') ltac:(lia) Hi'). rewrite Nat.add_succ_r in Hlater.
           cbn [Nat.add] in Hnb'. congruence.
        -- assert (Hsome : lastLabelCell row (S col) rest k = Some t); [|congruence].
           apply IH. exists i. rewrite Nat.add_succ_r in Hnb, Ht. repeat split; try done.
           intros j Hj Hlk. specialize (Hlater (S j) ltac:(lia) Hlk).
           by rewrite Nat.add_succ_r in Hlater.
    + pose proof (proj1 (lastLabelCell_None row rest k (S col)) Hlast) as Hrest.
      unfold key_eqb. case_bool_decide as Hk; simpl.
      * subst lcid. destruct (nonBlank (getCell row col)) eqn:Hnb.
        -- split.
           ++ intros [= <-]. exists 0%nat. rewrite Nat.add_0_r. repeat split; try done.
              intros [|j] Hj Hlk; [lia|]. rewrite Nat.add_succ_r. by apply Hrest.
           ++ intros ([|i] & Hi & Hnbi & Ht & _).
              ** rewrite Nat.add_0_r in Ht. by subst t.
              ** specialize (Hrest i Hi). rewrite Nat.add_succ_r in Hnbi. cbn [Nat.add] in Hrest.
                 congruence.
        -- split; [done|]. intros ([|i] & Hi & Hnbi & _).
           ++ rewrite Nat.add_0_r in Hnbi. congruence.
           ++ specialize (Hrest i Hi). rewrite Nat.add_succ_r in Hnbi. cbn [Nat.add] in Hrest.
              congruence.
      * split; [done|]. intros ([|i] & Hi & Hnbi & _).
        -- by injection Hi as ->.
        -- specialize (Hrest i Hi). rewrite Nat.add_succ_r in Hnbi. cbn [Nat.add] in Hrest. congruence.
Qed.


(** ** Numbers written and read back *)

Lemma rev_app_rev_app (s1 s2 s3 : string) :
  String.rev_app (String.rev_app s1 s2) s3 = String.rev_app s2 (s1 +:+ s3).
Proof.
  revert s2 s3. induction s1 as [|a s1 IH]; intros s2 s3; [done|].
  simpl. by rewrite IH.
Qed.

Lemma string_rev_involutive (s : string) : String.rev (String.rev s) = s.
Proof.
  unfold String.rev. rewrite rev_app_rev_app. cbn [String.rev_app].
  induction s as [|a s IH]; [done|].
  change (String a (s +:+ "") = String a s). by f_equal.
Qed.

Lemma allChars_rev_app (p : Ascii.ascii -> bool) (s1 s2 : string) :
  allChars p s1 = true -> allChars p s2 = true -> allChars p (String.rev_app s1 s2) = true.
Proof.
  revert s2. induction s1 as [|a s1 IH]; intros s2 H1 H2; [done|].
  simpl in *. apply andb_true_iff in H1 as [Ha H1]. apply IH; [done|]. simpl. by rewrite Ha.
Qed.

Lemma trimStart_no_ws (s : string) :
  allChars (fun c => negb (is_ws c)) s = true -> trimStart s = s.
Proof.
  destruct s as [|c r]; [done|]. simpl. intros [Hc _]%andb_true_iff.
  by apply negb_true_iff in Hc as ->.
Qed.

Lemma trim_no_ws (s : string) :
  allChars (fun c => negb (is_ws c)) s = true -> trim s = s.
Proof.
  intros Hs. unfold trim. rewrite (trimStart_no_ws s) by done.
  rewrite trimStart_no_ws; [apply string_rev_involutive|].
  by apply allChars_rev_app.
Qed.

Lemma allChars_impl (p q : Ascii.ascii -> bool) (s : string) :
  (forall c, p c = true -> q c = true) -> allChars p s = true -> allChars q s = true.
Proof.
  intros Hpq. induction s as [|c r IH]; [done|]. simpl.
  intros [Hc Hr]%andb_true_iff. by rewrite (Hpq c Hc), IH.
Qed.

Lemma isDigit_no_ws (c : Ascii.ascii) : isDigit c = true -> negb (is_ws c) = true.
Proof.
  destruct c as [[] [] [] [] [] [] [] []]; vm_compute; done.
Qed.

Lemma pretty_N_char_digit (d : N) :
  (d < 10)%N -> digitOf (pretty_N_char d) = Some (Z.of_N d).
Proof.
  intros Hd.
  assert (d = 0 \/ d = 1 \/ d = 2 \/ d = 3 \/ d = 4 \/ d = 5 \/ d = 6 \/ d = 7 \/ d = 8
          \/ d = 9)%N as Hcases by lia.
  repeat destruct Hcases as [-> | Hcases]; try subst d; reflexivity.
Qed.

(** The digits that [pretty] puts in front of [s] read back as the number:
    reading them from [acc] continues with [s] from [acc * 10 ^ k + x]. *)
Lemma pretty_N_go_digits (x : N) :
  exists k : Z, 0 <= k /\
    forall s acc,
      digitsToZ acc (pretty_N_go x s) = digitsToZ (acc * 10 ^ k + Z.of_N x) s
      /\ (allChars isDigit s = true -> allChars isDigit (pretty_N_go x s) = true)
      /\ ((0 < x)%N -> exists c r, pretty_N_go x s = String c r /\ isDigit c = true).
Proof.
  induction (N.lt_wf_0 x) as [x _ IH].
  destruct (decide (x = 0%N)) as [-> | Hx].
  - exists 0. split; [done|]. intros s acc. rewrite pretty_N_go_0.
    split; [f_equal; lia|]. split; [done | lia].
  - assert (0 < x)%N as Hpos by lia.
    destruct (IH (x / 10)%N) as (k & Hk & Hrec).
    { apply N.div_lt; lia. }
    exists (k + 1). split; [lia|]. intros s acc.
    rewrite pretty_N_go_step by done.
    destruct (Hrec (String (pretty_N_char (x mod 10)) s) acc) as (Hread & Hall & Hhead).
    assert (Hd : digitOf (pretty_N_char (x mod 10)) = Some (Z.of_N (x mod 10))).
    { apply pretty_N_char_digit. apply N.mod_lt. lia. }
    split; [|split].
    + rewrite Hread. simpl. rewrite Hd. f_equal.
      rewrite Z.pow_add_r, Z.pow_1_r by lia.
      rewrite (N.div_mod x 10) at 3 by lia.
      rewrite N2Z.inj_add, N2Z.inj_mul. change (Z.of_N 10) with 10. lia.
    + intros Hs. apply Hall. simpl. unfold isDigit at 1. by rewrite Hd.
    + intros _. destruct (decide (x / 10 = 0)%N) as [Hz | Hnz].
      * rewrite Hz, pretty_N_go_0. eexists _, _. split; [done|]. unfold isDigit. by rewrite Hd.
      * apply Hhead. by apply N.neq_0_lt_0.
Qed.

Lemma pretty_N_reads_back (x : N) :
  (0 < x)%N ->
  digitsToZ 0 (pretty x) = Some (Z.of_N x)
  /\ allChars isDigit (pretty x) = true
  /\ exists c r, pretty x = String c r /\ isDigit c = true.
Proof.
  intros Hx. unfold pretty, pretty_N. rewrite decide_False by lia.
  destruct (pretty_N_go_digits x) as (k & _ & Hgo).
  destruct (Hgo "" 0) as (Hread & Hall & Hhead).
  split; [by rewrite Hread | split; [by apply Hall | by apply Hhead]].
Qed.

(** [Number(String(z))] is [z]. *)
Lemma strToNumber_pretty (z : Z) : strToNumber (pretty z) = Some z.
Proof.
  destruct z as [|p|p].
  - reflexivity.
  - change (pretty (Z.pos p)) with (pretty (N.pos p)).
    destruct (pretty_N_reads_back (N.pos p) ltac:(lia)) as (Hread & Hall & c & r & Hs & Hc).
    unfold strToNumber. rewrite trim_no_ws.
    2:{ eapply allChars_impl; [apply isDigit_no_ws | done]. }
    rewrite Hs in Hread |- *.
    destruct c as [[] [] [] [] [] [] [] []]; try discriminate Hc; exact Hread.
  - change (pretty (Z.neg p)) with ("-" +:+ pretty (N.pos p)).
    destruct (pretty_N_reads_back (N.pos p) ltac:(lia)) as (Hread & Hall & c & r & Hs & Hc).
    unfold strToNumber. rewrite trim_no_ws.
    2:{ simpl. eapply allChars_impl; [apply isDigit_no_ws | done]. }
    rewrite Hs in Hread |- *. simpl. simpl in Hread. 
    destruct (digitOf c); [|done]. by rewrite Hread.
Qed.

(** ** The headers written by the export, read by the import *)

Lemma isLanguageHeader_number (z : Z) : isLanguageHeader (JNum z) = (1000 <? z).
Proof. unfold isLanguageHeader. simpl. by rewrite strToNumber_pretty. Qed.

Lemma columnCount_header (name : string) (header : Row) (rows : list Row) :
  (length header <= columnCount (mkSheet name (header :: rows)))%nat.
Proof. unfold columnCount. simpl. lia. Qed.

Lemma headerRow_cons (name : string) (header : Row) (rows : list Row) :
  headerRow (mkSheet name (header :: rows)) = header.
Proof. reflexivity. Qed.

Lemma detectLangStart_exported (name : string) (ids : list string) (l : LanguageDef)
    (rest : list LanguageDef) (rows : list Row) (d : nat) :
  Forall (fun id => isLanguageHeader (JStr id) = false) ids ->
  1000 < ld_code l ->
  detectLangStart (mkSheet name (headerOf ids (l :: rest) :: rows)) d = S (length ids).
Proof.
  intros Hids Hl. apply detectLangStart_first.
  - pose proof (columnCount_header name (headerOf ids (l :: rest)) rows) as Hcc.
    unfold headerOf in Hcc at 1. rewrite length_app, !length_map in Hcc. simpl in Hcc. lia.
  - rewrite headerRow_cons. unfold headerOf.
    replace (S (length ids)) with (S (length (map JStr ids) + 0))
      by (rewrite length_map; lia).
    rewrite getCell_app_r. change (isLanguageHeader (JNum (ld_code l)) = true).
    rewrite isLanguageHeader_number. by apply Z.ltb_lt.
  - intros c' Hc'. rewrite headerRow_cons. unfold headerOf.
    destruct c' as [|i]; [lia|]. unfold getCell.
    rewrite lookup_app_l by (rewrite length_map; lia).
    rewrite list_lookup_fmap.
    destruct (ids !! i) as [id|] eqn:Hid; [|apply lookup_ge_None in Hid; lia].
    simpl. rewrite Forall_forall in Hids. apply Hids. by eapply list_elem_of_lookup_2.
Qed.



(** The importers that scan the header agree with the export as soon as
    the first output language has a code above 1000: on every sheet that
    the export writes for them, the scan stops at the column after the
    identity columns, and the codes read from there are the codes of the
    output languages, in order. *)
Theorem scanning_importers_find_exported_language_block (name : string) (ids : list string)
    (l : LanguageDef) (rest : list LanguageDef) (rows : list Row) :
  (name, ids) ∈ exportSheetColumns ->
  fixedLangStartCol name = None ->
  1000 < ld_code l ->
  let sheet := mkSheet name (headerOf ids (l :: rest) :: rows) in
  detectedLangStartCol sheet = Some (S (length ids))
  /\ getLanguageColumns sheet (S (length ids)) = map (fun l => Some (ld_code l)) (l :: rest).
Proof.
  intros Hin Hfixed Hl sheet. split; [|apply getLanguageColumns_exported].
  subst sheet. unfold exportSheetColumns in Hin.
  repeat (apply elem_of_cons in Hin as [[= -> ->] | Hin];
          [first [ vm_compute in Hfixed; discriminate Hfixed
                 | unfold detectedLangStartCol; cbn [sheetName];
                   repeat match goal with
                          | |- context [String.eqb ?a ?b] =>
                              let r := eval vm_compute in (String.eqb a b) in
                              change (String.eqb a b) with r
                          end;
                   cbn [orb]; f_equal;
                   unfold importFormNames_langStartCol, prepareFormContent_langStartCol,
                     prepareSiteMapContent_langStartCol;
                   apply detectLangStart_exported; [repeat (constructor; [vm_compute; reflexivity|]); constructor | exact Hl] ]|]).
  by apply not_elem_of_nil in Hin.
Qed.

Lemma scanning_importers_find_exported_language_block_witness :
  let sheet :=
    mkSheet "Forms Sections"
      (headerOf ["Section Id"; "Entity Logical Name"; "Form Name"; "Form Unique Id";
                 "Form Id"; "Tab Name"] (lang_fr :: [lang_en]) :: []) in
  detectedLangStartCol sheet
  = Some (S (length ["Section Id"; "Entity Logical Name"; "Form Name"; "Form Unique Id";
                     "Form Id"; "Tab Name"]))
  /\ getLanguageColumns sheet
       (S (length ["Section Id"; "Entity Logical Name"; "Form Name"; "Form Unique Id";
                   "Form Id"; "Tab Name"]))
     = map (fun l => Some (ld_code l)) (lang_fr :: [lang_en]).
Proof.
  apply (scanning_importers_find_exported_language_block "Forms Sections").
  - unfold exportSheetColumns. do 11 right. left.
  - reflexivity.
  - reflexivity.
Defined.

(** ** Record ids written in braces *)

Lemma removeBraces_app (a b : string) :
  removeBraces (a +:+ b) = removeBraces a +:+ removeBraces b.
Proof.
  induction a as [|c a IH]; [reflexivity|].
  change (String c a +:+ b) with (String c (a +:+ b)). simpl. rewrite IH.
  by destruct (Ascii.eqb c "{" || Ascii.eqb c "}").
Qed.

Lemma removeBraces_none (s : string) :
  allChars (fun c => negb (isBrace c)) s = true -> removeBraces s = s.
Proof.
  induction s as [|c s IH]; [done|]. simpl. intros [Hc Hs]%andb_true_iff.
  unfold isBrace in Hc. apply negb_true_iff in Hc as ->. by rewrite IH.
Qed.

Lemma removeBraces_clean (s : string) :
  allChars (fun c => negb (isBrace c)) (removeBraces s) = true.
Proof.
  induction s as [|c s IH]; [done|]. simpl.
  destruct (Ascii.eqb c "{" || Ascii.eqb c "}") eqn:E; [done|].
  simpl. unfold isBrace. by rewrite E.
Qed.

(** The record ids that the export writes between braces are read back
    by [stripBraces] as they were, for every id that holds no brace; and
    whatever the cell, the id read holds no brace. *)
Theorem stripBraces_reads_exported_id (id : string) (v : JsVal) :
  (allChars (fun c => negb (isBrace c)) id = true -> stripBraces (JStr (braces id)) = id)
  /\ allChars (fun c => negb (isBrace c)) (stripBraces v) = true.
Proof.
  split; [|apply removeBraces_clean].
  intros Hid. unfold stripBraces, braces. cbn [toStr].
  rewrite !removeBraces_app, (removeBraces_none id) by done.
  change (removeBraces "{") with "". change (removeBraces "}") with "".
  change ("" +:+ id +:+ "") with (id +:+ "").
  clear Hid. induction id as [|c id IH]; [done|].
  change (String c (id +:+ "") = String c id). by f_equal.
Qed.

(** ** The dispatch loop *)

Section Dispatch.
Context `{XmlCodec}.
Variable repo : ImportRepo.

Lemma dispatchUnits_trace (what : string) (batchCount total : nat) (units : list Unit) :
  forall processed w,
    calls (dispatchUnits repo what batchCount total units processed w).2
    = calls w ++ map fst units.
Proof.
  induction units as [|[c name] rest IH]; intros processed w.
  - by rewrite app_nil_r.
  - cbn [dispatchUnits map fst].
    assert (Hstep : forall p' w2, calls w2 = calls w ++ [c] ->
               calls (dispatchUnits repo what batchCount total rest p' w2).2
               = calls w ++ c :: map fst rest).
    { intros p' w2 Hw2. rewrite IH, Hw2, <- app_assoc. done. }
    destruct (rejects repo c); [apply Hstep; cbn [calls onLog]; apply calls_netCall|].
    destruct (negb _ && _); apply Hstep; cbn [calls onLog]; apply calls_netCall.
Qed.

(** A rejected update does not stop a dispatch loop: the loop issues the
    call of every unit of work, in the order of the units, whatever calls
    the repository rejects and whatever the batch count. *)
Theorem runUnits_issues_every_unit (what : string) (batchCount : nat) (units : list Unit)
    (w : IWorld) :
  calls (runUnits repo what batchCount units w) = calls w ++ map fst units.
Proof. unfold runUnits. cbn [calls onLog]. apply dispatchUnits_trace. Qed.

Lemma errors_onLog (msg : string) (sev : Severity) (w : IWorld) :
  errors (log (onLog msg sev w))
  = errors (log w) ++ (if decide (sev = error) then [(sev, msg)] else []).
Proof.
  unfold errors. cbn [log onLog]. rewrite filter_app. by f_equal.
Qed.

Lemma dispatchUnits_summary (what : string) (batchCount total : nat) (units : list Unit) :
  forall processed w,
    pending w = [] ->
    let r := dispatchUnits repo what batchCount total units processed w in
    r.1 = (processed + length (filter (fun u => rejects repo u.1 = false) units))%nat
    /\ errors (log r.2)
       = errors (log w)
         ++ map (fun u => (error, "Failed to update " +:+ u.2))
              (filter (fun u => rejects repo u.1 = true) units)
    /\ pending r.2 = []
    /\ formUpdates r.2 = formUpdates w
    /\ dashboardUpdates r.2 = dashboardUpdates w
    /\ siteMapUpdates r.2 = siteMapUpdates w.
Proof.
  induction units as [|[c name] rest IH]; intros processed w Hp.
  - cbn. rewrite app_nil_r. repeat split; first [done | lia].
  - cbn [dispatchUnits]. rewrite netCall_no_pending by done.
    destruct (rejects repo c) eqn:Hrej.
    + rewrite filter_cons_False by (cbn; congruence).
      rewrite filter_cons_True by done.
      destruct (IH processed (onLog ("Failed to update " +:+ name) error (addCall c w)) Hp)
        as (Hn & Herr & Hpend & Hf & Hd & Hs).
      repeat split; try done.
      rewrite Herr, errors_onLog. cbn [log addCall]. rewrite decide_True by done.
      by rewrite <- app_assoc.
    + rewrite filter_cons_True by done.
      rewrite filter_cons_False by (cbn; congruence).
      cbn [length].
      destruct (negb (batchCount =? 0)%nat && (S processed mod batchCount =? 0)%nat).
      * destruct (IH (S processed)
                    (onLog (progressLine what (S processed) total) info (addCall c w)) Hp)
          as (Hn & Herr & Hpend & Hf & Hd & Hs).
        repeat split; try done; try lia.
        rewrite Herr, errors_onLog. cbn [log addCall]. rewrite decide_False by done.
        by rewrite app_nil_r.
      * destruct (IH (S processed) (addCall c w) Hp) as (Hn & Herr & Hpend & Hf & Hd & Hs).
        repeat split; first [done | lia].
Qed.

End Dispatch.


(** ** The units of work grouped from the label sheets *)

Lemma flat_map_unit_elem {A B} (f : A -> list B) (l : list A) (u : B) :
  u ∈ flat_map f l <-> exists x, x ∈ l /\ u ∈ f x.
Proof.
  rewrite list_elem_of_In, in_flat_map. split; intros (x & Hx & Hu); exists x.
  - by rewrite !list_elem_of_In.
  - by rewrite <- !list_elem_of_In.
Qed.

Section RowUnits.
Context `{XmlCodec}.

(** The importers that turn each row into one call skip the rows that
    carry no label: no relationship, option-value, view, chart, form-name
    or dashboard-name update is ever issued with an empty label
    dictionary. *)
Theorem row_importers_never_issue_empty_labels (sheet : Sheet) (manyToMany : bool) (u : Unit) :
  u ∈ importRelationships_units sheet manyToMany
       ++ importGlobalOptionSets_units sheet ++ importLocalOptionSets_units sheet
       ++ importViews_units sheet ++ importCharts_units sheet
       ++ importFormNames_units sheet ->
  emptyUpdate u.1 = false /\ callLabels u.1 <> [].
Proof.
  rewrite !elem_of_app.
  unfold importRelationships_units, importGlobalOptionSets_units, importLocalOptionSets_units,
    importViews_units, importCharts_units, importLocLabels_units, importFormNames_units.
  cbv zeta. rewrite !flat_map_unit_elem.
  intros Hu.
  repeat destruct Hu as [Hu | Hu];
    destruct Hu as (row & _ & Hu);
    match type of Hu with
    | _ ∈ (if ?c then _ else _) => destruct c eqn:Hc; [|by apply not_elem_of_nil in Hu]
    end;
    apply list_elem_of_singleton in Hu; subst u; cbn [fst callLabels emptyUpdate forallb];
    repeat (apply andb_true_iff in Hc as [? Hc]);
    apply negb_true_iff in Hc; rewrite Hc; done.
Qed.
End RowUnits.

Lemma row_importers_never_issue_empty_labels_witness :
  emptyUpdate
    (UpdateOptionValue (Some "account") (Some "donotemail") None (Some 1)
       [(Some 1033, "Do Not Allow")] false) = false
  /\ callLabels
       (UpdateOptionValue (Some "account") (Some "donotemail") None (Some 1)
          [(Some 1033, "Do Not Allow")] false) <> [].
Proof.
  apply (row_importers_never_issue_empty_labels
           (mkSheet "Booleans"
              [[JStr "Attribute Id"; JStr "Entity Logical Name"; JStr "Attribute Logical Name";
                JStr "Attribute Type"; JStr "Value"; JStr "Type"; JNum 1033];
               [JStr "{b1}"; JStr "account"; JStr "donotemail"; JStr "Boolean"; JNum 1;
                JStr "Label"; JStr "Do Not Allow"];
               [JStr "{b1}"; JStr "account"; JStr "donotemail"; JStr "Boolean"; JNum 0;
                JStr "Label"; JStr "  "]])
           false
           (UpdateOptionValue (Some "account") (Some "donotemail") None (Some 1)
              [(Some 1033, "Do Not Allow")] false,
            "optionset donotemail value 1")).
  rewrite !elem_of_app. right. right. left. vm_compute. left.
Defined.

(** ** Grouping the rows of the Entities sheet *)

Lemma mapSet_keys {V} (k : string) (v : V) (m : JsMap V) :
  (mapSet k v m).*1 = if mapHas k m then m.*1 else m.*1 ++ [k].
Proof.
  unfold mapHas. induction m as [|[k' v'] m IH]; [done|].
  cbn [mapSet mapGet]. destruct (String.eqb k k') eqn:E.
  - apply String.eqb_eq in E as ->. by rewrite !fmap_cons.
  - rewrite !fmap_cons, IH. by destruct (mapGet k m).
Qed.

Lemma mapHas_keys {V} (k : string) (m : JsMap V) : mapHas k m = true <-> k ∈ m.*1.
Proof.
  unfold mapHas. induction m as [|[k' v'] m IH].
  - split; [done | by intros ?%not_elem_of_nil].
  - cbn [mapGet]. rewrite fmap_cons. cbn [fst]. destruct (String.eqb k k') eqn:E.
    + apply String.eqb_eq in E as ->. split; [by left | done].
    + rewrite IH, elem_of_cons. apply String.eqb_neq in E.
      split; [by right | by intros [? | ?]].
Qed.

Lemma mapSet_Forall {V} (P : V -> Prop) (k : string) (v : V) (m : JsMap V) :
  P v -> Forall (fun kv => P kv.2) m -> Forall (fun kv => P kv.2) (mapSet k v m).
Proof.
  intros Hv. induction 1 as [|[k' v'] m Hk' Hm IH]; cbn [mapSet].
  - constructor; [exact Hv | constructor].
  - destruct (String.eqb k k'); constructor; done.
Qed.

Lemma mapGet_Forall {V} (P : V -> Prop) (k : string) (v : V) (m : JsMap V) :
  Forall (fun kv => P kv.2) m -> mapGet k m = Some v -> P v.
Proof.
  intros Hall Hget. apply mapGet_elem in Hget. rewrite Forall_forall in Hall.
  apply (Hall (k, v) Hget).
Qed.

Lemma importEntities_row_keys (lcids : list JsNum) (m : JsMap EntityEntry) (row : Row) :
  (importEntities_row lcids m row).*1
  = if hasEntityIdentity row && negb (mapHas (cellText (getCell row 2)) m)
    then m.*1 ++ [cellText (getCell row 2)] else m.*1.
Proof.
  unfold importEntities_row, hasEntityIdentity. cbv zeta.
  destruct (truthy (cellText (getCell row 2))); [|done].
  destruct (truthy (cellText (getCell row 3))); [|done].
  cbn [negb orb andb]. set (name := cellText (getCell row 2)).
  destruct (mapHas name m) eqn:Hhas; cbn [negb].
  - by rewrite mapSet_keys, Hhas.
  - rewrite mapSet_keys.
    assert (Hhas' : mapHas name (mapSet name (mkEntityEntry [] [] []) m) = true).
    { unfold mapHas. by rewrite mapGet_mapSet_eq. }
    by rewrite Hhas', mapSet_keys, Hhas.
Qed.

Lemma importEntities_fold_keys (lcids : list JsNum) (rows : list Row) :
  forall m,
    NoDup m.*1 ->
    let m' := fold_left (importEntities_row lcids) rows m in
    NoDup m'.*1
    /\ forall n, n ∈ m'.*1 <->
         n ∈ m.*1
         \/ exists row, row ∈ rows /\ hasEntityIdentity row = true
                        /\ cellText (getCell row 2) = n.
Proof.
  induction rows as [|row rows IH]; intros m Hnd.
  - cbn. split; [done|]. intros n. split; [by left|].
    intros [Hn | (row & Hrow & _)]; [done | by apply not_elem_of_nil in Hrow].
  - cbn [fold_left].
    assert (Hnd1 : NoDup (importEntities_row lcids m row).*1).
    { rewrite importEntities_row_keys.
      destruct (hasEntityIdentity row && negb (mapHas (cellText (getCell row 2)) m)) eqn:E;
        [|done].
      apply andb_true_iff in E as [_ Hnew]. apply negb_true_iff in Hnew.
      apply NoDup_app. split; [done|]. split; [|apply NoDup_singleton].
      intros x Hx Hx'. apply list_elem_of_singleton in Hx' as ->.
      apply mapHas_keys in Hx. congruence. }
    destruct (IH _ Hnd1) as [Hnd' Hmem]. split; [done|].
    intros n. rewrite Hmem, importEntities_row_keys. clear Hmem.
    destruct (hasEntityIdentity row) eqn:Hid; cbn [andb].
    + destruct (mapHas (cellText (getCell row 2)) m) eqn:Hhas; cbn [negb].
      * apply mapHas_keys in Hhas. split.
        -- intros [Hn | (r & Hr & Hrid & Hrn)]; [by left|].
           right. exists r. split; [by right | done].
        -- intros [Hn | (r & [-> | Hr]%elem_of_cons & Hrid & Hrn)]; [by left | |].
           ++ left. by subst n.
           ++ right. by exists r.
      * rewrite elem_of_app, list_elem_of_singleton. split.
        -- intros [[Hn | ->] | (r & Hr & Hrid & Hrn)]; [by left | |].
           ++ right. exists row. split; [by left | done].
           ++ right. exists r. split; [by right | done].
        -- intros [Hn | (r & [-> | Hr]%elem_of_cons & Hrid & Hrn)].
           ++ by left; left.
           ++ left. right. done.
           ++ right. by exists r.
    + split.
      * intros [Hn | (r & Hr & Hrid & Hrn)]; [by left|].
        right. exists r. split; [by right | done].
      * intros [Hn | (r & [-> | Hr]%elem_of_cons & Hrid & Hrn)]; [by left | congruence |].
        right. by exists r.
Qed.

Section EntityUnits.
Context `{XmlCodec}.

Lemma importEntities_units_names (sheet : Sheet) :
  omap entityOf (map fst (importEntities_units sheet)) = (importEntities_group sheet).*1.
Proof.
  unfold importEntities_units. induction (importEntities_group sheet) as [|[k e] m IH]; [done|].
  cbn. by rewrite <- IH.
Qed.


Lemma importEntities_fold_blank (lcids : list JsNum) (rows : list Row) :
  (forall row, row ∈ rows -> readLabels row 4 lcids = []) ->
  forall m,
    Forall (fun kv => kv.2 = mkEntityEntry [] [] []) m ->
    Forall (fun kv => kv.2 = mkEntityEntry [] [] [])
      (fold_left (importEntities_row lcids) rows m).
Proof.
  induction rows as [|row rows IH]; intros Hblank m Hm; [done|].
  cbn [fold_left]. apply IH; [intros r Hr; apply Hblank; by right|].
  unfold importEntities_row. cbv zeta.
  destruct (negb _ || negb _); [done|].
  rewrite (Hblank row) by by left.
  set (name := cellText (getCell row 2)).
  set (m1 := if mapHas name m then m else mapSet name (mkEntityEntry [] [] []) m).
  assert (Hm1 : Forall (fun kv => kv.2 = mkEntityEntry [] [] []) m1).
  { subst m1. destruct (mapHas name m); [done|].
    by apply (mapSet_Forall (fun e => e = mkEntityEntry [] [] [])). }
  assert (Hentry : default (mkEntityEntry [] [] []) (mapGet name m1) = mkEntityEntry [] [] []).
  { destruct (mapGet name m1) as [e|] eqn:Hget; [|done].
    apply (mapGet_Forall (fun e => e = mkEntityEntry [] [] []) name e m1 Hm1 Hget). }
  rewrite Hentry. apply (mapSet_Forall (fun e => e = mkEntityEntry [] [] [])); [|done].
  repeat case_match; reflexivity.
Qed.

End EntityUnits.


(** ** The run as a whole *)

Section Run.
Context `{XmlCodec}.
Variable repo : ImportRepo.

Lemma extendsBy_refl (P : ImportCall -> Prop) (w : IWorld) : extendsBy P w w.
Proof. exists []. by rewrite app_nil_r. Qed.

Lemma extendsBy_trans (P : ImportCall -> Prop) (w1 w2 w3 : IWorld) :
  extendsBy P w1 w2 -> extendsBy P w2 w3 -> extendsBy P w1 w3.
Proof.
  intros (cs1 & H1 & HP1) (cs2 & H2 & HP2). exists (cs1 ++ cs2).
  split; [by rewrite H2, H1, app_assoc | by apply Forall_app].
Qed.

Lemma extendsBy_same (P : ImportCall -> Prop) (w w' : IWorld) :
  calls w' = calls w -> extendsBy P w w'.
Proof. intros Heq. exists []. by rewrite app_nil_r. Qed.

Lemma extendsBy_netCall (P : ImportCall -> Prop) (c : ImportCall) (w : IWorld) :
  P c -> extendsBy P w (netCall repo c w).
Proof. intros Hc. exists [c]. split; [apply calls_netCall | by constructor]. Qed.

Lemma extendsBy_runUnits (P : ImportCall -> Prop) (what : string) (batchCount : nat)
    (units : list Unit) (w : IWorld) :
  (forall u, u ∈ units -> P u.1) -> extendsBy P w (runUnits repo what batchCount units w).
Proof.
  intros HP. exists (map fst units). split.
  - unfold runUnits. cbn [calls onLog]. apply dispatchUnits_trace.
  - apply Forall_forall. intros c (u & -> & Hu)%list_elem_of_fmap. by apply HP.
Qed.

Lemma label_units_sheetCall (sheet : Sheet) (u : Unit) :
  u ∈ importEntities_units sheet ++ importAttributes_units sheet
       ++ importRelationships_units sheet false ++ importRelationships_units sheet true
       ++ importGlobalOptionSets_units sheet ++ importLocalOptionSets_units sheet
       ++ importViews_units sheet ++ importCharts_units sheet
       ++ importFormNames_units sheet ->
  sheetCall u.1.
Proof.
  rewrite !elem_of_app.
  unfold importEntities_units, importAttributes_units, importRelationships_units,
    importGlobalOptionSets_units, importLocalOptionSets_units, importViews_units,
    importCharts_units, importLocLabels_units, importFormNames_units.
  cbv zeta. rewrite !flat_map_unit_elem, !list_elem_of_fmap.
  intros Hu.
  repeat destruct Hu as [Hu | Hu];
    first [ destruct Hu as (kv & -> & _); done
          | destruct Hu as (row & _ & Hu);
            match type of Hu with
            | _ ∈ (if ?c then _ else _) => destruct c; [|by apply not_elem_of_nil in Hu]
            end;
            apply list_elem_of_singleton in Hu; subst u; done ].
Qed.

Lemma extendsBy_prepareFormContent_loop (cache : CacheSel) (contentType : string)
    (langStartCol : nat) (lcids : list JsNum) (rows : list Row) :
  forall w,
    extendsBy sheetCall w
      (prepareFormContent_loop repo cache contentType langStartCol lcids rows w).
Proof.
  induction rows as [|row rows IH]; intros w; [apply extendsBy_refl|].
  cbn [prepareFormContent_loop]. cbv zeta.
  destruct (negb _ || negb _); [apply extendsBy_refl|].
  destruct (bool_decide _); [apply extendsBy_refl|].
  set (formId := stripBraces (getCell row 5)).
  destruct (mapHas formId (getCache cache w)); cbn [negb andb].
  - destruct (patchForm _ _ _ _); [|by apply extendsBy_same].
    eapply extendsBy_trans; [|apply IH]. apply extendsBy_same. by destruct cache.
  - assert (Hfetch : extendsBy sheetCall w
                       (netCall repo (GetFormById formId) w))
      by by apply extendsBy_netCall.
    destruct (rejects repo (GetFormById formId)).
    { eapply extendsBy_trans; [apply Hfetch | by apply extendsBy_same]. }
    eapply extendsBy_trans; [apply Hfetch|].
    destruct (patchForm _ _ _ _); [|apply extendsBy_same; by destruct cache].
    eapply extendsBy_trans; [|apply IH]. apply extendsBy_same. by destruct cache.
Qed.

Lemma extendsBy_prepareSiteMapContent (sheet : Sheet) (elementType : string) (w : IWorld) :
  extendsBy sheetCall w
    (prepareSiteMapContent sheet elementType w).
Proof.
  unfold prepareSiteMapContent. cbv zeta.
  generalize (getLanguageColumns sheet (prepareSiteMapContent_langStartCol sheet)).
  generalize (prepareSiteMapContent_langStartCol sheet). intros start lcids.
  revert w. induction (dataRows sheet) as [|row rows IH]; intros w; [apply extendsBy_refl|].
  cbn [fold_left]. eapply extendsBy_trans; [|apply IH].
  unfold prepareSiteMapContent_row. cbv zeta.
  destruct (negb _ || negb _); [apply extendsBy_refl|].
  destruct (bool_decide _); [apply extendsBy_refl|].
  destruct (negb (mapHas _ _)).
  - eexists [_]. split; [reflexivity | by constructor].
  - apply extendsBy_same. apply calls_patchSiteMapRow.
Qed.

Lemma extendsBy_importSheet (sheet : Sheet) (batchCount : nat) (w : IWorld) :
  extendsBy sheetCall w (importSheet repo sheet batchCount w).
Proof.
  assert (Hunits : forall what msg units,
             (forall u, u ∈ units -> sheetCall u.1) ->
             extendsBy sheetCall w
               (runUnits repo what batchCount units (onLog msg info w))).
  { intros what msg units Hu.
    eapply extendsBy_trans; [by apply (extendsBy_same _ w (onLog msg info w))|].
    by apply extendsBy_runUnits. }
  assert (Hforms : forall cache ct msg,
             extendsBy sheetCall w
               (prepareFormContent repo sheet cache ct (onLog msg info w))).
  { intros cache ct msg.
    eapply extendsBy_trans; [by apply (extendsBy_same _ w (onLog msg info w))|].
    apply extendsBy_prepareFormContent_loop. }
  assert (Hsite : forall et msg,
             extendsBy sheetCall w
               (prepareSiteMapContent sheet et (onLog msg info w))).
  { intros et msg.
    eapply extendsBy_trans; [by apply (extendsBy_same _ w (onLog msg info w))|].
    apply extendsBy_prepareSiteMapContent. }
  pose proof (label_units_sheetCall sheet) as Hlabel.
  unfold importSheet, importEntities. cbv zeta.
  repeat (destruct (_ =? _)%string; cbn [orb];
          [first [ apply Hunits; intros u Hu; apply Hlabel; rewrite !elem_of_app; tauto
                 | apply Hforms | apply Hsite ]|]).
  by apply extendsBy_same.
Qed.

Lemma extendsBy_importSheets (worksheets : list Sheet) (batchCount : nat) :
  forall w,
    extendsBy sheetCall w
      (fold_left (fun w sheet => importSheet repo sheet batchCount w) worksheets w).
Proof.
  induction worksheets as [|sheet rest IH]; intros w; [apply extendsBy_refl|].
  cbn [fold_left]. eapply extendsBy_trans; [apply extendsBy_importSheet | apply IH].
Qed.

Lemma extendsBy_weaken (P Q : ImportCall -> Prop) (w w' : IWorld) :
  (forall c, P c -> Q c) -> extendsBy P w w' -> extendsBy Q w w'.
Proof.
  intros HPQ (cs & Hcs & Hall). exists cs. split; [done|].
  eapply Forall_impl; [apply Hall | apply HPQ].
Qed.

Lemma sheetCall_not_publish (c : ImportCall) : sheetCall c -> c <> PublishAllCustomizations.
Proof. by destruct c. Qed.

Lemma extendsBy_applySiteMapUpdates_from (P : ImportCall -> Prop) (fuel : nat) :
  (forall id xml, P (UpdateSiteMap id xml)) ->
  forall i processed w,
    extendsBy P w (applySiteMapUpdates_from repo fuel i processed w).2.
Proof.
  intros HP. induction fuel as [|fuel IH]; intros i processed w; [apply extendsBy_refl|].
  cbn [applySiteMapUpdates_from].
  destruct (siteMapUpdates w !! i) as [[id xml]|]; [|apply extendsBy_refl].
  assert (Hcall : extendsBy P w (netCall repo (UpdateSiteMap id xml) w))
    by by apply extendsBy_netCall.
  destruct (rejects repo _).
  - eapply extendsBy_trans; [apply Hcall|].
    eapply extendsBy_trans; [|apply IH]. by apply extendsBy_same.
  - eapply extendsBy_trans; [apply Hcall | apply IH].
Qed.

Lemma extendsBy_applySiteMapUpdates (P : ImportCall -> Prop) (msg : string) (w : IWorld) :
  (forall id xml, P (UpdateSiteMap id xml)) ->
  extendsBy P w (applySiteMapUpdates repo (onLog msg info w)).
Proof.
  intros HP. unfold applySiteMapUpdates.
  eapply extendsBy_trans; [|by apply extendsBy_same].
  eapply extendsBy_trans; [by apply (extendsBy_same _ w (onLog msg info w))|].
  by apply extendsBy_applySiteMapUpdates_from.
Qed.

Lemma extendsBy_flush (cache : CacheSel) (batchCount : nat) (msg : string) (w : IWorld) :
  extendsBy (fun c => c <> PublishAllCustomizations) w
    (applyFormContentUpdates repo cache batchCount (onLog msg info w)).
Proof.
  eapply extendsBy_trans; [by apply (extendsBy_same _ w (onLog msg info w))|].
  unfold applyFormContentUpdates. apply extendsBy_runUnits.
  by intros u (kv & -> & _)%list_elem_of_fmap.
Qed.

End Run.

(** ** The layout caches and their write-back *)

Section Flush.
Context `{XmlCodec}.
Variable repo : ImportRepo.

Lemma forms_patchSiteMapRow (p : PendingRow) (w : IWorld) :
  formUpdates (patchSiteMapRow p w) = formUpdates w
  /\ dashboardUpdates (patchSiteMapRow p w) = dashboardUpdates w.
Proof. unfold patchSiteMapRow. by destruct (patchSiteMap _ _ _ _ _). Qed.

Lemma forms_resumeRow (w : IWorld) (p : PendingRow) :
  formUpdates (resumeRow repo w p) = formUpdates w
  /\ dashboardUpdates (resumeRow repo w p) = dashboardUpdates w.
Proof.
  unfold resumeRow. destruct (rejects repo _); [done|].
  by destruct (forms_patchSiteMapRow p
                 (setSiteMaps (mapSet (p_siteMapId p)
                                 (default emptyXml (sitemapxml repo (p_siteMapId p)))
                                 (siteMapUpdates w)) w)) as [-> ->].
Qed.

Lemma forms_netCall (c : ImportCall) (w : IWorld) :
  formUpdates (netCall repo c w) = formUpdates w
  /\ dashboardUpdates (netCall repo c w) = dashboardUpdates w.
Proof.
  unfold netCall.
  assert (Hfold : forall l w0,
             formUpdates (fold_left (resumeRow repo) l w0) = formUpdates w0
             /\ dashboardUpdates (fold_left (resumeRow repo) l w0) = dashboardUpdates w0).
  { induction l as [|p l IH]; intros w0; [done|]. cbn [fold_left].
    destruct (IH (resumeRow repo w0 p)) as [-> ->]. apply forms_resumeRow. }
  by destruct (Hfold (pending (addCall c w)) (setPending [] (addCall c w))) as [-> ->].
Qed.

Lemma forms_dispatchUnits (what : string) (batchCount total : nat) (units : list Unit) :
  forall processed w,
    formUpdates (dispatchUnits repo what batchCount total units processed w).2 = formUpdates w
    /\ dashboardUpdates (dispatchUnits repo what batchCount total units processed w).2
       = dashboardUpdates w.
Proof.
  induction units as [|[c name] rest IH]; intros processed w; [done|].
  cbn [dispatchUnits]. destruct (forms_netCall c w) as [Hf Hd].
  destruct (rejects repo c).
  - destruct (IH processed (onLog ("Failed to update " +:+ name) error (netCall repo c w)))
      as [-> ->]. done.
  - destruct (negb _ && _).
    + destruct (IH (S processed)
                  (onLog (progressLine what (S processed) total) info (netCall repo c w)))
        as [-> ->]. done.
    + destruct (IH (S processed) (netCall repo c w)) as [-> ->]. done.
Qed.

Lemma forms_runUnits (what : string) (batchCount : nat) (units : list Unit) (w : IWorld) :
  formUpdates (runUnits repo what batchCount units w) = formUpdates w
  /\ dashboardUpdates (runUnits repo what batchCount units w) = dashboardUpdates w.
Proof. unfold runUnits. cbn [formUpdates dashboardUpdates onLog]. apply forms_dispatchUnits. Qed.

Lemma mapSet_NoDup {V} (k : string) (v : V) (m : JsMap V) :
  NoDup m.*1 -> NoDup (mapSet k v m).*1.
Proof.
  intros Hnd. rewrite mapSet_keys. destruct (mapHas k m) eqn:Hhas; [done|].
  apply NoDup_app. split; [done|]. split; [|apply NoDup_singleton].
  intros x Hx Hx'. apply list_elem_of_singleton in Hx' as ->.
  apply mapHas_keys in Hx. congruence.
Qed.

Lemma cachesNoDup_same (w w' : IWorld) :
  formUpdates w' = formUpdates w -> dashboardUpdates w' = dashboardUpdates w ->
  cachesNoDup w -> cachesNoDup w'.
Proof. unfold cachesNoDup. by intros -> ->. Qed.

Lemma cachesNoDup_onLog (msg : string) (sev : Severity) (w : IWorld) :
  cachesNoDup w -> cachesNoDup (onLog msg sev w).
Proof. done. Qed.

Lemma cachesNoDup_setCache (cache : CacheSel) (k : string) (x : XmlText) (w : IWorld) :
  cachesNoDup w -> cachesNoDup (setCache cache (mapSet k x (getCache cache w)) w).
Proof.
  intros [Hf Hd]. destruct cache; split; cbn; try done; by apply mapSet_NoDup.
Qed.

Lemma cachesNoDup_loop (cache : CacheSel) (contentType : string) (langStartCol : nat)
    (lcids : list JsNum) (rows : list Row) :
  forall w,
    cachesNoDup w ->
    cachesNoDup (prepareFormContent_loop repo cache contentType langStartCol lcids rows w).
Proof.
  induction rows as [|row rows IH]; intros w Hw; [done|].
  cbn [prepareFormContent_loop]. cbv zeta.
  destruct (negb _ || negb _); [done|].
  destruct (bool_decide _); [done|].
  set (formId := stripBraces (getCell row 5)).
  destruct (mapHas formId (getCache cache w)); cbn [negb andb].
  - destruct (patchForm _ _ _ _); [|done]. by apply IH, cachesNoDup_setCache.
  - assert (Hnet : cachesNoDup (netCall repo (GetFormById formId) w)).
    { destruct (forms_netCall (GetFormById formId) w) as [Hf Hd].
      by apply (cachesNoDup_same w). }
    destruct (rejects repo (GetFormById formId)); [done|].
    destruct (patchForm _ _ _ _).
    + by apply IH, cachesNoDup_setCache, cachesNoDup_setCache.
    + by apply cachesNoDup_onLog, cachesNoDup_setCache.
Qed.

Lemma forms_prepareSiteMapContent (sheet : Sheet) (elementType : string) (w : IWorld) :
  formUpdates (prepareSiteMapContent sheet elementType w) = formUpdates w
  /\ dashboardUpdates (prepareSiteMapContent sheet elementType w) = dashboardUpdates w.
Proof.
  unfold prepareSiteMapContent. cbv zeta.
  generalize (getLanguageColumns sheet (prepareSiteMapContent_langStartCol sheet)).
  generalize (prepareSiteMapContent_langStartCol sheet). intros start lcids.
  revert w. induction (dataRows sheet) as [|row rows IH]; intros w; [done|].
  cbn [fold_left]. destruct (IH (prepareSiteMapContent_row elementType start lcids w row))
    as [-> ->].
  unfold prepareSiteMapContent_row. cbv zeta.
  destruct (negb _ || negb _); [done|].
  destruct (bool_decide _); [done|].
  destruct (negb (mapHas _ _)); [done|]. apply forms_patchSiteMapRow.
Qed.

Lemma cachesNoDup_importSheet (sheet : Sheet) (batchCount : nat) (w : IWorld) :
  cachesNoDup w -> cachesNoDup (importSheet repo sheet batchCount w).
Proof.
  intros Hw.
  assert (Hunits : forall what msg units,
             cachesNoDup (runUnits repo what batchCount units (onLog msg info w))).
  { intros what msg units.
    destruct (forms_runUnits what batchCount units (onLog msg info w)) as [Hf Hd].
    by apply (cachesNoDup_same w). }
  assert (Hforms : forall cache ct msg,
             cachesNoDup (prepareFormContent repo sheet cache ct (onLog msg info w))).
  { intros cache ct msg. by apply cachesNoDup_loop. }
  assert (Hsite : forall et msg,
             cachesNoDup (prepareSiteMapContent sheet et (onLog msg info w))).
  { intros et msg.
    destruct (forms_prepareSiteMapContent sheet et (onLog msg info w)) as [Hf Hd].
    by apply (cachesNoDup_same w). }
  unfold importSheet, importEntities. cbv zeta.
  repeat (destruct (_ =? _)%string; cbn [orb];
          [first [apply Hunits | apply Hforms | apply Hsite]|]).
  done.
Qed.

Lemma cachesNoDup_importSheets (worksheets : list Sheet) (batchCount : nat) :
  forall w,
    cachesNoDup w ->
    cachesNoDup (fold_left (fun w sheet => importSheet repo sheet batchCount w) worksheets w).
Proof.
  induction worksheets as [|sheet rest IH]; intros w Hw; [done|].
  cbn [fold_left]. by apply IH, cachesNoDup_importSheet.
Qed.

Lemma applyFormContentUpdates_trace (cache : CacheSel) (batchCount : nat) (msg : string)
    (w : IWorld) :
  let w' := applyFormContentUpdates repo cache batchCount (onLog msg info w) in
  calls w' = calls w ++ map (fun kv => UpdateForm kv.1 kv.2) (getCache cache w)
  /\ formUpdates w' = formUpdates w /\ dashboardUpdates w' = dashboardUpdates w.
Proof.
  intros w'. subst w'. unfold applyFormContentUpdates.
  destruct (forms_runUnits "Forms content" batchCount
              (map (fun kv => (UpdateForm kv.1 kv.2, "form " +:+ kv.1))
                 (getCache cache (onLog msg info w))) (onLog msg info w)) as [-> ->].
  split; [|done]. unfold runUnits. cbn [calls onLog]. rewrite dispatchUnits_trace.
  cbn [calls onLog]. f_equal. rewrite map_map. cbn [fst].
  by destruct cache.
Qed.

Lemma sheetCall_start : Forall sheetCall (calls (onLog "Starting import..." info initialWorld)).
Proof. constructor. Qed.

(** The write-back of the layout documents comes after the sheets: while
    the sheets of the workbook are read no form, dashboard or site map is
    written back and nothing is published; then every cached form is
    written back once with the text the cache holds after the last sheet,
    then every cached dashboard, then site maps, then the publish call. *)
Theorem layout_documents_are_written_back_after_the_sheets (worksheets : list Sheet)
    (batchCount : nat) :
  let w := fold_left (fun w sheet => importSheet repo sheet batchCount w) worksheets
             (onLog "Starting import..." info initialWorld) in
  Forall sheetCall (calls w)
  /\ NoDup (formUpdates w).*1 /\ NoDup (dashboardUpdates w).*1
  /\ exists siteMapCalls,
       calls (importTranslations repo worksheets batchCount)
       = calls w ++ map (fun kv => UpdateForm kv.1 kv.2) (formUpdates w)
           ++ map (fun kv => UpdateForm kv.1 kv.2) (dashboardUpdates w)
           ++ siteMapCalls ++ [PublishAllCustomizations]
       /\ Forall isUpdateSiteMap siteMapCalls.
Proof.
  intros w.
  assert (Hsheet : Forall sheetCall (calls w)).
  { destruct (extendsBy_importSheets repo worksheets batchCount
                (onLog "Starting import..." info initialWorld)) as (cs & Hcs & Hall).
    fold w in Hcs. rewrite Hcs. apply Forall_app. split; [constructor | done]. }
  destruct (cachesNoDup_importSheets worksheets batchCount
              (onLog "Starting import..." info initialWorld)) as [Hf Hd].
  { split; constructor. }
  fold w in Hf, Hd. split; [done|]. split; [done|]. split; [done|].
  unfold importTranslations. fold w. unfold flushAndPublish. cbv zeta.
  set (w1 := if (0 <? length (formUpdates w))%nat then _ else w).
  assert (H1 : calls w1 = calls w ++ map (fun kv => UpdateForm kv.1 kv.2) (formUpdates w)
               /\ dashboardUpdates w1 = dashboardUpdates w).
  { subst w1. destruct (formUpdates w) as [|e l] eqn:Hforms.
    - cbn. by rewrite app_nil_r.
    - cbn [length Nat.ltb Nat.leb].
      destruct (applyFormContentUpdates_trace FormCache batchCount
                  ("Updating " +:+ pretty (S (length l)) +:+ " forms with content changes...")
                  w) as (Hc & _ & Hdash).
      cbn [getCache] in Hc. rewrite Hforms in Hc. done. }
  destruct H1 as [Hc1 Hd1].
  set (w2 := if (0 <? length (dashboardUpdates w1))%nat then _ else w1).
  assert (H2 : calls w2 = calls w1 ++ map (fun kv => UpdateForm kv.1 kv.2) (dashboardUpdates w)).
  { subst w2. rewrite Hd1. destruct (dashboardUpdates w) as [|e l] eqn:Hdash.
    - cbn. by rewrite app_nil_r.
    - cbn [length Nat.ltb Nat.leb].
      destruct (applyFormContentUpdates_trace DashboardCache batchCount
                  ("Updating " +:+ pretty (S (length l))
                   +:+ " dashboards with content changes...") w1) as (Hc & _).
      cbn [getCache] in Hc. rewrite Hd1 in Hc. done. }
  set (w3 := if (0 <? length (siteMapUpdates w2))%nat then _ else w2).
  assert (H3 : extendsBy isUpdateSiteMap w2 w3).
  { subst w3. destruct (0 <? length (siteMapUpdates w2))%nat; [|apply extendsBy_refl].
    by apply extendsBy_applySiteMapUpdates. }
  destruct H3 as (sm & Hsm & Hall). exists sm. split; [|done].
  assert (Hcalls : forall msg sev,
             calls (onLog msg sev (netCall repo PublishAllCustomizations
                                     (onLog "Publishing customizations..." info w3)))
             = calls w ++ map (fun kv => UpdateForm kv.1 kv.2) (formUpdates w)
                 ++ map (fun kv => UpdateForm kv.1 kv.2) (dashboardUpdates w)
                 ++ sm ++ [PublishAllCustomizations]).
  { intros msg sev. cbn [calls onLog]. rewrite calls_netCall. cbn [calls onLog].
    rewrite Hsm, H2, Hc1. by rewrite <- !app_assoc. }
  destruct (rejects repo PublishAllCustomizations); apply Hcalls.
Qed.
End Flush.

(** ** Sheets that no importer reads *)

Section UnknownSheets.
Context `{XmlCodec}.
Variable repo : ImportRepo.

Lemma importSheet_unknown (sheet : Sheet) (batchCount : nat) (w : IWorld) :
  sheetName sheet ∉ knownSheetNames ->
  importSheet repo sheet batchCount w
  = onLog ("Skipping unknown sheet: " +:+ sheetName sheet) warning w.
Proof.
  intros Hname.
  assert (Hne : forall x, x ∈ knownSheetNames -> String.eqb (sheetName sheet) x = false).
  { intros x Hx. apply String.eqb_neq. intros Heq. apply Hname. by rewrite Heq. }
  unfold importSheet. cbv zeta.
  repeat match goal with
         | |- context [String.eqb (sheetName sheet) ?x] =>
             rewrite (Hne x)
               by (unfold knownSheetNames;
                   repeat first [apply list_elem_of_here | apply list_elem_of_further])
         end.
  reflexivity.
Qed.

Lemma skipped_sheets (worksheets : list Sheet) (batchCount : nat) :
  Forall (fun s => sheetName s ∉ knownSheetNames) worksheets ->
  forall w,
    fold_left (fun w sheet => importSheet repo sheet batchCount w) worksheets w
    = mkIWorld (calls w)
        (log w ++ map (fun s => (warning, "Skipping unknown sheet: " +:+ sheetName s))
                    worksheets)
        (formUpdates w) (dashboardUpdates w) (siteMapUpdates w) (pending w).
Proof.
  induction 1 as [|s rest Hs _ IH]; intros w.
  - cbn. rewrite app_nil_r. by destruct w.
  - cbn [fold_left]. rewrite importSheet_unknown by done. rewrite IH.
    cbn [calls log formUpdates dashboardUpdates siteMapUpdates pending onLog map].
    by rewrite <- app_assoc.
Qed.

Lemma warnings_skipped (worksheets : list Sheet) :
  warnings (map (fun s => (warning, "Skipping unknown sheet: " +:+ sheetName s)) worksheets)
  = map (fun s => (warning, "Skipping unknown sheet: " +:+ sheetName s)) worksheets.
Proof.
  unfold warnings. induction worksheets as [|s rest IH]; [done|].
  cbn [map]. rewrite filter_cons_True by done. by rewrite IH.
Qed.

(** A sheet whose name is none of the names the import knows (the names
    are compared as they are, case included) is skipped with one warning:
    a workbook made of such sheets, the empty workbook included, reads no
    row and makes a single repository call, the publish, and its warnings
    are the "Skipping unknown sheet" lines, one per sheet, in order. *)
Theorem unknown_sheets_are_skipped (worksheets : list Sheet) (batchCount : nat) :
  Forall (fun s => sheetName s ∉ knownSheetNames) worksheets ->
  let w := importTranslations repo worksheets batchCount in
  calls w = [PublishAllCustomizations]
  /\ warnings (log w)
     = map (fun s => (warning, "Skipping unknown sheet: " +:+ sheetName s)) worksheets
  /\ formUpdates w = [] /\ dashboardUpdates w = [] /\ siteMapUpdates w = [].
Proof.
  intros Hunknown w. subst w. unfold importTranslations.
  rewrite skipped_sheets by done.
  unfold flushAndPublish. cbn -[warnings].
  assert (Hlog : forall tail : list (Severity * string),
             warnings tail = [] ->
             warnings ((info, "Starting import...")
                       :: map (fun s => (warning, "Skipping unknown sheet: " +:+ sheetName s))
                            worksheets ++ tail)
             = map (fun s => (warning, "Skipping unknown sheet: " +:+ sheetName s)) worksheets).
  { intros tail Htail. unfold warnings in *. rewrite filter_cons_False by done.
    rewrite filter_app. fold (warnings (map (fun s => (warning, "Skipping unknown sheet: "
                                                      +:+ sheetName s)) worksheets)).
    rewrite warnings_skipped, Htail. by rewrite app_nil_r. }
  destruct (rejects repo PublishAllCustomizations); cbn -[warnings];
    rewrite <- !app_assoc; (split; [done|]); (split; [|done]); by apply Hlog.
Qed.
End UnknownSheets.

Lemma unknown_sheets_are_skipped_witness :
  let w := importTranslations accepting_repo
             [mkSheet "entities" (sheetRows entities_sheet_one); mkSheet "Sheet1" []] 10 in
  calls w = [PublishAllCustomizations]
  /\ warnings (log w)
     = map (fun s => (warning, "Skipping unknown sheet: " +:+ sheetName s))
         [mkSheet "entities" (sheetRows entities_sheet_one); mkSheet "Sheet1" []]
  /\ formUpdates w = [] /\ dashboardUpdates w = [] /\ siteMapUpdates w = [].
Proof.
  apply (unknown_sheets_are_skipped accepting_repo
           [mkSheet "entities" (sheetRows entities_sheet_one); mkSheet "Sheet1" []] 10).
  repeat (apply Forall_cons_2;
          [cbv beta; apply (bool_decide_unpack _); vm_compute; exact I|]).
  apply Forall_nil_2.
Defined.

(** ** The language columns of the option-set sheets *)

Lemma optionSetRows_elem (lo : LabelOptions) (langs : list LanguageDef)
    (keep : OptionSetDef -> bool) (tables : list Table) (row : Row) :
  row ∈ flat_map (optionSetRows lo langs keep) tables ->
  exists t optionSet langProp,
    t ∈ tables /\ optionSet ∈ t_optionSets t /\ keep optionSet = true
    /\ langProp ∈ os_langProps optionSet /\ keepLangProp lo langProp = true
    /\ row = booleanRow langs t optionSet langProp.
Proof.
  intros (t & Ht & Hrow)%flat_map_unit_elem. unfold optionSetRows in Hrow.
  apply flat_map_unit_elem in Hrow as (optionSet & Hos & Hrow).
  apply list_elem_of_fmap in Hrow as (langProp & -> & Hlp).
  apply list_elem_of_filter in Hos as [Hkeep Hos].
  apply list_elem_of_filter in Hlp as [Hkeeplp Hlp].
  by exists t, optionSet, langProp.
Qed.



Lemma langs_cell_at (g : LanguageDef -> JsVal) (langs : list LanguageDef) (pre : Row)
    (k : nat) (lang : LanguageDef) :
  langs !! k = Some lang ->
  getCell (pre ++ map g langs) (S (length pre + k)) = g lang.
Proof. intros Hk. by rewrite getCell_app_r, list_lookup_fmap, Hk. Qed.



(** ** The Entities sheet when the labels come in header order *)

Lemma positional_cell (L : Z) (langs : list LanguageDef) :
  forall (trans : list LangTranslation) (pre : Row),
    map lt_code trans = map (fun l => JNum (ld_code l)) langs ->
    hasCode L langs = true ->
    match columnOf L (map (fun l => JNum (ld_code l)) langs) (S (length pre)) with
    | Some col =>
        getCell (pre ++ map (fun t => JStr (lt_translation t)) trans) col
        = JStr (translationFor L (mkLangProp "" trans))
    | None => False
    end.
Proof.
  induction langs as [|l langs IH]; intros trans pre Hcodes Hhas; [done|].
  destruct trans as [|t trans]; [done|]. injection Hcodes as Ht Hcodes.
  cbn [map columnOf]. unfold translationFor. cbn [lp_translation List.find].
  rewrite Ht. case_bool_decide as Hl.
  - replace (S (length pre)) with (S (length pre + 0)) by lia.
    by rewrite getCell_app_r.
  - assert (hasCode L langs = true) as Hrest.
    { cbn in Hhas. destruct (ld_code l =? L) eqn:E; [|done]. apply Z.eqb_eq in E. congruence. }
    specialize (IH trans (pre ++ [JStr (lt_translation t)]) Hcodes Hrest).
    rewrite length_app in IH. cbn [length] in IH. rewrite Nat.add_1_r in IH.
    destruct (columnOf L _ _) as [col|]; [|done].
    by rewrite <- app_assoc in IH.
Qed.

(** The Entities sheet is aligned with its header when the repository
    returns the labels of a property in the order of the output languages:
    if the codes of the translation list are the codes of the header, in
    order, then under the column of each output language stands the
    translation whose code is that language. *)
Theorem entityRow_is_aligned_when_labels_follow_the_header (t : Table) (langProp : LangProp)
    (langs : list LanguageDef) (L : Z) :
  map lt_code (lp_translation langProp) = map (fun l => JNum (ld_code l)) langs ->
  hasCode L langs = true ->
  cellUnder L (headerOf ["Entity Id"; "Entity Logical Name"; "Type"] langs)
    (entityRow t langProp)
  = JStr (translationFor L langProp).
Proof.
  intros Hcodes Hhas. unfold cellUnder, headerOf. rewrite columnOf_ids. cbn [length Nat.add].
  pose proof (positional_cell L langs (lp_translation langProp)
                [JStr (braces (t_id t)); JStr (t_logicalName t); JStr (lp_name langProp)]
                Hcodes Hhas) as Hcell.
  cbn [length] in Hcell. destruct (columnOf L _ 4) as [col|]; [|done].
  unfold entityRow. rewrite Hcell. done.
Qed.

Lemma entityRow_is_aligned_when_labels_follow_the_header_witness :
  cellUnder 1036 (headerOf ["Entity Id"; "Entity Logical Name"; "Type"] [lang_en; lang_fr])
    (entityRow account_table
       (mkLangProp "DisplayName" [mkTrans (JNum 1033) "Account"; mkTrans (JNum 1036) "Compte"]))
  = JStr (translationFor 1036
            (mkLangProp "DisplayName"
               [mkTrans (JNum 1033) "Account"; mkTrans (JNum 1036) "Compte"])).
Proof.
  apply (entityRow_is_aligned_when_labels_follow_the_header account_table
           (mkLangProp "DisplayName" [mkTrans (JNum 1033) "Account"; mkTrans (JNum 1036) "Compte"])
           [lang_en; lang_fr] 1036).
  - reflexivity.
  - reflexivity.
Defined.

(** ** The language sweep when it runs to its end *)

Section SweepTrace.
Variable repo : Repository.

Lemma fetches_call (c : RepoCall) (w : World) :
  filter (fun c => isFetch c = true) (w_calls (call c w))
  = filter (fun c => isFetch c = true) (w_calls w) ++ (if isFetch c then [c] else []).
Proof.
  cbn [call w_calls]. rewrite filter_app. f_equal.
  destruct (isFetch c) eqn:E; [by rewrite filter_cons_True|].
  by rewrite filter_cons_False by congruence.
Qed.

Lemma fetches_getFormsAll (tables : list string) (lang : Z) (b : bool) (w w' : World)
    (r : Res unit) :
  getFormsAll repo tables lang b w = (r, w') ->
  filter (fun c => isFetch c = true) (w_calls w')
  = filter (fun c => isFetch c = true) (w_calls w) ++ map (fun t => CallGetForms t lang b) tables.
Proof.
  unfold getFormsAll. intros Hrun.
  assert (Hw' : w' = fold_left (fun w t => call (CallGetForms t lang b) w) tables w).
  { by destruct (existsb _ tables); injection Hrun as _ <-. }
  subst w'. clear Hrun. revert w. induction tables as [|t tables IH]; intros w.
  - cbn. by rewrite app_nil_r.
  - cbn [fold_left map]. rewrite IH, fetches_call. cbn [isFetch]. by rewrite <- app_assoc.
Qed.

Lemma fetches_updateLanguage (lang : JsVal) (userId : string) (w w' : World) (r : Res unit) :
  updateLanguage repo lang userId w = (r, w') ->
  filter (fun c => isFetch c = true) (w_calls w')
  = filter (fun c => isFetch c = true) (w_calls w).
Proof.
  unfold updateLanguage. intros Hrun.
  assert (Hcalls : w_calls w' = w_calls (call (CallUpdateLanguage lang userId) w)).
  { by destruct (updateLanguage_fails repo lang); injection Hrun as _ <-. }
  rewrite Hcalls, fetches_call. cbn [isFetch]. by rewrite app_nil_r.
Qed.

Lemma sweepLangs_fetches (formsExport dashboards : bool) (tables : list string) (baseCode : Z)
    (langs : list LanguageDef) :
  forall (currentLang : JsVal) (w w' : World),
    sweepLangs repo formsExport dashboards tables baseCode currentLang langs w = (Ok tt, w') ->
    filter (fun c => isFetch c = true) (w_calls w')
    = filter (fun c => isFetch c = true) (w_calls w)
      ++ flat_map (fetchesFor formsExport dashboards tables baseCode) langs.
Proof.
  induction langs as [|lang rest IH]; intros cur w w' Hrun.
  - injection Hrun as <-. cbn. by rewrite app_nil_r.
  - cbn [sweepLangs] in Hrun.
    apply bind_inv in Hrun as [(cur' & w1 & Hswitch & Hrun) | (e & _ & [=])].
    assert (H1 : filter (fun c => isFetch c = true) (w_calls w1)
                 = filter (fun c => isFetch c = true) (w_calls w)).
    { case_bool_decide.
      - apply bind_inv in Hswitch as [(vm & wa & Hread & Hswitch) | (e & _ & [=])].
        injection Hread as _ <-.
        apply bind_inv in Hswitch as [([] & wb & Hupd & Hret) | (e & _ & [=])].
        injection Hret as _ <-. by apply fetches_updateLanguage in Hupd.
      - by injection Hswitch as _ <-. }
    apply bind_inv in Hrun as [([] & w2 & Hforms & Hrun) | (e & _ & [=])].
    assert (H2 : filter (fun c => isFetch c = true) (w_calls w2)
                 = filter (fun c => isFetch c = true) (w_calls w1)
                   ++ (if formsExport
                       then map (fun t => CallGetForms t (ld_code lang)
                                            (ld_code lang =? baseCode)) tables
                       else [])).
    { destruct formsExport; cbn [when] in Hforms.
      - by apply fetches_getFormsAll in Hforms.
      - injection Hforms as <-. by rewrite app_nil_r. }
    apply bind_inv in Hrun as [([] & w3 & Hdash & Hrun) | (e & _ & [=])].
    assert (H3 : filter (fun c => isFetch c = true) (w_calls w3)
                 = filter (fun c => isFetch c = true) (w_calls w2)
                   ++ (if dashboards then [CallGetDashboards (ld_code lang)] else [])).
    { destruct dashboards; cbn [when] in Hdash.
      - unfold getDashboards in Hdash.
        assert (Hw3 : w3 = call (CallGetDashboards (ld_code lang)) w2).
        { destruct (getDashboards_fails repo _); [discriminate Hdash|].
          by injection Hdash as <-. }
        subst w3. by rewrite fetches_call.
      - injection Hdash as <-. by rewrite app_nil_r. }
    apply IH in Hrun. rewrite Hrun, H3, H2, H1.
    cbn [flat_map]. unfold fetchesFor at 2. by rewrite <- !app_assoc.
Qed.

(** A sweep that runs to its end visits every output language once, in
    order: for each language it fetches the forms of every selected table,
    flagged as base exactly when the language is the base language, then
    the dashboards; its last call sets the locale back to the one recorded
    at the start, for the user recorded at the start, and the repository
    holds that locale again. *)
Theorem exportForms_sweep_visits_each_language_once (o : Options) (tables : list string)
    (baseCode : Z) (langs : list LanguageDef) (w w' : World) :
  let formsExport := o_forms o || o_formFields o || o_formSections o || o_formTabs o in
  formsExport || o_dashboards o = true ->
  exportForms_sweep repo o tables baseCode langs w = (Ok tt, w') ->
  filter (fun c => isFetch c = true) (w_calls w')
  = filter (fun c => isFetch c = true) (w_calls w)
    ++ flat_map (fetchesFor formsExport (o_dashboards o) tables baseCode) langs
  /\ last (w_calls w') = Some (CallUpdateLanguage (w_uilanguageid w) (w_systemuserid w))
  /\ w_uilanguageid w' = w_uilanguageid w.
Proof.
  intros formsExport Hopt Hrun. unfold exportForms_sweep in Hrun. fold formsExport in Hrun.
  rewrite Hopt in Hrun. unfold when in Hrun.
  apply bind_inv in Hrun as [([] & w1 & Hsweep & Hrestore) | (e & _ & [=])].
  apply bind_inv in Hsweep as [(r0 & w0 & Hget & Hsweep) | (e & _ & [=])].
  unfold getUserLanguage in Hget. destruct (getUserLanguage_fails repo); [done|].
  injection Hget as Hr Hw. subst r0 w0.
  apply bind_inv in Hsweep as [([] & wa & Hset & Hsweep) | (e & _ & [=])].
  injection Hset as Hw. subst wa.
  apply bind_inv in Hsweep as [(vm & wb & Hread & Hsweep) | (e & _ & [=])].
  injection Hread as Hvm Hw. subst vm wb.
  pose proof Hsweep as Hvm. apply sweepLangs_keeps_vm in Hvm as [Hui Huser].
  apply sweepLangs_fetches in Hsweep.
  cbn [vm_uiLocale vm_userId fst snd] in Hui, Huser.
  apply bind_inv in Hrestore as [(vm & wc & Hread & Hrestore) | (e & _ & [=])].
  injection Hread as Hvm Hw. subst vm wc.
  unfold updateLanguage in Hrestore. destruct (updateLanguage_fails repo _); [done|].
  injection Hrestore as Hw. subst w'. cbn [w_calls w_uilanguageid call fst snd].
  rewrite Hui, Huser. split; [|split; [by rewrite last_snoc | done]].
  rewrite filter_app, Hsweep.
  cbn [w_calls call]. rewrite filter_app, !filter_cons_False, !filter_nil by done.
  by rewrite !app_nil_r.
Qed.
End SweepTrace.

Lemma exportForms_sweep_visits_each_language_once_witness :
  let w := mkWorld (JNum 1036) "user-1" [] (JStr "") "" in
  let w' := (exportForms_sweep calm_repo sweep_options ["account"; "contact"] 1033
               [lang_fr; lang_en] w).2 in
  filter (fun c => isFetch c = true) (w_calls w')
  = filter (fun c => isFetch c = true) (w_calls w)
    ++ flat_map (fetchesFor (o_forms sweep_options || o_formFields sweep_options
                             || o_formSections sweep_options || o_formTabs sweep_options)
                   (o_dashboards sweep_options) ["account"; "contact"] 1033)
         [lang_fr; lang_en]
  /\ last (w_calls w') = Some (CallUpdateLanguage (w_uilanguageid w) (w_systemuserid w))
  /\ w_uilanguageid w' = w_uilanguageid w.
Proof.
  apply (exportForms_sweep_visits_each_language_once calm_repo sweep_options
           ["account"; "contact"] 1033 [lang_fr; lang_en]
           (mkWorld (JNum 1036) "user-1" [] (JStr "") "")).
  - reflexivity.
  - reflexivity.
Defined.

(** ** Elements in document order *)

Lemma descendantsFrom_unfold (d : nat) (t : string) (a : list (string * string))
    (ks : list Node) :
  descendantsFrom d (Elem t a ks)
  = flat_map (fun k => (d, k) :: descendantsFrom (S d) k) ks.
Proof.
  cbn [descendantsFrom]. induction ks as [|k ks IH]; [done|].
  cbn [flat_map]. by rewrite <- IH.
Qed.

Lemma descendantsFrom_depth (n : Node) :
  forall d e, e ∈ descendantsFrom d n -> (d <= e.1)%nat.
Proof.
  induction n as [t a ks IH] using Node_kids_ind. intros d e.
  rewrite descendantsFrom_unfold, flat_map_unit_elem.
  intros (k & Hk & [-> | He]%elem_of_cons); [done|].
  rewrite Forall_forall in IH. specialize (IH k Hk (S d) e He). lia.
Qed.

Lemma descendantsFrom_nodes (n : Node) :
  forall d d', map snd (descendantsFrom d n) = map snd (descendantsFrom d' n).
Proof.
  induction n as [t a ks IH] using Node_kids_ind. intros d d'.
  rewrite !descendantsFrom_unfold.
  induction IH as [|k ks Hk _ IHks]; [done|].
  cbn [flat_map]. rewrite !map_app. cbn [map snd]. by rewrite (Hk (S d) (S d')), IHks.
Qed.

Lemma descendants_unfold (t : string) (a : list (string * string)) (ks : list Node) :
  descendants (Elem t a ks) = flat_map (fun k => k :: descendants k) ks.
Proof.
  unfold descendants. rewrite descendantsFrom_unfold.
  induction ks as [|k ks IH]; [done|].
  cbn [flat_map]. rewrite map_app. cbn [map snd].
  by rewrite IH, (descendantsFrom_nodes k 2 1).
Qed.

Lemma head_filter_app {A} (P : A -> Prop) `{!forall x, Decision (P x)} (l1 l2 : list A) :
  head (filter P (l1 ++ l2))
  = match head (filter P l1) with
    | Some x => Some x
    | None => head (filter P l2)
    end.
Proof. rewrite filter_app. by destruct (filter P l1). Qed.

(** The structural scan of the patchers is the scan of the source: the
    element found is the first element satisfying the test in the list
    made of the root and its descendants in document order. *)
Lemma findFirst_document_order (p : Node -> bool) (n : Node) :
  findFirst p n = head (filter (fun e => p e = true) (n :: descendants n)).
Proof.
  induction n as [t a ks IH] using Node_kids_ind.
  rewrite findFirst_unfold. destruct (p (Elem t a ks)) eqn:Hp.
  - by rewrite filter_cons_True.
  - rewrite filter_cons_False by congruence. rewrite descendants_unfold. clear Hp.
    induction IH as [|k ks Hk _ IHks]; [done|].
    cbn [findFirstIn flat_map]. rewrite head_filter_app, <- Hk, IHks. done.
Qed.

Lemma filter_filter_and {A} (P Q : A -> Prop) `{!forall x, Decision (P x)}
    `{!forall x, Decision (Q x)} (l : list A) :
  filter Q (filter P l) = filter (fun x => P x /\ Q x) l.
Proof.
  induction l as [|x l IH]; [done|].
  destruct (decide (P x)) as [HP | HP].
  - rewrite (filter_cons_True P) by done. destruct (decide (Q x)) as [HQ | HQ].
    + rewrite !filter_cons_True by done. by rewrite IH.
    + rewrite !filter_cons_False by tauto. done.
  - rewrite (filter_cons_False P) by done. rewrite filter_cons_False by tauto. done.
Qed.

Lemma filter_ext_iff {A} (P Q : A -> Prop) `{!forall x, Decision (P x)}
    `{!forall x, Decision (Q x)} (l : list A) :
  (forall x, P x <-> Q x) -> filter P l = filter Q l.
Proof.
  intros HPQ. induction l as [|x l IH]; [done|].
  destruct (decide (P x)) as [HP | HP].
  - rewrite !filter_cons_True by (done || by apply HPQ). by rewrite IH.
  - rewrite !filter_cons_False by (done || by rewrite <- HPQ). done.
Qed.


(** ** The captions of a site-map group *)

Lemma querySelectorAt_child (t : string) (n x : Node) :
  querySelectorAt t n = Some (1%nat, x) -> queryChild t n = Some x.
Proof.
  destruct n as [tg a ks]. unfold querySelectorAt, queryChild. cbn [kidsOf].
  rewrite descendantsFrom_unfold.
  induction ks as [|k ks IH]; [done|].
  cbn [flat_map]. rewrite <- app_comm_cons.
  destruct (decide (hasTag t k = true)) as [Hk | Hk].
  - rewrite (filter_cons_True _ (1%nat, k)) by done.
    rewrite (filter_cons_True _ k) by done. cbn. by intros [= ->].
  - rewrite (filter_cons_False _ (1%nat, k)) by done.
    rewrite (filter_cons_False _ k) by done.
    rewrite head_filter_app.
    destruct (head (filter _ (descendantsFrom 2 k))) as [[d y]|] eqn:Hdeep; [|apply IH].
    intros [= -> ->]. exfalso.
    destruct (filter _ (descendantsFrom 2 k)) as [|e l] eqn:Hf; [done|].
    injection Hdeep as ->.
    assert (Hin : (1%nat, x) ∈ filter (fun dk => hasTag t dk.2 = true) (descendantsFrom 2 k))
      by (rewrite Hf; by left).
    apply list_elem_of_filter in Hin as [_ Hin].
    apply descendantsFrom_depth in Hin. cbn in Hin. lia.
Qed.

(** A group never takes its titles from a nested element: the titles of
    the exported group node are those of the first Titles child of the
    group, or there are none (also when a Titles element nested deeper
    comes first in the group, in which case the group's own Titles child is
    not looked for). *)
Theorem group_titles_come_from_a_child_or_are_empty `{XmlCodec} (sm : SiteMapRecord)
    (group : Node) :
  exists groupTitles,
    si_langProps (groupInfo sm group)
    = captionProps groupTitles (querySelector "Descriptions" group)
    /\ (groupTitles = None \/ groupTitles = queryChild "Titles" group)
    /\ (forall x, querySelectorAt "Titles" group = Some (1%nat, x) -> groupTitles = Some x).
Proof.
  unfold groupInfo. cbv zeta. cbn [si_langProps].
  destruct (querySelectorAt "Titles" group) as [[d x]|] eqn:Hq.
  - destruct d as [|[|d]].
    + exists None. split; [done|]. split; [by left | intros y [=]].
    + exists (Some x). split; [done|]. split; [|by intros y [= ->]].
      right. symmetry. by apply querySelectorAt_child.
    + exists None. split; [done|]. split; [by left | intros y [=]].
  - exists None. split; [done|]. split; [by left | done].
Qed.

(** ** Patching twice *)

Lemma updateFirstIn_app (p : Node -> bool) (f : Node -> Node) (pre l : list Node) :
  Forall (fun x => findFirst p x = None) pre ->
  updateFirstIn p f (pre ++ l) = app pre <$> updateFirstIn p f l.
Proof.
  induction 1 as [|x pre Hx _ IH]; cbn [app updateFirstIn].
  - by destruct (updateFirstIn p f l).
  - apply (updateFirst_None p f) in Hx. rewrite Hx, IH.
    by destruct (updateFirstIn p f l).
Qed.

Lemma updateFirstChild_app (p : Node -> bool) (f : Node -> Node) (pre post : list Node)
    (c : Node) :
  Forall (fun x => p x = false) pre -> p c = true ->
  updateFirstChild p f (pre ++ c :: post) = Some (pre ++ f c :: post).
Proof.
  intros Hpre Hc. induction Hpre as [|x pre Hx _ IH]; cbn [app updateFirstChild].
  - by rewrite Hc.
  - by rewrite Hx, IH.
Qed.

Section Twice.
Variables (p : Node -> bool) (f : Node -> Node).
Hypothesis p_head : forall n n', tagOf n' = tagOf n -> attrsOf n' = attrsOf n -> p n' = p n.
Hypothesis f_head : forall n, tagOf (f n) = tagOf n /\ attrsOf (f n) = attrsOf n.

Lemma updateFirst_keeps_head (n n' : Node) :
  updateFirst p f n = Some n' -> tagOf n' = tagOf n /\ attrsOf n' = attrsOf n.
Proof.
  destruct n as [t a ks]. rewrite updateFirst_unfold.
  destruct (p (Elem t a ks)); [intros [= <-]; apply f_head|].
  destruct (updateFirstIn p f ks); [|done]. by intros [= <-].
Qed.

(** After a patch, the element found by the same test is the patched
    element. *)
Lemma updateFirst_found (n n' : Node) :
  updateFirst p f n = Some n' -> findFirst p n' = f <$> findFirst p n.
Proof.
  revert n n'.
  apply (updateFirst_rel p f (fun n n' => findFirst p n' = f <$> findFirst p n)).
  - intros [t a ks] Hp. rewrite (findFirst_unfold p t a ks), Hp. cbn [fmap option_fmap option_map].
    destruct (f (Elem t a ks)) as [t' a' ks'] eqn:Hf.
    rewrite findFirst_unfold.
    replace (p (Elem t' a' ks')) with true; [done|].
    rewrite <- Hp, <- Hf. symmetry. apply p_head; apply f_head.
  - intros t a pre k k' post Hp Hpre Hk IH.
    destruct (updateFirst_keeps_head k k' Hk) as [Ht Ha].
    rewrite !findFirst_unfold.
    replace (p (Elem t a (pre ++ k' :: post))) with false by (by rewrite <- Hp; apply p_head).
    rewrite Hp, !findFirstIn_app by done. cbn [findFirstIn]. rewrite IH.
    destruct (findFirst p k) as [x|] eqn:Hx; [done|].
    apply (updateFirst_None p f) in Hx. congruence.
Qed.

Hypothesis f_twice : forall n, p n = true -> f (f n) = f n.

Lemma updateFirst_twice (n n' : Node) :
  updateFirst p f n = Some n' -> updateFirst p f n' = Some n'.
Proof.
  revert n n'. apply (updateFirst_rel p f (fun n n' => updateFirst p f n' = Some n')).
  - intros n Hp. destruct (f n) as [t' a' ks'] eqn:Hf.
    rewrite updateFirst_unfold.
    replace (p (Elem t' a' ks')) with true.
    + rewrite <- Hf. by rewrite f_twice.
    + rewrite <- Hp, <- Hf. symmetry. apply p_head; apply f_head.
  - intros t a pre k k' post Hp Hpre Hk IH.
    rewrite updateFirst_unfold.
    replace (p (Elem t a (pre ++ k' :: post))) with false by (by rewrite <- Hp; apply p_head).
    rewrite updateFirstIn_app by done. cbn [updateFirstIn]. by rewrite IH.
Qed.
End Twice.

Lemma isSiteMapElement_head (et id : string) (n n' : Node) :
  tagOf n' = tagOf n -> attrsOf n' = attrsOf n ->
  isSiteMapElement et id n' = isSiteMapElement et id n.
Proof. intros Ht Ha. unfold isSiteMapElement, hasTag, getAttribute. by rewrite Ht, Ha. Qed.

Lemma hasTag_head (t : string) (n n' : Node) :
  tagOf n' = tagOf n -> attrsOf n' = attrsOf n -> hasTag t n' = hasTag t n.
Proof. intros Ht _. unfold hasTag. by rewrite Ht. Qed.

Lemma setSiteMapCaption_head (type : string) (labels : Labels) (n : Node) :
  tagOf (setSiteMapCaption type labels n) = tagOf n
  /\ attrsOf (setSiteMapCaption type labels n) = attrsOf n.
Proof. unfold setSiteMapCaption. cbv zeta. by destruct (updateFirstChild _ _ _). Qed.

Lemma setSiteMapCaption_twice (type : string) (labels : Labels) (e : Node) :
  setSiteMapCaption type labels (setSiteMapCaption type labels e)
  = setSiteMapCaption type labels e.
Proof.
  destruct (setSiteMapCaption_children type labels e) as (Ht & Ha & Hkids).
  set (cn := siteMapContainerName type) in *.
  set (els := siteMapLabelElements type labels) in *.
  destruct (setSiteMapCaption type labels e) as [t' a' ks'] eqn:He'.
  cbn [tagOf attrsOf kidsOf] in *.
  unfold setSiteMapCaption. cbv zeta. fold cn els. cbn [kidsOf tagOf attrsOf].
  destruct Hkids as [(pre & c & post & _ & Hpre & Hc & ->) | (Hnone & ->)].
  - rewrite updateFirstChild_app; [| done | by rewrite hasTag_replaceKids]. done.
  - rewrite updateFirstChild_app; [done | done |]. unfold hasTag. cbn. apply String.eqb_refl.
Qed.

Lemma replaceKids_head (ks : list Node) (n : Node) :
  tagOf (replaceKids ks n) = tagOf n /\ attrsOf (replaceKids ks n) = attrsOf n.
Proof. done. Qed.

Lemma setFormCaption_twice (labels : Labels) (e : Node) :
  setFormCaption labels (setFormCaption labels e) = setFormCaption labels e.
Proof.
  unfold setFormCaption at 2 3.
  destruct (updateFirstIn (hasTag "labels") (replaceKids (formLabelElements labels)) (kidsOf e))
    as [ks'|] eqn:Hks.
  - apply updateFirstIn_split in Hks as (pre & k & k' & post & Hkids & -> & Hpre & Hk).
    unfold setFormCaption. cbn [kidsOf tagOf attrsOf].
    rewrite updateFirstIn_app.
    2:{ eapply Forall_impl; [apply Hpre|]. intros x Hx. by apply updateFirst_None in Hx. }
    cbn [updateFirstIn].
    rewrite (updateFirst_twice (hasTag "labels") (replaceKids (formLabelElements labels))
               (hasTag_head "labels") (replaceKids_head _) ltac:(done) k k' Hk).
    done.
  - unfold setFormCaption. cbn [kidsOf tagOf attrsOf updateFirstIn].
    by rewrite updateFirst_unfold.
Qed.

(** Applying a row a second time changes nothing: a site-map patch or a
    form patch that succeeded on a document succeeds on the patched
    document and gives the patched document back. *)
Theorem patching_twice_is_patching_once (elementType contentType elementId type : string)
    (labels : Labels) (d d' : Node) :
  (patchSiteMap elementType elementId type labels d = Some d' ->
   patchSiteMap elementType elementId type labels d' = Some d')
  /\ (patchForm contentType elementId labels d = Some d' ->
      patchForm contentType elementId labels d' = Some d').
Proof.
  split.
  - apply updateFirst_twice.
    + apply isSiteMapElement_head.
    + apply setSiteMapCaption_head.
    + intros n _. apply setSiteMapCaption_twice.
  - apply updateFirst_twice.
    + apply isFormElement_head.
    + apply setFormCaption_head.
    + intros n _. apply setFormCaption_twice.
Qed.

(** ** Reading back a patched site-map element *)

Lemma filter_none {A} (P : A -> Prop) `{!forall x, Decision (P x)} (l : list A) :
  Forall (fun x => ~ P x) l -> filter P l = [].
Proof.
  induction 1 as [|x l Hx _ IH]; [done|]. by rewrite filter_cons_False.
Qed.

Lemma querySelectorAt_first_child (t tg : string) (a : list (string * string))
    (pre post : list Node) (c : Node) :
  (forall k dx, k ∈ pre -> dx ∈ (1%nat, k) :: descendantsFrom 2 k -> hasTag t dx.2 = false) ->
  hasTag t c = true ->
  querySelectorAt t (Elem tg a (pre ++ c :: post)) = Some (1%nat, c).
Proof.
  intros Hpre Hc. unfold querySelectorAt. rewrite descendantsFrom_unfold.
  induction pre as [|k pre IH]; cbn [app flat_map].
  - by rewrite filter_cons_True.
  - rewrite app_comm_cons, head_filter_app.
    replace (filter (fun dk : nat * Node => hasTag t dk.2 = true)
               ((1%nat, k) :: descendantsFrom 2 k)) with (@nil (nat * Node)).
    + apply IH. intros k' dx Hk'. apply Hpre. by right.
    + symmetry. apply filter_none, Forall_forall. intros dx Hdx.
      rewrite (Hpre k dx) by (done || by left). done.
Qed.

Lemma setSiteMapCaption_first_descendant (type : string) (labels : Labels) (e : Node) :
  tagOnlyAmongChildren (siteMapContainerName type) e ->
  exists c,
    querySelectorAt (siteMapContainerName type) (setSiteMapCaption type labels e)
    = Some (1%nat, c)
    /\ kidsOf c = siteMapLabelElements type labels.
Proof.
  intros Honly.
  destruct (setSiteMapCaption_children type labels e) as (Ht & Ha & Hkids).
  set (cn := siteMapContainerName type) in *.
  set (els := siteMapLabelElements type labels) in *.
  assert (Hdeep : forall k dx, k ∈ kidsOf e -> hasTag cn k = false ->
            dx ∈ (1%nat, k) :: descendantsFrom 2 k -> hasTag cn dx.2 = false).
  { intros k dx Hk Hkt [-> | Hdx]%elem_of_cons; [done|].
    destruct (hasTag cn dx.2) eqn:Htag; [|done].
    pose proof (descendantsFrom_depth k 2 dx Hdx) as Hdepth.
    assert (dx.1 = 1%nat); [|lia].
    apply Honly; [|done]. destruct e as [te ae kse]. cbn [kidsOf] in Hk.
    rewrite descendantsFrom_unfold, flat_map_unit_elem. exists k. split; [done|]. by right. }
  destruct (setSiteMapCaption type labels e) as [t' a' ks'] eqn:He'.
  cbn [tagOf attrsOf kidsOf] in *.
  destruct Hkids as [(pre & c & post & Hks & Hpre & Hc & ->) | (Hnone & ->)].
  - exists (replaceKids els c). split; [|done].
    apply querySelectorAt_first_child; [|by rewrite hasTag_replaceKids].
    intros k dx Hk. rewrite Forall_forall in Hpre.
    apply Hdeep; [|by apply Hpre]. rewrite Hks. apply elem_of_app. by left.
  - exists (Elem cn [] els). split; [|done].
    apply querySelectorAt_first_child.
    + intros k dx Hk. rewrite Forall_forall in Hnone. apply Hdeep; [done|by apply Hnone].
    + unfold hasTag. cbn. apply String.eqb_refl.
Qed.

Lemma captionEntries_written (type : string) (labels : Labels) (c : Node) :
  kidsOf c = siteMapLabelElements type labels ->
  captionEntries (if String.eqb type "Description" then "Description" else "Title") (Some c)
  = map (fun l => mkTrans (JStr (numToString l.1)) l.2) (entries labels).
Proof.
  intros Hc. unfold captionEntries. rewrite Hc. unfold siteMapLabelElements.
  cbv zeta. rewrite map_map.
  apply map_ext. intros [k v].
  by destruct (String.eqb type "Description").
Qed.

(** A caption written by the import is what the export reads: when the
    only elements with the container's tag below a site-map element are
    its children, the export of the patched element lists, under the
    patched property, one translation per label, with the label's
    language code as text and the label's text, in the order of the
    written elements.  This holds for the area, group and sub-area
    readers. *)
Theorem patched_caption_is_exported `{XmlCodec} (sm : SiteMapRecord) (groupId type : string)
    (labels : Labels) (e : Node) :
  tagOnlyAmongChildren (siteMapContainerName type) e ->
  let e' := setSiteMapCaption type labels e in
  let name := if String.eqb type "Description" then "Description" else "Title" in
  let written := map (fun l => mkTrans (JStr (numToString l.1)) l.2) (entries labels) in
  langPropNamed name (areaInfo sm e') = Some written
  /\ langPropNamed name (groupInfo sm e') = Some written
  /\ langPropNamed name (subAreaInfo sm groupId e') = Some written.
Proof.
  intros Honly e' name written.
  destruct (setSiteMapCaption_first_descendant type labels e Honly) as (c & Hq & Hc).
  fold e' in Hq. pose proof (captionEntries_written type labels c Hc) as Hread.
  fold name written in Hread.
  unfold langPropNamed, areaInfo, groupInfo, subAreaInfo, captionProps, querySelector.
  cbv zeta. cbn [si_langProps].
  unfold siteMapContainerName in Hq. subst name.
  destruct (String.eqb type "Description"); rewrite Hq; cbn -[captionEntries]; by rewrite Hread.
Qed.

Lemma patched_caption_is_exported_witness :
  tagOnlyAmongChildren (siteMapContainerName "Title") plain_subarea
  /\ langPropNamed "Title"
       (subAreaInfo small_sitemap_record "group1"
          (setSiteMapCaption "Title" [(Some 1033, "Accounts"); (Some 1036, "Comptes")]
             plain_subarea))
     = Some [mkTrans (JStr "1033") "Accounts"; mkTrans (JStr "1036") "Comptes"].
Proof.
  assert (Honly : tagOnlyAmongChildren (siteMapContainerName "Title") plain_subarea).
  { intros dx Hdx. by apply elem_of_nil in Hdx. }
  split; [exact Honly|].
  apply (patched_caption_is_exported small_sitemap_record "group1" "Title"
           [(Some 1033, "Accounts"); (Some 1036, "Comptes")] plain_subarea Honly).
Defined.

(** ** The labels of a request *)

Lemma Number_of_key (k : JsNum) : strToNumber (numToString k) = k.
Proof. destruct k as [z|]; [apply strToNumber_pretty | reflexivity]. Qed.

Lemma entries_Permutation (o : Labels) : entries o ≡ₚ o.
Proof.
  unfold entries. rewrite merge_sort_Permutation.
  induction o as [|e o IH]; [done|].
  destruct (isIndexKey e.1) eqn:He.
  - rewrite filter_cons_True by done. rewrite (filter_cons_False _ e) by congruence.
    rewrite <- app_comm_cons. by apply Permutation_skip.
  - rewrite filter_cons_False by congruence. rewrite (filter_cons_True _ e) by done.
    rewrite <- Permutation_middle. by apply Permutation_skip.
Qed.

Lemma entries_elem (o : Labels) (e : JsNum * string) : e ∈ entries o <-> e ∈ o.
Proof. by rewrite entries_Permutation. Qed.

Lemma entries_NoDup (o : Labels) : NoDup o.*1 -> NoDup (entries o).*1.
Proof. intros Hnd. by rewrite entries_Permutation. Qed.


(** ** Merging the labels of a relationship *)

Lemma find_app_first {A} (p : A -> bool) (l1 l2 : list A) :
  List.find p (l1 ++ l2)
  = match List.find p l1 with
    | Some x => Some x
    | None => List.find p l2
    end.
Proof. induction l1 as [|x l1 IH]; [done|]. cbn. by destruct (p x). Qed.

Lemma strictEqNum_spec (a : JsNum) (z : Z) : strictEqNum a (Some z) = true <-> a = Some z.
Proof.
  destruct a as [x|]; cbn; [|done]. rewrite Z.eqb_eq. split; congruence.
Qed.

Lemma strictEqNum_other (a k : JsNum) (z : Z) :
  k <> Some z -> strictEqNum a k = true -> strictEqNum a (Some z) = false.
Proof.
  intros Hk Hak. destruct a as [x|], k as [y|]; try done. cbn in *.
  apply Z.eqb_eq in Hak as ->. apply Z.eqb_neq. congruence.
Qed.

Lemma labelIn_setExisting_same (z : Z) (t : string) (ls ls' : list LocalizedLabel) :
  setExistingLabel (Some z) t ls = Some ls' -> labelIn z ls' = Some t.
Proof.
  unfold labelIn. revert ls'. induction ls as [|l ls IH]; intros ls'; cbn; [done|].
  destruct (strictEqNum (ll_LanguageCode l) (Some z)) eqn:Hl.
  - intros [= <-]. cbn. by rewrite Hl.
  - destruct (setExistingLabel (Some z) t ls) as [r|]; [|done].
    intros [= <-]. cbn. rewrite Hl. by apply IH.
Qed.

Lemma labelIn_setExisting_none (z : Z) (t : string) (ls : list LocalizedLabel) :
  setExistingLabel (Some z) t ls = None -> labelIn z ls = None.
Proof.
  unfold labelIn. induction ls as [|l ls IH]; cbn; [done|].
  destruct (strictEqNum (ll_LanguageCode l) (Some z)) eqn:Hl; [done|].
  destruct (setExistingLabel (Some z) t ls); [done|]. intros _. by apply IH.
Qed.

Lemma labelIn_setExisting_other (z : Z) (k : JsNum) (t : string)
    (ls ls' : list LocalizedLabel) :
  k <> Some z -> setExistingLabel k t ls = Some ls' -> labelIn z ls' = labelIn z ls.
Proof.
  intros Hk. unfold labelIn. revert ls'. induction ls as [|l ls IH]; intros ls'; cbn; [done|].
  destruct (strictEqNum (ll_LanguageCode l) k) eqn:Hl.
  - intros [= <-]. cbn. by rewrite (strictEqNum_other _ k z).
  - destruct (setExistingLabel k t ls) as [r|]; [|done].
    intros [= <-]. cbn. destruct (strictEqNum (ll_LanguageCode l) (Some z)); [done|].
    by apply IH.
Qed.

Lemma labelIn_mergeLabel_same (z : Z) (t : string) (ls : list LocalizedLabel) :
  labelIn z (mergeLabel ls (Some z, t)) = Some t.
Proof.
  unfold mergeLabel. cbn [fst snd]. rewrite Number_of_key.
  destruct (setExistingLabel (Some z) t ls) as [ls'|] eqn:Hset.
  - by eapply labelIn_setExisting_same.
  - apply labelIn_setExisting_none in Hset. unfold labelIn in *.
    rewrite find_app_first. destruct (List.find _ ls); [done|].
    cbn. by rewrite Z.eqb_refl.
Qed.

Lemma labelIn_mergeLabel_other (z : Z) (k : JsNum) (t : string) (ls : list LocalizedLabel) :
  k <> Some z -> labelIn z (mergeLabel ls (k, t)) = labelIn z ls.
Proof.
  intros Hk. unfold mergeLabel. cbn [fst snd]. rewrite Number_of_key.
  destruct (setExistingLabel k t ls) as [ls'|] eqn:Hset.
  - by eapply labelIn_setExisting_other.
  - unfold labelIn. rewrite find_app_first. destruct (List.find _ ls); [done|].
    cbn. destruct k as [y|]; [|done]. cbn.
    replace (y =? z) with false; [done|]. symmetry. apply Z.eqb_neq. congruence.
Qed.

Lemma labelIn_fold_other (z : Z) (es : list (JsNum * string)) :
  forall ls, Some z ∉ es.*1 -> labelIn z (fold_left mergeLabel es ls) = labelIn z ls.
Proof.
  induction es as [|[k t] es IH]; intros ls Hz; [done|].
  cbn [fold_left]. rewrite fmap_cons, not_elem_of_cons in Hz. destruct Hz as [Hk Hz].
  rewrite IH by done. apply labelIn_mergeLabel_other. cbn in Hk. congruence.
Qed.

Lemma labelIn_fold_same (z : Z) (t : string) (es : list (JsNum * string)) :
  forall ls, NoDup es.*1 -> (Some z, t) ∈ es ->
    labelIn z (fold_left mergeLabel es ls) = Some t.
Proof.
  induction es as [|[k t'] es IH]; intros ls Hnd Hin; [by apply elem_of_nil in Hin|].
  rewrite fmap_cons in Hnd. apply NoDup_cons in Hnd as [Hk Hnd]. cbn [fold_left].
  apply elem_of_cons in Hin as [[= <- <-] | Hin].
  - rewrite labelIn_fold_other by done. apply labelIn_mergeLabel_same.
  - by apply IH.
Qed.

(** The code and the other fields of each label, in list order. *)
Lemma setExisting_keeps (k : JsNum) (t : string) (ls ls' : list LocalizedLabel) :
  setExistingLabel k t ls = Some ls' ->
  map (fun l => (ll_LanguageCode l, ll_fields l)) ls'
  = map (fun l => (ll_LanguageCode l, ll_fields l)) ls.
Proof.
  revert ls'. induction ls as [|l ls IH]; intros ls'; cbn; [done|].
  destruct (strictEqNum (ll_LanguageCode l) k).
  - by intros [= <-].
  - destruct (setExistingLabel k t ls) as [r|]; [|done].
    intros [= <-]. cbn. by rewrite (IH r).
Qed.

Lemma mergeLabels_keeps (es : list (JsNum * string)) :
  forall ls, exists added,
    map (fun l => (ll_LanguageCode l, ll_fields l)) (fold_left mergeLabel es ls)
    = map (fun l => (ll_LanguageCode l, ll_fields l)) ls ++ added
    /\ (length added <= length es)%nat.
Proof.
  induction es as [|e es IH]; intros ls.
  - exists []. by rewrite app_nil_r.
  - cbn [fold_left]. destruct (IH (mergeLabel ls e)) as (added & Hadded & Hlen).
    unfold mergeLabel in Hadded |- *.
    destruct (setExistingLabel _ e.2 ls) as [ls'|] eqn:Hset.
    + exists added. rewrite Hadded, (setExisting_keeps _ _ _ _ Hset). split; [done|]. simpl. lia.
    + eexists. rewrite Hadded, map_app, <- app_assoc. split; [done|].
      rewrite length_app. simpl. lia.
Qed.

(** Merging the labels of a row into those of a relationship menu: every
    language code of the row shows the text of the row afterwards, every
    other language shows what it showed before, and the labels that were
    there keep their place, their code and their other fields; at most one
    label per language of the row is added, after them. *)
Theorem relationship_labels_are_merged (labels : Labels)
    (localizedLabels : list LocalizedLabel) :
  NoDup labels.*1 ->
  (forall z t, (Some z, t) ∈ labels ->
     labelIn z (mergeLabels labels localizedLabels) = Some t)
  /\ (forall z, Some z ∉ labels.*1 ->
        labelIn z (mergeLabels labels localizedLabels) = labelIn z localizedLabels)
  /\ exists added,
       map (fun l => (ll_LanguageCode l, ll_fields l)) (mergeLabels labels localizedLabels)
       = map (fun l => (ll_LanguageCode l, ll_fields l)) localizedLabels ++ added
       /\ (length added <= length labels)%nat.
Proof.
  intros Hnd. unfold mergeLabels. repeat split.
  - intros z t Hin. apply labelIn_fold_same; [by apply entries_NoDup | by rewrite entries_elem].
  - intros z Hz. apply labelIn_fold_other. by rewrite entries_Permutation.
  - destruct (mergeLabels_keeps (entries labels) localizedLabels) as (added & Hadded & Hlen).
    exists added. split; [done|]. by rewrite entries_Permutation in Hlen.
Qed.

Lemma relationship_labels_are_merged_witness :
  (forall z t, (Some z, t) ∈ [(Some 1036, "Interlocuteurs"); (Some 1031, "Ansprechpartner")] ->
     labelIn z (mergeLabels [(Some 1036, "Interlocuteurs"); (Some 1031, "Ansprechpartner")]
                  menu_labels) = Some t)
  /\ (forall z, Some z ∉ [(Some 1036, "Interlocuteurs"); (Some 1031, "Ansprechpartner")].*1 ->
        labelIn z (mergeLabels [(Some 1036, "Interlocuteurs"); (Some 1031, "Ansprechpartner")]
                     menu_labels) = labelIn z menu_labels)
  /\ exists added,
       map (fun l => (ll_LanguageCode l, ll_fields l))
         (mergeLabels [(Some 1036, "Interlocuteurs"); (Some 1031, "Ansprechpartner")]
            menu_labels)
       = map (fun l => (ll_LanguageCode l, ll_fields l)) menu_labels ++ added
       /\ (length added
           <= length [(Some 1036, "Interlocuteurs"); (Some 1031, "Ansprechpartner")])%nat.
Proof.
  apply (relationship_labels_are_merged
           [(Some 1036, "Interlocuteurs"); (Some 1031, "Ansprechpartner")] menu_labels).
  apply (bool_decide_unpack _). vm_compute. exact I.
Defined.

(** ** Round trip of the option-set sheets *)

Lemma readLabelsFrom_translated (langProp : LangProp) (langs : list LanguageDef) :
  forall (pre : Row) (acc : Labels),
    readLabelsFrom (pre ++ map (fun l => JStr (findTranslation l langProp)) langs)
      (S (length pre)) (map (fun l => Some (ld_code l)) langs) acc
    = fold_left (fun labels lang =>
          let text := findTranslation lang langProp in
          if truthy (trim text) then setProp (Some (ld_code lang)) text labels else labels)
        langs acc.
Proof.
  induction langs as [|l langs IH]; intros pre acc; [done|].
  cbn [map readLabelsFrom fold_left].
  replace (getCell (pre ++ JStr (findTranslation l langProp)
                    :: map (fun l0 => JStr (findTranslation l0 langProp)) langs)
             (S (length pre)))
    with (JStr (findTranslation l langProp)).
  2:{ rewrite <- (Nat.add_0_r (length pre)). by rewrite getCell_app_r. }
  cbn [nonBlank toStr].
  specialize (IH (pre ++ [JStr (findTranslation l langProp)])).
  rewrite <- app_assoc, length_app in IH. cbn [app length] in IH.
  rewrite Nat.add_1_r in IH. apply IH.
Qed.

Lemma translatedLabels_fold_NoDup (langProp : LangProp) (langs : list LanguageDef) :
  forall acc, NoDup acc.*1 ->
    NoDup (fold_left (fun labels lang =>
          let text := findTranslation lang langProp in
          if truthy (trim text) then setProp (Some (ld_code lang)) text labels else labels)
        langs acc).*1.
Proof.
  induction langs as [|l langs IH]; intros acc Hnd; [done|].
  cbn [fold_left]. apply IH. cbv zeta.
  destruct (truthy _); [by apply setProp_NoDup | done].
Qed.

Lemma translatedLabels_fold_getProp (langProp : LangProp) (langs : list LanguageDef) (z : Z) :
  forall acc,
    getProp (Some z)
      (fold_left (fun labels lang =>
          let text := findTranslation lang langProp in
          if truthy (trim text) then setProp (Some (ld_code lang)) text labels else labels)
        langs acc)
    = if existsb (fun l => ld_code l =? z) langs && truthy (trim (translationFor z langProp))
      then Some (translationFor z langProp)
      else getProp (Some z) acc.
Proof.
  induction langs as [|l langs IH]; intros acc; [done|].
  cbn [fold_left existsb]. rewrite IH. cbv zeta. unfold findTranslation.
  destruct (existsb (fun l0 => ld_code l0 =? z) langs) eqn:Hrest; cbn [andb orb].
  - rewrite orb_true_r. cbn [andb].
    destruct (truthy (trim (translationFor z langProp))) eqn:Hz; [done|].
    destruct (truthy (trim (translationFor (ld_code l) langProp))) eqn:Hl; [|done].
    rewrite getProp_setProp. unfold key_eqb. case_bool_decide as E; [|done].
    injection E as E. rewrite <- E in Hl. congruence.
  - rewrite orb_false_r. destruct (ld_code l =? z) eqn:Hc; cbn [andb].
    + apply Z.eqb_eq in Hc. rewrite Hc.
      destruct (truthy (trim (translationFor z langProp))); [|done].
      rewrite getProp_setProp. unfold key_eqb. by rewrite bool_decide_eq_true_2.
    + apply Z.eqb_neq in Hc.
      destruct (truthy (trim (translationFor (ld_code l) langProp))); [|done].
      rewrite getProp_setProp. unfold key_eqb. rewrite bool_decide_eq_false_2; [done|].
      congruence.
Qed.

Lemma translatedLabels_fold_keys (langProp : LangProp) (langs : list LanguageDef) :
  forall acc, None ∉ acc.*1 ->
    None ∉ (fold_left (fun labels lang =>
          let text := findTranslation lang langProp in
          if truthy (trim text) then setProp (Some (ld_code lang)) text labels else labels)
        langs acc).*1.
Proof.
  induction langs as [|l langs IH]; intros acc Hacc; [done|].
  cbn [fold_left]. apply IH. cbv zeta. destruct (truthy _); [|done].
  rewrite setProp_keys. intros [? | ?]; done.
Qed.

Lemma translatedLabels_elem (langs : list LanguageDef) (langProp : LangProp) (k : JsNum)
    (t : string) :
  (k, t) ∈ translatedLabels langs langProp <->
  exists lang, lang ∈ langs /\ k = Some (ld_code lang)
    /\ t = findTranslation lang langProp /\ truthy (trim t) = true.
Proof.
  unfold translatedLabels.
  rewrite getProp_elem by (apply translatedLabels_fold_NoDup; constructor).
  destruct k as [z|].
  - rewrite translatedLabels_fold_getProp. cbn [getProp List.find fmap option_fmap option_map].
    destruct (existsb (fun l => ld_code l =? z) langs) eqn:Hex; cbn [andb].
    + apply existsb_exists in Hex as (l & Hl & Hc). apply Z.eqb_eq in Hc.
      apply list_elem_of_In in Hl.
      destruct (truthy (trim (translationFor z langProp))) eqn:Hz.
      * split.
        -- intros [= <-]. exists l. unfold findTranslation. by rewrite Hc.
        -- intros (l' & _ & [= ->] & -> & _). done.
      * split; [done|]. intros (l' & _ & [= ->] & -> & Ht).
        unfold findTranslation in Ht. congruence.
    + split; [done|]. intros (l' & Hl' & [= ->] & _).
      assert (existsb (fun l => ld_code l =? ld_code l') langs = true); [|congruence].
      apply existsb_exists. exists l'. split; [by apply list_elem_of_In | apply Z.eqb_refl].
  - split.
    + intros Hget. exfalso.
      apply (translatedLabels_fold_keys langProp langs []); [by intros ?%elem_of_nil|].
      apply getProp_elem in Hget; [|apply translatedLabels_fold_NoDup; constructor].
      apply list_elem_of_fmap. by exists (None, t).
    + by intros (l & _ & [=] & _).
Qed.

Lemma optionSetRows_props (lo : LabelOptions) (langs : list LanguageDef)
    (keep : OptionSetDef -> bool) (tables : list Table) :
  flat_map (optionSetRows lo langs keep) tables
  = map (fun x => booleanRow langs x.1.1 x.1.2 x.2) (exportedOptionProps lo keep tables).
Proof.
  unfold exportedOptionProps, optionSetRows.
  induction tables as [|t tables IH]; [done|].
  cbn [flat_map]. rewrite map_app, IH. f_equal.
  induction (filter (fun os => keep os = true) (t_optionSets t)) as [|os l IHl]; [done|].
  cbn [flat_map]. rewrite map_app, IHl, map_map. done.
Qed.

Lemma flat_map_map {A B C} (f : B -> list C) (g : A -> B) (l : list A) :
  flat_map f (map g l) = flat_map (fun x => f (g x)) l.
Proof. induction l as [|x l IH]; [done|]. cbn. by rewrite IH. Qed.

Section OptionSheets.
Context `{XmlCodec}.

Lemma importLocalOptionSets_exported (name : string) (lo : LabelOptions)
    (langs : list LanguageDef) (keep : OptionSetDef -> bool) (tables : list Table) :
  importLocalOptionSets_units
    (mkSheet name (headerOf optionSetHeader6 langs
                   :: flat_map (optionSetRows lo langs keep) tables))
  = flat_map (optionValueUpdate langs) (exportedOptionProps lo keep tables).
Proof.
  unfold importLocalOptionSets_units. cbv zeta.
  change 7%nat with (S (length optionSetHeader6)).
  rewrite getLanguageColumns_exported.
  unfold dataRows. cbn [sheetRows drop]. rewrite optionSetRows_props, drop_0, flat_map_map.
  apply flat_map_ext. intros [[t os] lp]. cbn [fst snd].
  unfold optionValueUpdate, booleanRow. cbn [fst snd].
  unfold readLabels.
  change (S (length optionSetHeader6))
    with (S (length [JStr (braces (os_id os)); JStr (t_logicalName t);
                     os_attributeLogicalName os; os_type os; os_optionValue os;
                     JStr (lp_name lp)])).
  rewrite readLabelsFrom_translated. fold (translatedLabels langs lp).
  reflexivity.
Qed.
End OptionSheets.


(** ** The end of an export run *)

Lemma errors_app (l1 l2 : list (Severity * string)) : errors (l1 ++ l2) = errors l1 ++ errors l2.
Proof. unfold errors. apply filter_app. Qed.

Section ExportRun.
Variables (o : StageOptions) (r : StageResults) (exportAll : bool)
  (allLanguages : list LanguageDef) (selectedLanguage : option LanguageDef)
  (baseLanguage : LanguageDef) (st0 : ExportState).

Lemma running_setProgress (message : string) (hundredths : Z) (st : ExportState) :
  running st0 st -> running st0 (setProgress message hundredths st).
Proof. done. Qed.

Lemma running_info (msg : string) (st : ExportState) :
  running st0 st -> running st0 (exportLog msg info st).
Proof.
  intros (Hlog & Hex & Hdl). split; [|done].
  cbn [exportLog es_log]. rewrite errors_app, Hlog. unfold errors at 2.
  rewrite filter_cons_False by (cbn; discriminate). by rewrite app_nil_r.
Qed.

Lemma ended_stuck (p : Settled) (st : ExportState) :
  p <> Fulfilled -> running st0 st -> ended st0 (st, p).
Proof. intros Hp (Hlog & Hex & Hdl). split; [done|]. by destruct p. Qed.

Lemma await_ended (p : Settled) (rest : ExportState -> ExportState * Settled)
    (st : ExportState) :
  running st0 st -> (forall st', running st0 st' -> ended st0 (rest st')) ->
  ended st0 (await p rest st).
Proof.
  intros Hst Hrest. destruct p; cbn [await]; [by apply Hrest | by apply ended_stuck..].
Qed.

Lemma exportTranslations_try_ended :
  ended st0 (exportTranslations_try o r exportAll allLanguages selectedLanguage baseLanguage st0).
Proof.
  unfold exportTranslations_try. apply await_ended.
  { apply running_setProgress. split; [|done].
    cbn [setExporting exportLog es_log]. rewrite errors_app. unfold errors at 2.
    rewrite filter_cons_False by (cbn; discriminate). by rewrite app_nil_r. }
  intros st1 H1. apply (running_info ("Base language is " +:+ ld_name baseLanguage +:+ " ("
                         +:+ pretty (ld_code baseLanguage) +:+ ")")) in H1.
  destruct (outputLangs _ _ _ _); [|by apply ended_stuck].
  do 11 (apply await_ended; [by apply running_setProgress | clear st1 H1; intros st1 H1]).
  destruct H1 as (Hlog & Hex & Hdl). split; [done|]. cbn. by rewrite Hdl.
Qed.
End ExportRun.

(** The busy flag, the download and the failure message tell how a run
    ended.  The file is handed to the browser exactly when the run is
    fulfilled, and only then is the busy flag cleared: after a rejected
    run, and after a run that never settles, the flag stays set.
    "Export failed." is logged exactly when the run is rejected, and it
    is the only error that [exportTranslations] logs itself. *)
Theorem export_ends_are_told_apart (o : StageOptions) (r : StageResults) (exportAll : bool)
    (allLanguages : list LanguageDef) (selectedLanguage : option LanguageDef)
    (baseLanguage : LanguageDef) (st0 : ExportState) :
  let res := exportTranslations o r exportAll allLanguages selectedLanguage baseLanguage st0 in
  (es_exporting res.1 = false <-> res.2 = Fulfilled)
  /\ es_downloads res.1
     = es_downloads st0 ++ (if decide (res.2 = Fulfilled) then ["translations.xlsx"] else [])
  /\ errors (es_log res.1)
     = errors (es_log st0)
       ++ (if decide (res.2 = Rejected) then [(error, "Export failed.")] else []).
Proof.
  intros res. subst res. unfold exportTranslations.
  pose proof (exportTranslations_try_ended o r exportAll allLanguages selectedLanguage
                baseLanguage st0) as [Herr Hend].
  destruct (exportTranslations_try _ _ _ _ _ _ _) as [st' s]. cbn [fst snd] in *.
  destruct s; cbn [fst snd exportLog es_exporting es_downloads es_log];
    destruct Hend as [Hex Hdl]; rewrite ?Hex, ?Hdl, ?errors_app, ?Herr, ?app_nil_r.
  - by repeat split.
  - repeat split; try done.
  - repeat split; try done.
Qed.

(** With relationships switched off, or with descriptions only, the
    export never finishes: once the base language, the Entities sheet and
    the Attributes sheet are done, the run stays at "Exporting
    relationships..." and 20 percent with the busy flag set; nothing is
    downloaded and [exportTranslations] logs no failure, whatever the
    later stages would do. *)
Theorem export_without_relationships_never_settles (o : StageOptions) (r : StageResults)
    (exportAll : bool) (allLanguages : list LanguageDef)
    (selectedLanguage : option LanguageDef) (baseLanguage : LanguageDef) (st0 : ExportState) :
  so_relationships o = false \/ so_labelOptions o = descriptions ->
  sr_getBaseLanguage r = Fulfilled ->
  is_Some (outputLangs exportAll allLanguages selectedLanguage baseLanguage) ->
  sr_exportTableInfo r = Fulfilled ->
  sr_exportAttributes r = Fulfilled ->
  let res := exportTranslations o r exportAll allLanguages selectedLanguage baseLanguage st0 in
  res.2 = Pending
  /\ es_message res.1 = "Exporting relationships..."
  /\ es_exportpercentage res.1 = 20
  /\ es_exporting res.1 = true
  /\ es_downloads res.1 = es_downloads st0
  /\ errors (es_log res.1) = errors (es_log st0).
Proof.
  intros Hguard Hbase [langs Hlangs] Htable Hattr res. subst res.
  assert (Hrel : exportRelationships_promise o (sr_relationshipSheets r) = Pending).
  { unfold exportRelationships_promise. destruct Hguard as [-> | ->]; [done|].
    by rewrite orb_true_r. }
  unfold exportTranslations, exportTranslations_try.
  rewrite Hbase, Hlangs, Htable, Hattr, Hrel. cbn.
  repeat split. rewrite !errors_app. unfold errors at 2 3.
  rewrite !filter_cons_False by (cbn; discriminate). by rewrite !app_nil_r.
Qed.

Lemma export_without_relationships_never_settles_witness :
  let res := exportTranslations (mkStageOptions false true true both) all_fulfilled true
               [lang_en; lang_fr] None lang_en idle in
  res.2 = Pending
  /\ es_message res.1 = "Exporting relationships..."
  /\ es_exportpercentage res.1 = 20
  /\ es_exporting res.1 = true
  /\ es_downloads res.1 = es_downloads idle
  /\ errors (es_log res.1) = errors (es_log idle).
Proof.
  apply (export_without_relationships_never_settles (mkStageOptions false true true both)
           all_fulfilled true [lang_en; lang_fr] None lang_en idle).
  - by left.
  - reflexivity.
  - by eexists.
  - reflexivity.
  - reflexivity.
Defined.

